(** * core/domain/exp_domain.py: explorations, their states and the schema
    migration driver

    A shallow embedding of the parts of [exp_domain.py] that decide the
    properties stated at the end of the file: customization-argument
    defaulting, [RuleSpec.validate], the hint synthesis of
    [State.update_interaction_fallbacks], the state operations of
    [Exploration] (rename, delete, the two graph validators) and the YAML
    migration driver with its two entry points.

    Conventions.
    - Python values that flow untyped through the code (YAML documents,
      customization args, rule inputs) are [pyval] trees.
    - A Python exception is a value of [exn]; fallible code returns
      [result].  A method that mutates [self] returns the object it leaves
      behind next to its [result], so that a partial mutation before a raise
      stays visible.
    - The dictionaries owned by an exploration ([states], the panels of the
      skin, [param_specs]) are [gmap]s.  Where the code walks a dict or turns
      a set into a list the order is the interpreter's; it is a parameter of
      the definition ([dict_items], [list_of_set]).
    - A dict inside an untyped value is the list of its items in the order
      in which it is walked.  An assignment to a new key may change that
      order (Python 2 lays the keys out again when the hash table grows):
      the order after the insertion is a parameter too ([rehash]), of which
      only [reorders] is assumed.
    - Collaborators that live outside this file (the HTML cleaner, the
      interaction registry, the schema normaliser, the YAML parser, ...) are
      section variables. *)

From stdpp Require Import gmap strings list fin_maps sorting.

Set Warnings "-register-all,-clear-no-such-hyp".
Open Scope string_scope.
Open Scope list_scope.

(** ** Python values *)

Inductive pyval :=
| PNone
| PBool (b : bool)
| PInt (z : Z)
| PStr (s : string)
| PList (l : list pyval)
| PDict (d : list (string * pyval)).

(** A dict with string keys: its items in the order in which the dict is
    walked. *)
Abbreviation pydict := (list (string * pyval)).

(** The message of an exception is kept as the template of the source and
    its arguments, unformatted; [fmt_arg] is one argument of [%]. *)
Inductive fmt_arg :=
| ArgStr (s : string)
| ArgInt (z : Z)
| ArgVal (v : pyval)
| ArgSet (X : gset string)
| ArgExn (e : exn)
with exn :=
| ValidationError (template : string) (args : list fmt_arg)
| Exception_ (template : string) (args : list fmt_arg)
| ValueError (template : string) (args : list fmt_arg)
| KeyError (key : string)
| TypeError (what : string)
| AttributeError (attr : string)
| UnboundLocalError (name : string)
| External (e : string).

(** [UnboundLocalError] is a subclass of [NameError]. *)
Definition is_NameError (e : exn) : bool :=
  match e with UnboundLocalError _ => true | _ => false end.

Inductive result (A : Type) :=
| Ok (a : A)
| Raise (e : exn).
Arguments Ok {A} a.
Arguments Raise {A} e.

#[global] Instance result_ret : MRet result := λ A a, Ok a.
#[global] Instance result_bind : MBind result := λ A B f m,
  match m with Ok a => f a | Raise e => Raise e end.

Definition raises {A} (m : result A) : Prop :=
  match m with Ok _ => False | Raise _ => True end.

Definition of_option {A} (o : option A) (e : exn) : result A :=
  match o with Some a => Ok a | None => Raise e end.

(** [[f(x) for x in l]], left to right, stopping at the first raise. *)
Fixpoint mapM_result {A B} (f : A → result B) (l : list A) : result (list B) :=
  match l with
  | [] => Ok []
  | x :: l' => y ← f x; ys ← mapM_result f l'; Ok (y :: ys)
  end.

(** [for x in l: f(x)], stopping at the first raise. *)
Fixpoint forM_ {A} (f : A → result unit) (l : list A) : result unit :=
  match l with
  | [] => Ok ()
  | x :: l' => _ ← f x; forM_ f l'
  end.

(** A record of [logging.warning]: template and arguments. *)
Record log_record := Warning { log_template : string; log_args : list fmt_arg }.

(** ** Dict operations on [pydict] *)

Module pydict_ops.

Fixpoint get (k : string) (d : pydict) : option pyval :=
  match d with
  | [] => None
  | (k', v) :: d' => if decide (k' = k) then Some v else get k d'
  end.

(** [k in d] *)
Definition contains (k : string) (d : pydict) : bool :=
  bool_decide (is_Some (get k d)).

(** [d[k] = v] for a key that is present: the value changes and the order
    in which the dict is walked does not. *)
Fixpoint replace (k : string) (v : pyval) (d : pydict) : pydict :=
  match d with
  | [] => []
  | (k', v') :: d' =>
      if decide (k' = k) then (k, v) :: d' else (k', v') :: replace k v d'
  end.

(** [d[k] = v].  A key that is present keeps its place.  A new key goes
    where the hash table of Python 2 has a free slot for it, and when the
    table grows all the keys are laid out again: the order in which the
    dict is walked after the insertion is the interpreter's, [rehash]. *)
Definition set (rehash : pydict → pydict) (k : string) (v : pyval)
    (d : pydict) : pydict :=
  if contains k d then replace k v d else rehash (d ++ [(k, v)]).

(** What is known of [rehash]: the items are the same and every key still
    leads to its value. *)
Definition reorders (rehash : pydict → pydict) : Prop :=
  ∀ d, rehash d ≡ₚ d ∧ ∀ k, get k (rehash d) = get k d.

Definition keys (d : pydict) : list string := d.*1.

(** [d[k]] *)
Definition getitem (k : string) (d : pydict) : result pyval :=
  of_option (get k d) (KeyError k).

End pydict_ops.

(** A key of a dict that has not been looked at yet.  The code of this file
    looks entries up by name; a key that is not a string (a number, [None],
    a tuple: a YAML or JSON document can have them) is never equal to a
    name and shows only where the keys are walked. *)
Inductive pykey :=
| KStr (s : string)
| KOther (v : pyval).

(** A dict with keys of any type, in the order in which it is walked. *)
Abbreviation anydict := (list (pykey * pyval)).

(** The operations of [pydict_ops] on a dict with keys of any type; the
    key that is looked up, set or deleted is a name. *)
Module anydict_ops.

(** [key == k] for a name [k] *)
Definition is_name (k : string) (key : pykey) : bool :=
  match key with
  | KStr s => bool_decide (s = k)
  | KOther _ => false
  end.

Fixpoint get (k : string) (d : anydict) : option pyval :=
  match d with
  | [] => None
  | (key, v) :: d' => if is_name k key then Some v else get k d'
  end.

(** [k in d] *)
Definition contains (k : string) (d : anydict) : bool :=
  bool_decide (is_Some (get k d)).

(** [d[k] = v] for a key that is present. *)
Fixpoint replace (k : string) (v : pyval) (d : anydict) : anydict :=
  match d with
  | [] => []
  | (key, v') :: d' =>
      if is_name k key then (key, v) :: d' else (key, v') :: replace k v d'
  end.

(** [d[k] = v]; see [pydict_ops.set]. *)
Definition set (rehash : anydict → anydict) (k : string) (v : pyval)
    (d : anydict) : anydict :=
  if contains k d then replace k v d else rehash (d ++ [(KStr k, v)]).

Definition reorders (rehash : anydict → anydict) : Prop :=
  ∀ d, rehash d ≡ₚ d ∧ ∀ k, get k (rehash d) = get k d.

(** [del d[k]] for a key that is present. *)
Definition del (k : string) (d : anydict) : anydict :=
  filter (λ kv, is_name k kv.1 = false) d.

Definition keys (d : anydict) : list pykey := d.*1.

(** [d[k]] *)
Definition getitem (k : string) (d : anydict) : result pyval :=
  of_option (get k d) (KeyError k).

(** A dict whose keys are all strings, as a dict with keys of any type. *)
Definition of_pydict (d : pydict) : anydict := prod_map KStr id <$> d.

End anydict_ops.

(** [v[k]] on an arbitrary value: only a dict can be indexed by a name. *)
Definition py_getitem (k : string) (v : pyval) : result pyval :=
  match v with
  | PDict d => pydict_ops.getitem k d
  | _ => Raise (TypeError "not subscriptable by a key")
  end.

(** [v is None] *)
Definition is_None (v : pyval) : bool :=
  match v with PNone => true | _ => false end.

(** Truth value of a Python object. *)
Definition py_truthy (v : pyval) : bool :=
  match v with
  | PNone => false
  | PBool b => b
  | PInt z => bool_decide (z ≠ 0%Z)
  | PStr s => bool_decide (s ≠ "")
  | PList l => bool_decide (l ≠ [])
  | PDict d => bool_decide (d ≠ [])
  end.

(** ** String operations *)

(** [sub in s] *)
Definition str_contains (sub s : string) : bool :=
  bool_decide (is_Some (String.index 0 sub s)).

(** [s.index(sub)] *)
Definition str_index (sub s : string) : result nat :=
  of_option (String.index 0 sub s) (ValueError "substring not found" []).

(** [s[i:j]] for [0 <= i] and [0 <= j]. *)
Definition str_slice (i j : nat) (s : string) : string :=
  String.substring i (j - i) s.

(** [sep.join(l)] *)
Definition str_join (sep : string) (l : list string) : string :=
  String.concat sep l.

(** [s.capitalize()] on a byte string: the first character in upper case
    and the others in lower case, for the letters of ASCII. *)
Definition ascii_upper (c : Ascii.ascii) : Ascii.ascii :=
  let n := Ascii.nat_of_ascii c in
  if (97 <=? n)%nat && (n <=? 122)%nat then Ascii.ascii_of_nat (n - 32) else c.

Definition ascii_lower (c : Ascii.ascii) : Ascii.ascii :=
  let n := Ascii.nat_of_ascii c in
  if (65 <=? n)%nat && (n <=? 90)%nat then Ascii.ascii_of_nat (n + 32) else c.

Definition str_capitalize (s : string) : string :=
  match s with
  | EmptyString => EmptyString
  | String c s' =>
      String (ascii_upper c)
        (String.string_of_list_ascii
           (ascii_lower <$> String.list_ascii_of_string s'))
  end.

(** ** Customization arguments (module level functions) *)

(** What the code reads of a customization arg spec. *)
Record CustomizationArgSpec := {
  ca_name : string;
  ca_description : string;
  ca_default_value : pyval;
  ca_schema : pyval;
}.

(** [_get_full_customization_args]: the dict is updated in place and
    returned; here the updated dict is the result.  The keys of the dict
    are of any type: the function looks at the declared names only. *)
Definition _get_full_customization_args (rehash : anydict → anydict)
    (customization_args : anydict) (ca_specs : list CustomizationArgSpec)
    : anydict :=
  foldl (λ customization_args ca_spec,
           if anydict_ops.contains (ca_name ca_spec) customization_args
           then customization_args
           else anydict_ops.set rehash (ca_name ca_spec)
                  (PDict [("value", ca_default_value ca_spec)])
                  customization_args)
        customization_args ca_specs.

(** What a caller passes for [customization_args]: a dict, whose keys may
    be of any type, or another value.  [ArgsValue (PDict d)] is a dict as
    well, with string keys. *)
Inductive customization_args_object :=
| ArgsDict (d : anydict)
| ArgsValue (v : pyval).

Section validate_customization_args.

(** [schema_utils.normalize_against_schema(value, schema)] *)
Variable normalize_against_schema : pyval → pyval → result pyval.

(** The order of the dict after an insertion. *)
Variable rehash : anydict → anydict.

(** The body of the [try] of the last loop: any exception is swallowed and
    leaves the dict as it was.  The right-hand side is evaluated first, so
    both keys are present when the assignment is made and the values are
    replaced in place. *)
Definition normalize_customization_arg
    (customization_args : anydict) (ca_spec : CustomizationArgSpec) : anydict :=
  let attempt :=
    entry ← anydict_ops.getitem (ca_name ca_spec) customization_args;
    old ← py_getitem "value" entry;
    new ← normalize_against_schema old (ca_schema ca_spec);
    match entry with
    | PDict e =>
        Ok (anydict_ops.replace (ca_name ca_spec)
              (PDict (pydict_ops.replace "value" new e)) customization_args)
    | _ => Raise (TypeError "does not support item assignment")
    end in
  match attempt with
  | Ok d => d
  | Raise _ => customization_args
  end.

(** The warning logged for an undeclared key. *)
Definition unsupported_arg_warning (item_name item_type arg_name : string)
    : log_record :=
  Warning "%s %s does not support customization arg %s."
          [ArgStr (str_capitalize item_name); ArgStr item_type;
           ArgStr arg_name].

(** The loop over [customization_args.keys()]: the warnings logged and
    [extra_args], or the exception of the first key that is not a string;
    the warnings logged before that key stay logged. *)
Fixpoint collect_extra_args (item_name item_type : string)
    (ca_spec_names : list string) (arg_names : list pykey)
    : list log_record * result (list string) :=
  match arg_names with
  | [] => ([], Ok [])
  | KOther arg_name :: _ =>
      ([], Raise (ValidationError "Invalid customization arg name: %s"
                    [ArgVal arg_name]))
  | KStr arg_name :: arg_names' =>
      let rest :=
        collect_extra_args item_name item_type ca_spec_names arg_names' in
      if decide (arg_name ∈ ca_spec_names) then rest
      else
        (unsupported_arg_warning item_name item_type arg_name :: rest.1,
         extra_args ← rest.2; Ok (arg_name :: extra_args))
  end.

(** The function on an argument that is a dict. *)
Definition validate_customization_args_dict
    (item_name item_type : string) (customization_args : anydict)
    (ca_specs_to_validate_against : list CustomizationArgSpec)
    : list log_record * customization_args_object * result unit :=
  let ca_spec_names := ca_name <$> ca_specs_to_validate_against in
  let customization_args :=
    _get_full_customization_args rehash
      customization_args ca_specs_to_validate_against in
  let '(log, extra_args) :=
    collect_extra_args item_name item_type ca_spec_names
      (anydict_ops.keys customization_args) in
  match extra_args with
  | Raise e => (log, ArgsDict customization_args, Raise e)
  | Ok extra_args =>
      let customization_args :=
        foldl (λ d extra_arg, anydict_ops.del extra_arg d)
              customization_args extra_args in
      (log,
       ArgsDict (foldl normalize_customization_arg customization_args
                       ca_specs_to_validate_against),
       Ok ())
  end.

(** [_validate_customization_args_and_values].  The function returns
    [None] and changes the caller's dict in place: the result here is what
    it logs, the object it leaves in the caller's hands, also when it
    raises, and whether it raises. *)
Definition _validate_customization_args_and_values
    (item_name item_type : string)
    (customization_args : customization_args_object)
    (ca_specs_to_validate_against : list CustomizationArgSpec)
    : list log_record * customization_args_object * result unit :=
  match customization_args with
  | ArgsDict d =>
      validate_customization_args_dict item_name item_type d
        ca_specs_to_validate_against
  | ArgsValue (PDict d) =>
      validate_customization_args_dict item_name item_type
        (anydict_ops.of_pydict d) ca_specs_to_validate_against
  | ArgsValue v =>
      ([], customization_args,
       Raise (ValidationError
                "Expected customization args to be a dict, received %s"
                [ArgVal v]))
  end.

End validate_customization_args.

(** ** Value objects *)

(** [param_domain.ParamChange] and [param_domain.ParamSpec] are declared in
    another file; the constructors used here only store their arguments. *)
Record ParamChange := {
  pc_name : pyval;
  pc_generator_id : pyval;
  pc_customization_args : pyval;
}.

Record ParamSpec := { obj_type : string }.

(** A typed object of a rule parameter ([rp[1]]): its [normalize] class
    method either returns the normalised value or raises. *)
Record ParamObj := {
  param_obj_name : string;
  normalize : pyval → result pyval;
}.

Record RuleSpec := {
  rule_type : string;
  inputs : pyval;
}.

Record Outcome := {
  dest : string;
  feedback : list string;
  outcome_param_changes : list ParamChange;
}.

Record AnswerGroup := {
  rule_specs : list RuleSpec;
  outcome : Outcome;
  correct : bool;
}.

Record TriggerInstance := {
  trigger_type : pyval;
  trigger_customization_args : pyval;
}.

Record Fallback := {
  trigger : TriggerInstance;
  fallback_outcome : Outcome;
}.

Record Hint := { hint_text : string }.

Record InteractionInstance := {
  interaction_id : option string;
  interaction_customization_args : pyval;
  answer_groups : list AnswerGroup;
  default_outcome : option Outcome;
  confirmed_unclassified_answers : list pyval;
  fallbacks : list Fallback;
  hints : list Hint;
  solution : pyval;
}.

Record SubtitledHtml := {
  html : string;
  audio_translations : pyval;
}.

Record State := {
  content : SubtitledHtml;
  state_param_changes : list ParamChange;
  interaction : InteractionInstance;
  classifier_model_id : option string;
}.

Record GadgetInstance := {
  gadget_type : string;
  gadget_name : string;
  visible_in_states : list string;
  gadget_customization_args : pyval;
}.

Record SkinInstance := {
  skin_id : string;
  panel_contents_dict : gmap string (list GadgetInstance);
}.

Record Exploration := {
  exploration_id : string;
  title : string;
  category : string;
  objective : string;
  language_code : string;
  tags : list string;
  blurb : string;
  author_notes : string;
  states_schema_version : Z;
  init_state_name : string;
  skin_instance : SkinInstance;
  states : gmap string State;
  param_specs : gmap string ParamSpec;
  exploration_param_changes : list ParamChange;
  version : Z;
}.

(** What the code reads of an entry of the interaction registry. *)
Record BaseInteraction := {
  spec_is_terminal : bool;
  customization_arg_specs : list CustomizationArgSpec;
}.

(** Iterating over a value: a list gives its items, a string its
    characters, a dict its keys; anything else is not iterable. *)
Definition py_iter (v : pyval) : result (list pyval) :=
  match v with
  | PList l => Ok l
  | PStr s => Ok ((λ c, PStr (String c EmptyString)) <$> String.list_ascii_of_string s)
  | PDict d => Ok (PStr <$> pydict_ops.keys d)
  | _ => Raise (TypeError "object is not iterable")
  end.

(** ** ExplorationChange *)

Definition STATE_PROPERTY_PARAM_CHANGES : string := "param_changes".
Definition STATE_PROPERTY_CONTENT : string := "content".
Definition STATE_PROPERTY_INTERACTION_ID : string := "widget_id".
Definition STATE_PROPERTY_INTERACTION_CUST_ARGS : string :=
  "widget_customization_args".
Definition STATE_PROPERTY_INTERACTION_ANSWER_GROUPS : string := "answer_groups".
Definition STATE_PROPERTY_INTERACTION_DEFAULT_OUTCOME : string :=
  "default_outcome".
Definition STATE_PROPERTY_UNCLASSIFIED_ANSWERS : string :=
  "confirmed_unclassified_answers".
Definition STATE_PROPERTY_INTERACTION_FALLBACKS : string := "fallbacks".
Definition STATE_PROPERTY_INTERACTION_HINTS : string := "hints".
Definition STATE_PROPERTY_INTERACTION_SOLUTION : string := "solution".
Definition STATE_PROPERTY_INTERACTION_HANDLERS : string := "widget_handlers".
Definition STATE_PROPERTY_INTERACTION_STICKY : string := "widget_sticky".

Definition GADGET_PROPERTY_VISIBILITY : string := "gadget_visibility".
Definition GADGET_PROPERTY_CUST_ARGS : string := "gadget_customization_args".

Definition CMD_ADD_STATE : string := "add_state".
Definition CMD_RENAME_STATE : string := "rename_state".
Definition CMD_DELETE_STATE : string := "delete_state".
Definition CMD_EDIT_STATE_PROPERTY : string := "edit_state_property".
Definition CMD_ADD_GADGET : string := "add_gadget".
Definition CMD_RENAME_GADGET : string := "rename_gadget".
Definition CMD_DELETE_GADGET : string := "delete_gadget".
Definition CMD_EDIT_GADGET_PROPERTY : string := "edit_gadget_property".
Definition CMD_EDIT_EXPLORATION_PROPERTY : string := "edit_exploration_property".
Definition CMD_MIGRATE_STATES_SCHEMA_TO_LATEST_VERSION : string :=
  "migrate_states_schema_to_latest_version".

(** An [ExplorationChange] object: which attributes it has depends on its
    command. *)
Inductive ExplorationChange :=
| AddState (state_name : pyval)
| RenameState (old_state_name new_state_name : pyval)
| DeleteState (state_name : pyval)
| EditStateProperty (state_name property_name new_value old_value : pyval)
| EditExplorationProperty (property_name new_value old_value : pyval)
| AddGadget (gadget_dict gadget_name panel : pyval)
| RenameGadget (old_gadget_name new_gadget_name : pyval)
| DeleteGadget (gadget_name : pyval)
| EditGadgetProperty (gadget_name property_name new_value old_value : pyval)
| MigrateStatesSchemaToLatestVersion (from_version to_version : pyval).

Module ExplorationChange.

Definition STATE_PROPERTIES : list string :=
  [STATE_PROPERTY_PARAM_CHANGES;
   STATE_PROPERTY_CONTENT;
   STATE_PROPERTY_INTERACTION_ID;
   STATE_PROPERTY_INTERACTION_CUST_ARGS;
   STATE_PROPERTY_INTERACTION_STICKY;
   STATE_PROPERTY_INTERACTION_HANDLERS;
   STATE_PROPERTY_INTERACTION_ANSWER_GROUPS;
   STATE_PROPERTY_INTERACTION_DEFAULT_OUTCOME;
   STATE_PROPERTY_INTERACTION_FALLBACKS;
   STATE_PROPERTY_INTERACTION_HINTS;
   STATE_PROPERTY_INTERACTION_SOLUTION;
   STATE_PROPERTY_UNCLASSIFIED_ANSWERS].

Definition GADGET_PROPERTIES : list string :=
  [GADGET_PROPERTY_VISIBILITY; GADGET_PROPERTY_CUST_ARGS].

Definition EXPLORATION_PROPERTIES : list string :=
  ["title"; "category"; "objective"; "language_code"; "tags"; "blurb";
   "author_notes"; "param_specs"; "param_changes"; "init_state_name"].

(** [v in properties] for a tuple of strings. *)
Definition in_properties (v : pyval) (properties : list string) : bool :=
  match v with
  | PStr s => bool_decide (s ∈ properties)
  | _ => false
  end.

Definition invalid (template : string) (change_dict : pydict)
    : result ExplorationChange :=
  Raise (Exception_ template [ArgVal (PDict change_dict)]).

(** [change_dict.get('old_value')] *)
Definition get_old_value (change_dict : pydict) : pyval :=
  default PNone (pydict_ops.get "old_value" change_dict).

(** [ExplorationChange.__init__] on a dict. *)
Definition init (change_dict : pydict) : result ExplorationChange :=
  let item k := pydict_ops.getitem k change_dict in
  if negb (pydict_ops.contains "cmd" change_dict) then
    invalid "Invalid change_dict: %s" change_dict
  else
    cmd ← item "cmd";
    match cmd with
    | PStr cmd =>
        if decide (cmd = CMD_ADD_STATE) then
          state_name ← item "state_name";
          Ok (AddState state_name)
        else if decide (cmd = CMD_RENAME_STATE) then
          old_state_name ← item "old_state_name";
          new_state_name ← item "new_state_name";
          Ok (RenameState old_state_name new_state_name)
        else if decide (cmd = CMD_DELETE_STATE) then
          state_name ← item "state_name";
          Ok (DeleteState state_name)
        else if decide (cmd = CMD_EDIT_STATE_PROPERTY) then
          property_name ← item "property_name";
          if negb (in_properties property_name STATE_PROPERTIES) then
            invalid "Invalid change_dict: %s" change_dict
          else
            state_name ← item "state_name";
            property_name ← item "property_name";
            new_value ← item "new_value";
            Ok (EditStateProperty state_name property_name new_value
                  (get_old_value change_dict))
        else if decide (cmd = CMD_EDIT_EXPLORATION_PROPERTY) then
          property_name ← item "property_name";
          if negb (in_properties property_name EXPLORATION_PROPERTIES) then
            invalid "Invalid change_dict: %s" change_dict
          else
            property_name ← item "property_name";
            new_value ← item "new_value";
            Ok (EditExplorationProperty property_name new_value
                  (get_old_value change_dict))
        else if decide (cmd = CMD_ADD_GADGET) then
          gadget_dict ← item "gadget_dict";
          gadget_dict' ← item "gadget_dict";
          gadget_name ← py_getitem "gadget_name" gadget_dict';
          panel ← item "panel";
          Ok (AddGadget gadget_dict gadget_name panel)
        else if decide (cmd = CMD_RENAME_GADGET) then
          old_gadget_name ← item "old_gadget_name";
          new_gadget_name ← item "new_gadget_name";
          Ok (RenameGadget old_gadget_name new_gadget_name)
        else if decide (cmd = CMD_DELETE_GADGET) then
          gadget_name ← item "gadget_name";
          Ok (DeleteGadget gadget_name)
        else if decide (cmd = CMD_EDIT_GADGET_PROPERTY) then
          property_name ← item "property_name";
          if negb (in_properties property_name GADGET_PROPERTIES) then
            invalid "Invalid gadget change_dict: %s" change_dict
          else
            gadget_name ← item "gadget_name";
            property_name ← item "property_name";
            new_value ← item "new_value";
            Ok (EditGadgetProperty gadget_name property_name new_value
                  (get_old_value change_dict))
        else if decide (cmd = CMD_MIGRATE_STATES_SCHEMA_TO_LATEST_VERSION) then
          from_version ← item "from_version";
          to_version ← item "to_version";
          Ok (MigrateStatesSchemaToLatestVersion from_version to_version)
        else invalid "Invalid change_dict: %s" change_dict
    | _ => invalid "Invalid change_dict: %s" change_dict
    end.

End ExplorationChange.

(** ** RuleSpec *)

Module RuleSpec.

Definition from_dict (rulespec_dict : pyval) : result RuleSpec :=
  rt ← py_getitem "rule_type" rulespec_dict;
  ins ← py_getitem "inputs" rulespec_dict;
  match rt with
  | PStr rt => Ok {| rule_type := rt; inputs := ins |}
  | _ => Raise (TypeError "rule_type is typed as a string")
  end.

(** [{rp[0]: rp[1] for rp in rule_params_list}]: a later entry replaces an
    earlier one of the same name. *)
Definition rule_params_dict (rule_params_list : list (string * ParamObj))
    : gmap string ParamObj :=
  foldl (λ m rp, <[rp.1 := rp.2]> m) ∅ rule_params_list.

(** One round of the loop over [self.inputs.iteritems()]. *)
Definition validate_input
    (self_rule_type : string) (rule_params : gmap string ParamObj)
    (exp_param_specs_dict : gmap string ParamSpec)
    (param_name : string) (param_value : pyval) : result unit :=
  param_obj ← of_option (rule_params !! param_name) (KeyError param_name);
  let plain := _ ← normalize param_obj param_value; Ok () in
  match param_value with
  | PStr s =>
      if str_contains "{{" s then
        start ← str_index "{{" s;
        let start_brace_index := start + 2 in
        end_brace_index ← str_index "}}" s;
        let param_spec_name := str_slice start_brace_index end_brace_index s in
        if decide (exp_param_specs_dict !! param_spec_name = None) then
          Raise (ValidationError
            "RuleSpec '%s' has an input with name '%s' which refers to an unknown parameter within the exploration: %s"
            [ArgStr self_rule_type; ArgStr param_name; ArgStr param_spec_name])
        else Ok ()
      else plain
  | _ => plain
  end.

Fixpoint validate_inputs
    (self_rule_type : string) (rule_params : gmap string ParamObj)
    (exp_param_specs_dict : gmap string ParamSpec)
    (items : pydict) : result unit :=
  match items with
  | [] => Ok ()
  | (param_name, param_value) :: items' =>
      _ ← validate_input self_rule_type rule_params exp_param_specs_dict
            param_name param_value;
      validate_inputs self_rule_type rule_params exp_param_specs_dict items'
  end.

(** [RuleSpec.validate]: the warnings it logs and how it ends. *)
Definition validate (self : RuleSpec)
    (rule_params_list : list (string * ParamObj))
    (exp_param_specs_dict : gmap string ParamSpec)
    : list log_record * result unit :=
  match inputs self with
  | PDict self_inputs =>
      let input_key_set : gset string :=
        list_to_set (pydict_ops.keys self_inputs) in
      let param_names_set : gset string :=
        list_to_set (rule_params_list.*1) in
      let leftover_input_keys := input_key_set ∖ param_names_set in
      let leftover_param_names := param_names_set ∖ input_key_set in
      let log :=
        if decide (leftover_input_keys = ∅) then []
        else [Warning
                "RuleSpec '%s' has inputs which are not recognized parameter names: %s"
                [ArgStr (rule_type self); ArgSet leftover_input_keys]] in
      if decide (leftover_param_names = ∅) then
        (log, validate_inputs (rule_type self)
                (rule_params_dict rule_params_list)
                exp_param_specs_dict self_inputs)
      else
        (log, Raise (ValidationError "RuleSpec '%s' is missing inputs: %s"
                       [ArgStr (rule_type self); ArgSet leftover_param_names]))
  | _ =>
      ([], Raise (ValidationError "Expected inputs to be a dict, received %s"
                    [ArgVal (inputs self)]))
  end.

End RuleSpec.

(** ** Methods that mutate [self]

    [stateful S A] is a computation on an object of type [S]: it returns the
    object as it is left and either a value or the exception raised.  What
    was assigned before a raise stays assigned. *)

Definition stateful (S A : Type) : Type := S → S * result A.

#[global] Instance stateful_ret {S} : MRet (stateful S) := λ A a s, (s, Ok a).
#[global] Instance stateful_bind {S} : MBind (stateful S) := λ A B f m s,
  match m s with
  | (s', Ok a) => f a s'
  | (s', Raise e) => (s', Raise e)
  end.

Definition get_self {S} : stateful S S := λ s, (s, Ok s).
Definition assign {S} (f : S → S) : stateful S unit := λ s, (f s, Ok ()).
Definition raise {S A} (e : exn) : stateful S A := λ s, (s, Raise e).
Definition lift {S A} (r : result A) : stateful S A := λ s, (s, r).

(** ** Outcome, TriggerInstance, Fallback, Hint *)

Definition param_change_from_fields (param_change : pyval) : result ParamChange :=
  n ← py_getitem "name" param_change;
  g ← py_getitem "generator_id" param_change;
  c ← py_getitem "customization_args" param_change;
  Ok {| pc_name := n; pc_generator_id := g; pc_customization_args := c |}.

Module Outcome.
Section with_cleaner.

(** [html_cleaner.clean], a function on strings. *)
Variable clean : string → string.

Definition clean_item (item : pyval) : result string :=
  match item with
  | PStr s => Ok (clean s)
  | _ => Raise (TypeError "html_cleaner.clean expects a string")
  end.

(** [Outcome.__init__] *)
Definition init (dest : string) (feedback : pyval)
    (param_changes : list ParamChange) : result Outcome :=
  let feedback := if py_truthy feedback then feedback else PList [] in
  items ← py_iter feedback;
  feedback ← mapM_result clean_item items;
  Ok {| dest := dest; feedback := feedback;
        outcome_param_changes := param_changes |}.

(** [Outcome.from_dict], for a dict whose ['dest'] is a string.  The field
    [dest] is typed here, so an outcome with another kind of [dest], which
    the source builds and leaves to [validate] to complain about, has no
    counterpart: on such a dict the last branch below is not what the
    source does, and whatever is proved of this function is stated for
    the dicts that it reads or that lack a key. *)
Definition from_dict (outcome_dict : pyval) : result Outcome :=
  d ← py_getitem "dest" outcome_dict;
  fb ← py_getitem "feedback" outcome_dict;
  pcs ← py_getitem "param_changes" outcome_dict;
  pcs ← py_iter pcs;
  pcs ← mapM_result param_change_from_fields pcs;
  match d with
  | PStr d => init d fb pcs
  | _ => Raise (TypeError "dest is typed as a string")
  end.

End with_cleaner.

Definition with_dest (o : Outcome) (d : string) : Outcome :=
  {| dest := d; feedback := feedback o;
     outcome_param_changes := outcome_param_changes o |}.

Section validation.

(** [param_domain.ParamChange.validate] *)
Variable param_change_validate : ParamChange → result unit.

(** [Outcome.validate].  The [isinstance] checks on [dest], [feedback] and
    [param_changes] hold by the types of the fields. *)
Definition validate (self : Outcome) : result unit :=
  if decide (dest self = "") then
    Raise (ValidationError "Every outcome should have a destination." [])
  else forM_ param_change_validate (outcome_param_changes self).

End validation.

End Outcome.

Module TriggerInstance.

Definition from_dict (trigger_dict : pyval) : result TriggerInstance :=
  t ← py_getitem "trigger_type" trigger_dict;
  c ← py_getitem "customization_args" trigger_dict;
  Ok {| trigger_type := t; trigger_customization_args := c |}.

End TriggerInstance.

Module Fallback.
Section with_cleaner.

Variable clean : string → string.

Definition from_dict (fallback_dict : pyval) : result Fallback :=
  t ← py_getitem "trigger" fallback_dict;
  t ← TriggerInstance.from_dict t;
  o ← py_getitem "outcome" fallback_dict;
  o ← Outcome.from_dict clean o;
  Ok {| trigger := t; fallback_outcome := o |}.

End with_cleaner.
End Fallback.

Module Hint.
Section with_cleaner.

Variable clean : string → string.

(** [Hint.__init__] *)
Definition init (hint_text : string) : Hint :=
  {| hint_text := clean hint_text |}.

Definition to_dict (self : Hint) : pyval :=
  PDict [("hint_text", PStr (hint_text self))].

Definition from_dict (hint_dict : pyval) : result Hint :=
  t ← py_getitem "hint_text" hint_dict;
  match t with
  | PStr t => Ok (init t)
  | _ => Raise (TypeError "html_cleaner.clean expects a string")
  end.

End with_cleaner.
End Hint.

(** ** AnswerGroup *)

Definition RULE_TYPE_CLASSIFIER : string := "FuzzyMatches".

Module AnswerGroup.

(** The loop of [get_classifier_rule_index] over
    [enumerate(self.rule_specs)], from the index [rule_spec_index] on. *)
Fixpoint classifier_rule_index_from (rule_spec_index : nat)
    (rule_specs : list RuleSpec) : option nat :=
  match rule_specs with
  | [] => None
  | rule_spec :: rule_specs' =>
      if decide (rule_type rule_spec = RULE_TYPE_CLASSIFIER)
      then Some rule_spec_index
      else classifier_rule_index_from (S rule_spec_index) rule_specs'
  end.

Definition get_classifier_rule_index (self : AnswerGroup) : option nat :=
  classifier_rule_index_from 0 (rule_specs self).

Section validation.

(** What [validate] reads of the interaction: the keys of
    [interaction.rules_dict] and [interaction.get_rule_param_list]. *)
Variable rules_dict : gset string.
Variable get_rule_param_list : string → list (string * ParamObj).
Variable param_change_validate : ParamChange → result unit.
Variable exp_param_specs_dict : gmap string ParamSpec.

(** The loop over [self.rule_specs], with the flag it carries along; the
    warnings of [RuleSpec.validate] are collected in order. *)
Fixpoint validate_rule_specs (seen_classifier_rule : bool)
    (rule_specs : list RuleSpec) : list log_record * result unit :=
  match rule_specs with
  | [] => ([], Ok ())
  | rule_spec :: rule_specs' =>
      if decide (rule_type rule_spec ∉ rules_dict) then
        ([], Raise (ValidationError "Unrecognized rule type: %s"
                      [ArgStr (rule_type rule_spec)]))
      else if bool_decide (rule_type rule_spec = RULE_TYPE_CLASSIFIER)
              && seen_classifier_rule then
        ([], Raise (ValidationError
                      "AnswerGroups can only have one classifier rule." []))
      else
        let seen_classifier_rule :=
          bool_decide (rule_type rule_spec = RULE_TYPE_CLASSIFIER)
          || seen_classifier_rule in
        let '(log, r) :=
          RuleSpec.validate rule_spec
            (get_rule_param_list (rule_type rule_spec)) exp_param_specs_dict in
        match r with
        | Raise e => (log, Raise e)
        | Ok _ =>
            let '(log', r') :=
              validate_rule_specs seen_classifier_rule rule_specs' in
            (log ++ log', r')
        end
  end.

(** [AnswerGroup.validate].  [rule_specs] is a list and [correct] a bool
    by the types of the fields. *)
Definition validate (self : AnswerGroup) : list log_record * result unit :=
  if decide (length (rule_specs self) < 1) then
    ([], Raise (ValidationError
                  "There must be at least one rule for each answer group." []))
  else
    let '(log, r) := validate_rule_specs false (rule_specs self) in
    match r with
    | Raise e => (log, Raise e)
    | Ok _ => (log, Outcome.validate param_change_validate (outcome self))
    end.

End validation.
End AnswerGroup.

(** ** InteractionInstance *)

Module InteractionInstance.

Definition get_all_non_fallback_outcomes (self : InteractionInstance)
    : list Outcome :=
  let outcomes := outcome <$> answer_groups self in
  match default_outcome self with
  | Some o => outcomes ++ [o]
  | None => outcomes
  end.

Definition get_all_outcomes (self : InteractionInstance) : list Outcome :=
  get_all_non_fallback_outcomes self
    ++ (fallback_outcome <$> fallbacks self).

(** The effect of [for outcome in self.get_all_outcomes(): outcome.dest = ...]:
    the outcome objects sit in the answer groups, in the default outcome
    and in the fallbacks, and each of them is updated where it sits. *)
Definition update_all_outcomes (f : Outcome → Outcome)
    (self : InteractionInstance) : InteractionInstance :=
  {| interaction_id := interaction_id self;
     interaction_customization_args := interaction_customization_args self;
     answer_groups :=
       (λ g, {| rule_specs := rule_specs g; outcome := f (outcome g);
                correct := correct g |}) <$> answer_groups self;
     default_outcome := f <$> default_outcome self;
     confirmed_unclassified_answers := confirmed_unclassified_answers self;
     fallbacks :=
       (λ fb, {| trigger := trigger fb;
                 fallback_outcome := f (fallback_outcome fb) |})
       <$> fallbacks self;
     hints := hints self;
     solution := solution self |}.

Definition with_fallbacks (self : InteractionInstance) (fbs : list Fallback)
    : InteractionInstance :=
  {| interaction_id := interaction_id self;
     interaction_customization_args := interaction_customization_args self;
     answer_groups := answer_groups self;
     default_outcome := default_outcome self;
     confirmed_unclassified_answers := confirmed_unclassified_answers self;
     fallbacks := fbs;
     hints := hints self;
     solution := solution self |}.

Definition with_hints (self : InteractionInstance) (hs : list Hint)
    : InteractionInstance :=
  {| interaction_id := interaction_id self;
     interaction_customization_args := interaction_customization_args self;
     answer_groups := answer_groups self;
     default_outcome := default_outcome self;
     confirmed_unclassified_answers := confirmed_unclassified_answers self;
     fallbacks := fallbacks self;
     hints := hs;
     solution := solution self |}.

Definition with_default_outcome (self : InteractionInstance)
    (o : option Outcome) : InteractionInstance :=
  {| interaction_id := interaction_id self;
     interaction_customization_args := interaction_customization_args self;
     answer_groups := answer_groups self;
     default_outcome := o;
     confirmed_unclassified_answers := confirmed_unclassified_answers self;
     fallbacks := fallbacks self;
     hints := hints self;
     solution := solution self |}.

Section with_registry.

(** [interaction_registry.Registry.get_interaction_by_id]: [None] stands
    for the [KeyError] of an unknown id. *)
Variable get_interaction_by_id : string → option BaseInteraction.

(** The property [is_terminal]:
    [self.id and Registry.get_interaction_by_id(self.id).is_terminal],
    read as a truth value. *)
Definition is_terminal (self : InteractionInstance) : result bool :=
  match interaction_id self with
  | None => Ok false
  | Some id =>
      if decide (id = "") then Ok false
      else spec ← of_option (get_interaction_by_id id) (KeyError id);
           Ok (spec_is_terminal spec)
  end.

End with_registry.

(** [create_default_interaction]: no interaction id, no answer groups, and
    the default outcome [Outcome(default_dest_state_name, [], {})], whose
    constructor cleans no feedback item and stores [{} or []] as the
    parameter changes. *)
Definition create_default_interaction (default_dest_state_name : string)
    : InteractionInstance :=
  {| interaction_id := None;
     interaction_customization_args := PDict [];
     answer_groups := [];
     default_outcome :=
       Some {| dest := default_dest_state_name; feedback := [];
               outcome_param_changes := [] |};
     confirmed_unclassified_answers := [];
     fallbacks := [];
     hints := [];
     solution := PDict [] |}.

End InteractionInstance.

(** ** State *)

(** The [IndexError] of [State.delete_hint]. *)
Inductive index_error := IndexError (message : string).

Module State.

Definition with_interaction (self : State) (i : InteractionInstance) : State :=
  {| content := content self;
     state_param_changes := state_param_changes self;
     interaction := i;
     classifier_model_id := classifier_model_id self |}.

Section with_cleaner.

Variable clean : string → string.

Definition update_interaction_hints (hints_list : pyval) : stateful State unit :=
  match hints_list with
  | PList l =>
      hs ← lift (mapM_result (Hint.from_dict clean) l);
      assign (λ self, with_interaction self
                        (InteractionInstance.with_hints (interaction self) hs))
  | _ =>
      raise (Exception_ "Expected hints_list to be a list, received %s"
               [ArgVal hints_list])
  end.

(** The local [hint_list] after the [if]: bound only when the new list of
    fallbacks is not empty. *)
Definition hint_list_of (new_fallbacks : list Fallback) : option (list pyval) :=
  match new_fallbacks with
  | [] => None
  | _ =>
      Some (foldl (λ hint_list fb,
                     match feedback (fallback_outcome fb) with
                     | [] => hint_list
                     | first :: _ =>
                         hint_list ++ [Hint.to_dict (Hint.init clean first)]
                     end)
                  [] new_fallbacks)
  end.

Definition update_interaction_fallbacks (fallbacks_list : pyval)
    : stateful State unit :=
  match fallbacks_list with
  | PList l =>
      fbs ← lift (mapM_result (Fallback.from_dict clean) l);
      _ ← assign (λ self, with_interaction self
                   (InteractionInstance.with_fallbacks (interaction self) fbs));
      self ← get_self;
      match hint_list_of (fallbacks (interaction self)) with
      | Some hint_list => update_interaction_hints (PList hint_list)
      | None => raise (UnboundLocalError "hint_list")
      end
  | _ =>
      raise (Exception_ "Expected fallbacks_list to be a list, received %s"
               [ArgVal fallbacks_list])
  end.

(** [update_interaction_default_outcome]: the outcome is built and stored,
    and then its feedback, which the constructor has cleaned, is cleaned
    once more. *)
Definition update_interaction_default_outcome (default_outcome_dict : pyval)
    : stateful State unit :=
  if py_truthy default_outcome_dict then
    match default_outcome_dict with
    | PDict _ =>
        o ← lift (Outcome.from_dict clean default_outcome_dict);
        _ ← assign (λ self,
               with_interaction self
                 (InteractionInstance.with_default_outcome (interaction self)
                    (Some o)));
        assign (λ self,
          with_interaction self
            (InteractionInstance.with_default_outcome (interaction self)
               (Some {| dest := dest o;
                        feedback := clean <$> feedback o;
                        outcome_param_changes := outcome_param_changes o |})))
    | _ =>
        raise (Exception_
                 "Expected default_outcome_dict to be a dict, received %s"
                 [ArgVal default_outcome_dict])
    end
  else
    assign (λ self,
      with_interaction self
        (InteractionInstance.with_default_outcome (interaction self) None)).

(** [add_hint]: [self.interaction.hints.append(Hint(hint_text))] *)
Definition add_hint (hint_text : string) : stateful State unit :=
  assign (λ self,
    with_interaction self
      (InteractionInstance.with_hints (interaction self)
         (hints (interaction self) ++ [Hint.init clean hint_text]))).

(** [delete_hint].  The index is a Python int; [IndexError] is raised by
    this method only and has a type of its own here. *)
Definition delete_hint (index : Z) (self : State) : State * (index_error + unit) :=
  if decide ((index < 0)%Z
             ∨ (Z.of_nat (length (hints (interaction self))) ≤ index)%Z) then
    (self, inl (IndexError "Hint index out of range"))
  else
    (with_interaction self
       (InteractionInstance.with_hints (interaction self)
          (delete (Z.to_nat index) (hints (interaction self)))),
     inr ()).

(** [feconf.DEFAULT_INIT_STATE_CONTENT_STR] *)
Variable DEFAULT_INIT_STATE_CONTENT_STR : string.

(** [create_default_state].  [SubtitledHtml(content_html, {})] cleans the
    HTML; its [validate] has nothing to object to in a string and an empty
    dict.  [State.__init__] copies the fields of the interaction. *)
Definition create_default_state (default_dest_state_name : string)
    (is_initial_state : bool) : State :=
  let content_html :=
    if is_initial_state then DEFAULT_INIT_STATE_CONTENT_STR else "" in
  {| content := {| html := clean content_html; audio_translations := PDict [] |};
     state_param_changes := [];
     interaction :=
       InteractionInstance.create_default_interaction default_dest_state_name;
     classifier_model_id := None |}.

End with_cleaner.
End State.

(** ** GadgetInstance *)

Module GadgetInstance.

Definition _MAX_GADGET_NAME_LENGTH : nat := 20.

(** The elements of a list of state names. *)
Definition state_name_of (v : pyval) : result string :=
  match v with
  | PStr s => Ok s
  | _ => Raise (TypeError "a state name is typed as a string")
  end.

(** [GadgetInstance.from_dict], also the constructor call of
    [Exploration.add_gadget].  The type, the name and the visible states
    are typed here: a dict with other kinds of values is rejected, where
    the source would store them and leave the complaint to [validate]. *)
Definition from_dict (gadget_dict : pyval) : result GadgetInstance :=
  t ← py_getitem "gadget_type" gadget_dict;
  n ← py_getitem "gadget_name" gadget_dict;
  v ← py_getitem "visible_in_states" gadget_dict;
  c ← py_getitem "customization_args" gadget_dict;
  match t, n, v with
  | PStr t, PStr n, PList v =>
      v ← mapM_result state_name_of v;
      Ok {| gadget_type := t; gadget_name := n; visible_in_states := v;
            gadget_customization_args := c |}
  | _, _, _ => Raise (TypeError "the fields of a gadget are typed")
  end.

(** [gadget_instance.name = name] *)
Definition with_name (g : GadgetInstance) (name : string) : GadgetInstance :=
  {| gadget_type := gadget_type g; gadget_name := name;
     visible_in_states := visible_in_states g;
     gadget_customization_args := gadget_customization_args g |}.

Section validation.

(** [re.search(feconf.ALPHANUMERIC_SPACE_REGEX, gadget_name)], as a truth
    value. *)
Variable matches_alphanumeric_space : string → bool.

(** [_validate_gadget_name]; the name is a string by its type. *)
Definition _validate_gadget_name (gadget_name : string) : result unit :=
  if decide (gadget_name = "") then
    Raise (ValidationError "Gadget name must not be an empty string." [])
  else if decide (_MAX_GADGET_NAME_LENGTH < String.length gadget_name) then
    Raise (ValidationError "%s gadget name exceeds maximum length of %d"
             [ArgStr gadget_name; ArgInt (Z.of_nat _MAX_GADGET_NAME_LENGTH)])
  else if negb (matches_alphanumeric_space gadget_name) then
    Raise (ValidationError
             "Gadget names must be alphanumeric. Spaces are allowed. Received: %s"
             [ArgStr gadget_name])
  else Ok ().

End validation.
End GadgetInstance.

(** ** SkinInstance *)

(** An entry of [feconf.PANELS_PROPERTIES]. *)
Record PanelSpec := {
  panel_width : Z;
  panel_height : Z;
  stackable_axis : string;
  pixels_between_gadgets : Z;
  max_gadgets : Z;
}.

(** What the code reads of an entry of the gadget registry. *)
Record GadgetSpec := {
  width_px : Z;
  height_px : Z;
}.

(** [sum] and [max] of a list of ints. *)
Definition py_sum (l : list Z) : Z := foldr Z.add 0%Z l.

Definition py_max (l : list Z) : result Z :=
  match l with
  | [] => Raise (ValueError "max() arg is an empty sequence" [])
  | x :: l' => Ok (foldl Z.max x l')
  end.

Module SkinInstance.
Section validation.

Variable PANELS_PROPERTIES : gmap string PanelSpec.
Variable GADGET_PANEL_AXIS_HORIZONTAL : string.

(** [gadget_registry.Registry.get_gadget_by_type]: [None] stands for the
    [KeyError] of an unknown type. *)
Variable get_gadget_by_type : string → option GadgetSpec.

Variable dict_items : ∀ V, gmap string V → list (string * V).
Variable list_of_set : gset string → list string.

(** The properties [width] and [height] of a gadget instance. *)
Definition width (gadget_instance : GadgetInstance) : result Z :=
  gadget ← of_option (get_gadget_by_type (gadget_type gadget_instance))
             (KeyError (gadget_type gadget_instance));
  Ok (width_px gadget).

Definition height (gadget_instance : GadgetInstance) : result Z :=
  gadget ← of_option (get_gadget_by_type (gadget_type gadget_instance))
             (KeyError (gadget_type gadget_instance));
  Ok (height_px gadget).

(** [gadget_visibility_map[state_name].append(gadget_instance)] on a
    [defaultdict(list)]. *)
Definition append_visible (gadget_instance : GadgetInstance)
    (gadget_visibility_map : gmap string (list GadgetInstance))
    (state_name : string) : gmap string (list GadgetInstance) :=
  <[state_name :=
      default [] (gadget_visibility_map !! state_name) ++ [gadget_instance]]>
    gadget_visibility_map.

(** The map from each state to the gadgets visible in it. *)
Definition gadget_visibility_map (gadget_list : list GadgetInstance)
    : gmap string (list GadgetInstance) :=
  foldl (λ gadget_visibility_map gadget_instance,
           foldl (append_visible gadget_instance) gadget_visibility_map
                 (list_of_set (list_to_set (visible_in_states gadget_instance))))
        ∅ gadget_list.

(** The body of the loop over [gadget_visibility_map.iteritems()]. *)
Definition validate_fit (panel_name : string) (panel_spec : PanelSpec)
    (item : string * list GadgetInstance) : result unit :=
  let '(state_name, gadget_instances) := item in
  if decide (max_gadgets panel_spec < Z.of_nat (length gadget_instances))%Z then
    Raise (ValidationError
             "'%s' panel expected at most %d gadget%s, but %d gadgets are visible in state '%s'."
             [ArgStr panel_name; ArgInt (max_gadgets panel_spec);
              ArgStr (if decide (max_gadgets panel_spec ≠ 1%Z) then "s" else "");
              ArgInt (Z.of_nat (length gadget_instances)); ArgStr state_name])
  else if decide (stackable_axis panel_spec = GADGET_PANEL_AXIS_HORIZONTAL) then
    let total_width :=
      (pixels_between_gadgets panel_spec
       * (Z.of_nat (length gadget_instances) - 1))%Z in
    widths ← mapM_result width gadget_instances;
    let total_width := (total_width + py_sum widths)%Z in
    heights ← mapM_result height gadget_instances;
    total_height ← py_max heights;
    if decide (panel_height panel_spec < total_height)%Z then
      Raise (ValidationError "Height %d of panel '%s' exceeds limit of %d"
               [ArgInt total_height; ArgStr panel_name;
                ArgInt (panel_height panel_spec)])
    else if decide (panel_width panel_spec < total_width)%Z then
      Raise (ValidationError "Width %d of panel '%s' exceeds limit of %d"
               [ArgInt total_width; ArgStr panel_name;
                ArgInt (panel_width panel_spec)])
    else Ok ()
  else Raise (ValidationError "Unrecognized axis for '%s' panel. " []).

Definition validate_gadget_panel (panel_name : string)
    (gadget_list : list GadgetInstance) : result unit :=
  match gadget_list with
  | [] => Ok ()
  | _ =>
      panel_spec ← of_option (PANELS_PROPERTIES !! panel_name)
                     (KeyError panel_name);
      forM_ (validate_fit panel_name panel_spec)
            (dict_items _ (gadget_visibility_map gadget_list))
  end.

End validation.
End SkinInstance.

(** ** Exploration *)

Module Exploration.

Definition with_states (self : Exploration) (s : gmap string State)
    : Exploration :=
  {| exploration_id := exploration_id self; title := title self;
     category := category self; objective := objective self;
     language_code := language_code self; tags := tags self;
     blurb := blurb self; author_notes := author_notes self;
     states_schema_version := states_schema_version self;
     init_state_name := init_state_name self;
     skin_instance := skin_instance self;
     states := s;
     param_specs := param_specs self;
     exploration_param_changes := exploration_param_changes self;
     version := version self |}.

Definition with_init_state_name (self : Exploration) (n : string)
    : Exploration :=
  {| exploration_id := exploration_id self; title := title self;
     category := category self; objective := objective self;
     language_code := language_code self; tags := tags self;
     blurb := blurb self; author_notes := author_notes self;
     states_schema_version := states_schema_version self;
     init_state_name := n;
     skin_instance := skin_instance self;
     states := states self;
     param_specs := param_specs self;
     exploration_param_changes := exploration_param_changes self;
     version := version self |}.

Definition with_panel_contents (self : Exploration)
    (p : gmap string (list GadgetInstance)) : Exploration :=
  {| exploration_id := exploration_id self; title := title self;
     category := category self; objective := objective self;
     language_code := language_code self; tags := tags self;
     blurb := blurb self; author_notes := author_notes self;
     states_schema_version := states_schema_version self;
     init_state_name := init_state_name self;
     skin_instance :=
       {| skin_id := skin_id (skin_instance self);
          panel_contents_dict := p |};
     states := states self;
     param_specs := param_specs self;
     exploration_param_changes := exploration_param_changes self;
     version := version self |}.

Definition update_init_state_name (init_state_name : string)
    : stateful Exploration unit :=
  self ← get_self;
  if decide (states self !! init_state_name = None) then
    raise (Exception_
      "Invalid new initial state name: %s; it is not in the list of states %s for this exploration."
      [ArgStr init_state_name; ArgSet (dom (states self))])
  else assign (λ self, with_init_state_name self init_state_name).

(** [if outcome.dest == from: outcome.dest = to] *)
Definition redirect (from to : string) (o : Outcome) : Outcome :=
  if decide (dest o = from) then Outcome.with_dest o to else o.

Definition redirect_state (from to : string) (st : State) : State :=
  State.with_interaction st
    (InteractionInstance.update_all_outcomes (redirect from to)
       (interaction st)).

Section state_operations.

(** [utils.require_valid_name(name, name_type)] *)
Variable require_valid_name : string → string → result unit.

Definition _require_valid_state_name (name : string) : result unit :=
  require_valid_name name "a state name".

(** [rename_state].  The outcomes of a state are its own objects (the
    constructors and [copy.deepcopy] see to it), so the loop over
    [self.states] rewrites each state independently. *)
Definition rename_state (old_state_name new_state_name : string)
    : stateful Exploration unit :=
  self ← get_self;
  match states self !! old_state_name with
  | None =>
      raise (ValueError "State %s does not exist" [ArgStr old_state_name])
  | Some old_state =>
      if decide (old_state_name ≠ new_state_name
                 ∧ is_Some (states self !! new_state_name)) then
        raise (ValueError "Duplicate state name: %s" [ArgStr new_state_name])
      else if decide (old_state_name = new_state_name) then mret ()
      else
        _ ← lift (_require_valid_state_name new_state_name);
        _ ← assign (λ self,
               with_states self (<[new_state_name := old_state]> (states self)));
        _ ← assign (λ self,
               with_states self (delete old_state_name (states self)));
        self ← get_self;
        _ ← (if decide (init_state_name self = old_state_name)
             then update_init_state_name new_state_name else mret ());
        assign (λ self,
          with_states self
            (redirect_state old_state_name new_state_name <$> states self))
  end.

(** [delete_state].  As in [rename_state], each state is rewritten on its
    own: an outcome object belongs to one state. *)
Definition delete_state (state_name : string) : stateful Exploration unit :=
  self ← get_self;
  if decide (states self !! state_name = None) then
    raise (ValueError "State %s does not exist" [ArgStr state_name])
  else if decide (init_state_name self = state_name) then
    raise (ValueError "Cannot delete initial state of an exploration." [])
  else
    _ ← assign (λ self,
           with_states self
             (map_imap (λ other_state_name other_state,
                          Some (redirect_state state_name other_state_name
                                  other_state))
                       (states self)));
    assign (λ self, with_states self (delete state_name (states self))).

End state_operations.

Section adding_states.

Variable clean : string → string.
Variable DEFAULT_INIT_STATE_CONTENT_STR : string.

(** [add_states]: the first loop looks for a name that is taken and raises
    at the first one; only then does the second loop add the states, a
    later occurrence of a name replacing an earlier one. *)
Definition add_states (state_names : list string) : stateful Exploration unit :=
  self ← get_self;
  match list_find (λ state_name, is_Some (states self !! state_name))
          state_names with
  | Some (_, state_name) =>
      raise (ValueError "Duplicate state name %s" [ArgStr state_name])
  | None =>
      assign (λ self,
        with_states self
          (foldl (λ states state_name,
                    <[state_name :=
                        State.create_default_state clean
                          DEFAULT_INIT_STATE_CONTENT_STR state_name false]> states)
                 (states self) state_names))
  end.

End adding_states.

(** *** Gadget visibility helpers *)

(** [l.remove(x)] for an [x] that occurs in [l]. *)
Fixpoint list_remove_first (x : string) (l : list string) : list string :=
  match l with
  | [] => []
  | y :: l' => if decide (y = x) then l' else y :: list_remove_first x l'
  end.

(** The order of [str] values. *)
Definition str_le (a b : string) : Prop := String.leb a b = true.

#[global] Instance str_le_dec a b : Decision (str_le a b).
Proof. unfold str_le. apply _. Defined.

(** [l.sort()] on a list of strings. *)
Definition py_sort (l : list string) : list string := merge_sort str_le l.

Definition with_visible_in_states (g : GadgetInstance) (v : list string)
    : GadgetInstance :=
  {| gadget_type := gadget_type g; gadget_name := gadget_name g;
     visible_in_states := v;
     gadget_customization_args := gadget_customization_args g |}.

Section gadget_visibilities.

(** [d.iteritems()]: the pairs of a dict in the interpreter's order. *)
Variable dict_items : ∀ V, gmap string V → list (string * V).

Definition _get_gadget_instances_visible_in_state
    (self : Exploration) (state_name : string) : list GadgetInstance :=
  filter (λ gadget_instance, state_name ∈ visible_in_states gadget_instance)
    (concat ((dict_items _ (panel_contents_dict (skin_instance self))).*2)).

Definition rename_visibility (old_state_name new_state_name : string)
    (gadget_instance : GadgetInstance) : GadgetInstance :=
  if decide (old_state_name ∈ visible_in_states gadget_instance) then
    with_visible_in_states gadget_instance
      (py_sort (list_remove_first old_state_name
                  (visible_in_states gadget_instance)
                ++ [new_state_name]))
  else gadget_instance.

(** Every affected gadget is updated where it sits in its panel. *)
Definition _update_gadget_visibilities_for_renamed_state
    (old_state_name new_state_name : string) : stateful Exploration unit :=
  assign (λ self,
    with_panel_contents self
      ((λ gadget_instances : list GadgetInstance,
          rename_visibility old_state_name new_state_name <$> gadget_instances)
       <$> panel_contents_dict (skin_instance self))).

(** The affected gadgets of one panel, in order; the walk stops at the
    gadget that is left without a visible state, after it was updated. *)
Fixpoint delete_visibility (state_name : string) (gs : list GadgetInstance)
    : list GadgetInstance * result unit :=
  match gs with
  | [] => ([], Ok ())
  | g :: gs' =>
      if decide (state_name ∈ visible_in_states g) then
        let g' := with_visible_in_states g
                    (list_remove_first state_name (visible_in_states g)) in
        if decide (length (visible_in_states g') = 0) then
          (g' :: gs',
           Raise (ValidationError
             "Deleting '%s' state leaves '%s' gadget with no visible states. This is not currently supported and should be handled with editor guidance on the front-end."
             [ArgStr state_name; ArgStr (gadget_name g')]))
        else
          let '(gs'', r) := delete_visibility state_name gs' in (g' :: gs'', r)
      else
        let '(gs'', r) := delete_visibility state_name gs' in (g :: gs'', r)
  end.

Fixpoint delete_visibility_panels (state_name : string)
    (panels : list (string * list GadgetInstance))
    (contents : gmap string (list GadgetInstance))
    : gmap string (list GadgetInstance) * result unit :=
  match panels with
  | [] => (contents, Ok ())
  | (panel, gs) :: panels' =>
      let '(gs', r) := delete_visibility state_name gs in
      let contents := <[panel := gs']> contents in
      match r with
      | Ok _ => delete_visibility_panels state_name panels' contents
      | Raise e => (contents, Raise e)
      end
  end.

Definition _update_gadget_visibilities_for_deleted_state
    (state_name : string) : stateful Exploration unit :=
  λ self,
    let contents := panel_contents_dict (skin_instance self) in
    let '(contents', r) :=
      delete_visibility_panels state_name (dict_items _ contents) contents in
    (with_panel_contents self contents', r).

End gadget_visibilities.

(** *** Gadgets *)

Section gadget_operations.

Variable dict_items : ∀ V, gmap string V → list (string * V).
Variable matches_alphanumeric_space : string → bool.

(** The gadgets met by the two nested loops over
    [self.skin_instance.panel_contents_dict.itervalues()]. *)
Definition all_gadget_instances (self : Exploration) : list GadgetInstance :=
  concat ((dict_items _ (panel_contents_dict (skin_instance self))).*2).

(** [get_all_gadget_names]: [sorted] of the set of names; the names of a
    set are distinct, so the sorted list does not depend on the order in
    which the set is walked. *)
Definition get_all_gadget_names (self : Exploration) : list string :=
  py_sort (elements (list_to_set (gadget_name <$> all_gadget_instances self)
                     : gset string)).

Definition get_gadget_instance_by_name (self : Exploration)
    (gadget_name_ : string) : result GadgetInstance :=
  match list_find (λ g, gadget_name g = gadget_name_)
          (all_gadget_instances self) with
  | Some (_, gadget_instance) => Ok gadget_instance
  | None => Raise (ValueError "Gadget %s does not exist." [ArgStr gadget_name_])
  end.

Definition _get_panel_for_gadget (self : Exploration) (gadget_name_ : string)
    : result string :=
  match list_find (λ item : string * list GadgetInstance,
                     Exists (λ g, gadget_name g = gadget_name_) item.2)
          (dict_items _ (panel_contents_dict (skin_instance self))) with
  | Some (_, (panel, _)) => Ok panel
  | None => Raise (ValueError "Gadget %s does not exist." [ArgStr gadget_name_])
  end.

(** [add_gadget]: the gadget is built first, then [panel_contents_dict[panel]]
    is looked up and appended to. *)
Definition add_gadget (gadget_dict : pyval) (panel : string)
    : stateful Exploration unit :=
  gadget_instance ← lift (GadgetInstance.from_dict gadget_dict);
  self ← get_self;
  match panel_contents_dict (skin_instance self) !! panel with
  | None => raise (KeyError panel)
  | Some gadget_instances =>
      assign (λ self,
        with_panel_contents self
          (<[panel := gadget_instances ++ [gadget_instance]]>
             (panel_contents_dict (skin_instance self))))
  end.

(** The gadget that [get_gadget_instance_by_name] returns is renamed where
    it sits: it is the first one of that name in the first panel, in the
    order of the dict, that holds one. *)
Fixpoint rename_first_gadget (old_gadget_name new_gadget_name : string)
    (gadget_instances : list GadgetInstance) : option (list GadgetInstance) :=
  match gadget_instances with
  | [] => None
  | g :: gadget_instances' =>
      if decide (gadget_name g = old_gadget_name) then
        Some (GadgetInstance.with_name g new_gadget_name :: gadget_instances')
      else
        (g ::.) <$> rename_first_gadget old_gadget_name new_gadget_name
                      gadget_instances'
  end.

Fixpoint rename_gadget_in_panels (old_gadget_name new_gadget_name : string)
    (panels : list (string * list GadgetInstance))
    (contents : gmap string (list GadgetInstance))
    : option (gmap string (list GadgetInstance)) :=
  match panels with
  | [] => None
  | (panel, gadget_instances) :: panels' =>
      match rename_first_gadget old_gadget_name new_gadget_name
              gadget_instances with
      | Some gadget_instances' => Some (<[panel := gadget_instances']> contents)
      | None =>
          rename_gadget_in_panels old_gadget_name new_gadget_name
            panels' contents
      end
  end.

Definition rename_gadget (old_gadget_name new_gadget_name : string)
    : stateful Exploration unit :=
  self ← get_self;
  if decide (old_gadget_name ∉ get_all_gadget_names self) then
    raise (ValueError "Gadget %s does not exist." [ArgStr old_gadget_name])
  else if decide (old_gadget_name ≠ new_gadget_name
                  ∧ new_gadget_name ∈ get_all_gadget_names self) then
    raise (ValueError "Duplicate gadget name: %s" [ArgStr new_gadget_name])
  else if decide (old_gadget_name = new_gadget_name) then mret ()
  else
    _ ← lift (GadgetInstance._validate_gadget_name matches_alphanumeric_space
                new_gadget_name);
    match rename_gadget_in_panels old_gadget_name new_gadget_name
            (dict_items _ (panel_contents_dict (skin_instance self)))
            (panel_contents_dict (skin_instance self)) with
    | Some contents => assign (λ self, with_panel_contents self contents)
    | None =>
        raise (ValueError "Gadget %s does not exist." [ArgStr old_gadget_name])
    end.

(** [delete_gadget].  [gadget_index] stays [None] when the panel holds no
    gadget of that name, and [del] with [None] is a [TypeError]. *)
Definition delete_gadget (gadget_name_ : string) : stateful Exploration unit :=
  self ← get_self;
  if decide (gadget_name_ ∉ get_all_gadget_names self) then
    raise (ValueError "Gadget %s does not exist." [ArgStr gadget_name_])
  else
    panel ← lift (_get_panel_for_gadget self gadget_name_);
    match panel_contents_dict (skin_instance self) !! panel with
    | None => raise (KeyError panel)
    | Some gadget_instances =>
        match list_find (λ g, gadget_name g = gadget_name_) gadget_instances with
        | None => raise (TypeError "list indices must be integers, not NoneType")
        | Some (gadget_index, _) =>
            assign (λ self,
              with_panel_contents self
                (<[panel := delete gadget_index gadget_instances]>
                   (panel_contents_dict (skin_instance self))))
        end
    end.

End gadget_operations.

(** *** The check of [validate] on the states named by gadgets *)

(** [SkinInstance.get_state_names_required_by_gadgets], as the set it
    collects before sorting. *)
Definition get_state_names_required_by_gadgets (skin : SkinInstance)
    : gset string :=
  map_fold (λ _ gadget_instances state_names,
              foldl (λ state_names gadget_instance,
                       state_names ∪ list_to_set (visible_in_states gadget_instance))
                    state_names gadget_instances)
           ∅ (panel_contents_dict skin).

(** The block of [validate] under "Check that state names required by
    gadgets exist". *)
Definition validate_states_required_by_gadgets (self : Exploration)
    : result unit :=
  let state_names_required_by_gadgets :=
    get_state_names_required_by_gadgets (skin_instance self) in
  let missing_state_names :=
    state_names_required_by_gadgets ∖ dom (states self) in
  if decide (missing_state_names = ∅) then Ok ()
  else Raise (ValidationError "Exploration missing required state%s: %s"
                [ArgStr (if decide (1 < size missing_state_names) then "s" else "");
                 ArgStr (str_join ", " (py_sort (elements missing_state_names)))]).

(** *** The checks of [validate] on the destinations of the outcomes *)

(** [name in self.param_specs] for the name of a parameter change: the
    keys are strings, a list or a dict cannot be hashed. *)
Definition param_declared (param_specs : gmap string ParamSpec) (name : pyval)
    : result bool :=
  match name with
  | PStr s => Ok (bool_decide (is_Some (param_specs !! s)))
  | PList _ | PDict _ => Raise (TypeError "unhashable type")
  | _ => Ok false
  end.

Section validate_destinations.

(** [self.states.values()] is walked twice; [dict_items] gives its order. *)
Variable dict_items : ∀ V, gmap string V → list (string * V).

(** [if dest not in all_state_names: raise ...] *)
Definition require_destination (self : Exploration) (template : string)
    (o : Outcome) : result unit :=
  if decide (states self !! dest o = None) then
    Raise (ValidationError template [ArgStr (dest o)])
  else Ok ().

(** [for param_change in outcome.param_changes: ...] *)
Definition require_declared_params (self : Exploration) (template : string)
    (o : Outcome) : result unit :=
  forM_ (λ param_change,
           declared ← param_declared (param_specs self) (pc_name param_change);
           if declared : bool then Ok ()
           else Raise (ValidationError template [ArgVal (pc_name param_change)]))
        (outcome_param_changes o).

(** The body of the loop under "Check that all answer groups, outcomes,
    and param_changes are valid": the default outcome is checked for its
    destination only. *)
Definition validate_group_destinations (self : Exploration) (state : State)
    : result unit :=
  let interaction := interaction state in
  _ ← match default_outcome interaction with
      | Some o =>
          require_destination self "The destination %s is not a valid state." o
      | None => Ok ()
      end;
  forM_ (λ group,
           _ ← require_destination self
                 "The destination %s is not a valid state." (outcome group);
           require_declared_params self
             "The parameter %s was used in an answer group, but it does not exist in this exploration"
             (outcome group))
        (answer_groups interaction).

(** The body of the loop under "Check that all fallbacks and hints are
    valid". *)
Definition validate_fallback_destinations (self : Exploration) (state : State)
    : result unit :=
  forM_ (λ fallback,
           _ ← require_destination self
                 "The fallback destination %s is not a valid state."
                 (fallback_outcome fallback);
           require_declared_params self
             "The parameter %s was used in a fallback, but it does not exist in this exploration"
             (fallback_outcome fallback))
        (fallbacks (interaction state)).

(** The two loops of [validate] over [self.states.values()] that come
    before the check on the gadgets. *)
Definition validate_destinations (self : Exploration) : result unit :=
  let values := (dict_items _ (states self)).*2 in
  _ ← forM_ (validate_group_destinations self) values;
  forM_ (validate_fallback_destinations self) values.

End validate_destinations.

(** *** Graph validators *)


Section validators.

Variable get_interaction_by_id : string → option BaseInteraction.
Variable dict_items : ∀ V, gmap string V → list (string * V).

(** [list(s)] for a set of strings: its elements in the interpreter's
    order. *)
Variable list_of_set : gset string → list string.

(** The [for] loop over the outcomes of the current state. *)
Definition enqueue_destinations (processed_queue : list string)
    (all_outcomes : list Outcome) (curr_queue : list string) : list string :=
  foldl (λ curr_queue outcome,
           let dest_state := dest outcome in
           if decide ((dest_state ∉ curr_queue) ∧ (dest_state ∉ processed_queue))
           then curr_queue ++ [dest_state] else curr_queue)
        curr_queue all_outcomes.

(** The [while curr_queue] loop of [_verify_all_states_reachable]; [None]
    when the fuel runs out before the queue is empty. *)
Fixpoint reachable_loop (fuel : nat) (states : gmap string State)
    (processed_queue curr_queue : list string)
    : option (result (list string)) :=
  match curr_queue with
  | [] => Some (Ok processed_queue)
  | curr_state_name :: curr_queue =>
      match fuel with
      | O => None
      | S fuel =>
          if decide (curr_state_name ∈ processed_queue) then
            reachable_loop fuel states processed_queue curr_queue
          else
            let processed_queue := processed_queue ++ [curr_state_name] in
            match states !! curr_state_name with
            | None => Some (Raise (KeyError curr_state_name))
            | Some curr_state =>
                match InteractionInstance.is_terminal get_interaction_by_id
                        (interaction curr_state) with
                | Raise e => Some (Raise e)
                | Ok true =>
                    reachable_loop fuel states processed_queue curr_queue
                | Ok false =>
                    reachable_loop fuel states processed_queue
                      (enqueue_destinations processed_queue
                         (InteractionInstance.get_all_outcomes
                            (interaction curr_state))
                         curr_queue)
                end
            end
      end
  end.

(** [list(set(self.states.keys()) - set(processed_queue))] *)
Definition states_not_in (self : Exploration) (processed_queue : list string)
    : list string :=
  list_of_set (dom (states self) ∖ list_to_set processed_queue).

Definition _verify_all_states_reachable (self : Exploration)
    : option (result unit) :=
  r ← reachable_loop (S (size (states self))) (states self)
        [] [init_state_name self];
  Some (processed_queue ← r;
        if decide (size (states self) ≠ length processed_queue) then
          let unseen_states := states_not_in self processed_queue in
          Raise (ValidationError
            "The following states are not reachable from the initial state: %s"
            [ArgStr (str_join ", " unseen_states)])
        else Ok ()).

(** The first loop of [_verify_no_dead_ends]: the names of the terminal
    states, in the order of the dict. *)
Fixpoint terminal_state_names (items : list (string * State))
    : result (list string) :=
  match items with
  | [] => Ok []
  | (state_name, state) :: items' =>
      t ← InteractionInstance.is_terminal get_interaction_by_id
            (interaction state);
      rest ← terminal_state_names items';
      Ok (if t : bool then state_name :: rest else rest)
  end.

(** The inner [for ... break]: does some non-fallback outcome of the state
    lead to [curr_state_name]? *)
Definition leads_to (curr_state_name : string) (state : State) : bool :=
  bool_decide
    (Exists (λ outcome, dest outcome = curr_state_name)
       (InteractionInstance.get_all_non_fallback_outcomes (interaction state))).

(** The scan of all states for one dequeued state. *)
Definition enqueue_predecessors (curr_state_name : string)
    (processed_queue : list string) (items : list (string * State))
    (curr_queue : list string) : list string :=
  foldl (λ curr_queue item,
           let state_name := item.1 in
           if decide ((state_name ∉ curr_queue) ∧ (state_name ∉ processed_queue))
           then (if leads_to curr_state_name item.2
                 then curr_queue ++ [state_name] else curr_queue)
           else curr_queue)
        curr_queue items.

Fixpoint dead_end_loop (fuel : nat) (items : list (string * State))
    (processed_queue curr_queue : list string) : option (list string) :=
  match curr_queue with
  | [] => Some processed_queue
  | curr_state_name :: curr_queue =>
      match fuel with
      | O => None
      | S fuel =>
          if decide (curr_state_name ∈ processed_queue) then
            dead_end_loop fuel items processed_queue curr_queue
          else
            let processed_queue := processed_queue ++ [curr_state_name] in
            dead_end_loop fuel items processed_queue
              (enqueue_predecessors curr_state_name processed_queue
                 items curr_queue)
      end
  end.

Definition _verify_no_dead_ends (self : Exploration) : option (result unit) :=
  let items := dict_items _ (states self) in
  match terminal_state_names items with
  | Raise e => Some (Raise e)
  | Ok curr_queue =>
      processed_queue ←
        dead_end_loop (S (size (states self))) items [] curr_queue;
      Some (if decide (size (states self) ≠ length processed_queue) then
              let dead_end_states := states_not_in self processed_queue in
              Raise (ValidationError
                "It is impossible to complete the exploration from the following states: %s"
                [ArgStr (str_join ", " dead_end_states)])
            else Ok ())
  end.

End validators.

(** *** The conversion of the states from version 1 to version 2 *)

Definition old_end_dest : string := "END".

(** [v == old_end_dest] *)
Definition is_old_end_dest (v : pyval) : bool :=
  match v with
  | PStr s => bool_decide (s = old_end_dest)
  | _ => false
  end.

(** The explicit ['END'] state that the conversion adds. *)
Definition explicit_end_state : pyval :=
  PDict
    [("content",
      PList [PDict [("type", PStr "text");
                    ("value", PStr "Congratulations, you have finished!")]]);
     ("interaction",
      PDict
        [("id", PStr "EndExploration");
         ("customization_args",
          PDict [("recommendedExplorationIds", PDict [("value", PList [])])]);
         ("handlers",
          PList
            [PDict
               [("name", PStr "submit");
                ("rule_specs",
                 PList
                   [PDict [("definition", PDict [("rule_type", PStr "default")]);
                           ("dest", PStr old_end_dest);
                           ("feedback", PList []);
                           ("param_changes", PList [])]])]])]);
     ("param_changes", PList [])].

(** [for rule_spec in handler['rule_specs']: if rule_spec['dest'] ==
    old_end_dest: ...; break]: was a rule found? *)
Fixpoint scan_rule_specs (rule_specs : list pyval) : result bool :=
  match rule_specs with
  | [] => Ok false
  | rule_spec :: rule_specs' =>
      dest ← py_getitem "dest" rule_spec;
      if is_old_end_dest dest then Ok true else scan_rule_specs rule_specs'
  end.

(** [for handler in sdict['interaction']['handlers']]: the [break] leaves
    the inner loop only, so every handler is looked at. *)
Fixpoint scan_handlers (targets_end_state : bool) (handlers : list pyval)
    : result bool :=
  match handlers with
  | [] => Ok targets_end_state
  | handler :: handlers' =>
      rule_specs ← py_getitem "rule_specs" handler;
      rule_specs ← py_iter rule_specs;
      found ← scan_rule_specs rule_specs;
      scan_handlers (targets_end_state || found) handlers'
  end.

(** The loop over [states_dict.iteritems()] with its two flags. *)
Fixpoint scan_states (targets_end_state has_end_state : bool)
    (items : pydict) : result (bool * bool) :=
  match items with
  | [] => Ok (targets_end_state, has_end_state)
  | (state_name, sdict) :: items' =>
      let has_end_state :=
        has_end_state || bool_decide (state_name = old_end_dest) in
      if targets_end_state then
        scan_states targets_end_state has_end_state items'
      else
        interaction ← py_getitem "interaction" sdict;
        handlers ← py_getitem "handlers" interaction;
        handlers ← py_iter handlers;
        targets_end_state ← scan_handlers false handlers;
        scan_states targets_end_state has_end_state items'
  end.

(** [_convert_states_v1_dict_to_v2_dict]: the dict is changed in place and
    returned; here the changed dict is the result.  [rehash] is the order
    in which the dict is walked once ['END'] has been inserted. *)
Definition _convert_states_v1_dict_to_v2_dict (rehash : pydict → pydict)
    (states_dict : pydict) : result pydict :=
  flags ← scan_states false false states_dict;
  let '(targets_end_state, has_end_state) := flags in
  if targets_end_state && negb has_end_state then
    Ok (pydict_ops.set rehash old_end_dest explicit_end_state states_dict)
  else Ok states_dict.

(** *** YAML migration *)

Definition CURRENT_EXP_SCHEMA_VERSION : Z := 15.
Definition LAST_UNTITLED_SCHEMA_VERSION : Z := 9.

(** The number a value stands for in a comparison; [True] is [1].  YAML
    floats are not represented in [pyval]. *)
Definition py_number (v : pyval) : option Z :=
  match v with
  | PInt z => Some z
  | PBool b => Some (if b then 1 else 0)%Z
  | _ => None
  end.

(** [n <= v], [v <= n] and [v == n] for an int [n] (Python 2: [None] sorts
    before every number, every other non-number after). *)
Definition py_int_le (n : Z) (v : pyval) : bool :=
  match v with
  | PNone => false
  | _ => match py_number v with Some z => bool_decide (n ≤ z)%Z | None => true end
  end.

Definition py_le_int (v : pyval) (n : Z) : bool :=
  match v with
  | PNone => true
  | _ => match py_number v with Some z => bool_decide (z ≤ n)%Z | None => false end
  end.

Definition py_eq_int (v : pyval) (n : Z) : bool :=
  match py_number v with Some z => bool_decide (z = n) | None => false end.

(** [exploration_dict.get('schema_version')] *)
Definition get_schema_version (exploration_dict : pyval) : result pyval :=
  match exploration_dict with
  | PDict d => Ok (default PNone (pydict_ops.get "schema_version" d))
  | _ => Raise (AttributeError "get")
  end.

(** [exploration_dict['id'] = exploration_id]; [rehash] is the order of
    the dict after the insertion of a new key. *)
Definition set_id (rehash : pydict → pydict) (exploration_id : string)
    (exploration_dict : pyval) : result pyval :=
  match exploration_dict with
  | PDict d => Ok (PDict (pydict_ops.set rehash "id" (PStr exploration_id) d))
  | _ => Raise (TypeError "does not support item assignment")
  end.

Section yaml_migration.

(** [utils.dict_from_yaml] *)
Variable dict_from_yaml : string → result pyval.

(** The fourteen conversion steps [_convert_vN_dict_to_v(N+1)_dict], by
    the version [N] they start from.  The step from 9 also receives the
    title and the category ([None] when the caller gives none).  The
    driver below is all the properties of this file depend on, so the
    steps are left open: what is proved holds for any steps. *)
Variable convert_dict : Z → option string → option string → pyval → result pyval.

(** [Exploration.from_dict] *)
Variable from_dict : pyval → result Exploration.

(** The order of a dict after the insertion of a new key. *)
Variable rehash : pydict → pydict.

(** One [if exploration_schema_version == N: ...] block of the driver. *)
Definition migration_step (N : Z) (title category : option string)
    (st : pyval * pyval) : result (pyval * pyval) :=
  let '(exploration_dict, exploration_schema_version) := st in
  if py_eq_int exploration_schema_version N then
    exploration_dict ← convert_dict N title category exploration_dict;
    Ok (exploration_dict, PInt (N + 1))
  else Ok st.

Definition _migrate_to_latest_yaml_version (yaml_content : string)
    (title category : option string) : result (pyval * pyval) :=
  match dict_from_yaml yaml_content with
  | Raise e =>
      Raise (Exception_
        "Please ensure that you are uploading a YAML text file, not a zip file. The YAML parser returned the following error: %s"
        [ArgExn e])
  | Ok exploration_dict =>
      exploration_schema_version ← get_schema_version exploration_dict;
      let initial_schema_version := exploration_schema_version in
      if is_None exploration_schema_version then
        Raise (Exception_ "Invalid YAML file: no schema version specified." [])
      else if negb (py_int_le 1 exploration_schema_version
                    && py_le_int exploration_schema_version
                         CURRENT_EXP_SCHEMA_VERSION) then
        Raise (Exception_
          "Sorry, we can only process v1 to v%s exploration YAML files at present."
          [ArgInt CURRENT_EXP_SCHEMA_VERSION])
      else
        st ← migration_step 1 title category
               (exploration_dict, exploration_schema_version);
        st ← migration_step 2 title category st;
        st ← migration_step 3 title category st;
        st ← migration_step 4 title category st;
        st ← migration_step 5 title category st;
        st ← migration_step 6 title category st;
        st ← migration_step 7 title category st;
        st ← migration_step 8 title category st;
        st ← migration_step 9 title category st;
        st ← migration_step 10 title category st;
        st ← migration_step 11 title category st;
        st ← migration_step 12 title category st;
        st ← migration_step 13 title category st;
        st ← migration_step 14 title category st;
        Ok (st.1, initial_schema_version)
  end.

Definition from_yaml (exploration_id yaml_content : string)
    : result Exploration :=
  migration_result ← _migrate_to_latest_yaml_version yaml_content None None;
  let exploration_dict := migration_result.1 in
  let initial_schema_version := migration_result.2 in
  if py_le_int initial_schema_version LAST_UNTITLED_SCHEMA_VERSION then
    Raise (Exception_ "Expected a YAML version >= 10, received: %d"
             [ArgVal initial_schema_version])
  else
    exploration_dict ← set_id rehash exploration_id exploration_dict;
    from_dict exploration_dict.

Definition from_untitled_yaml (exploration_id title category yaml_content : string)
    : result Exploration :=
  migration_result ←
    _migrate_to_latest_yaml_version yaml_content (Some title) (Some category);
  let exploration_dict := migration_result.1 in
  let initial_schema_version := migration_result.2 in
  if negb (py_le_int initial_schema_version LAST_UNTITLED_SCHEMA_VERSION) then
    Raise (Exception_ "Expected a YAML version <= 9, received: %d"
             [ArgVal initial_schema_version])
  else
    exploration_dict ← set_id rehash exploration_id exploration_dict;
    from_dict exploration_dict.

End yaml_migration.
End Exploration.

(** * Reference notions and concrete inputs *)

(** [{'value': ca_spec.default_value}] *)
Definition default_entry (ca_spec : CustomizationArgSpec) : pyval :=
  PDict [("value", ca_default_value ca_spec)].

(** ** The state graph *)

Definition is_Ok {A} (r : result A) : Prop :=
  match r with Ok _ => True | Raise _ => False end.

#[global] Instance is_Ok_dec {A} (r : result A) : Decision (is_Ok r).
Proof. destruct r; simpl; apply _. Defined.

Section state_graph.

Variable get_interaction_by_id : string → option BaseInteraction.
Variable sts : gmap string State.

(** The state named [t] exists and its interaction is terminal. *)
Definition terminal_state (t : string) : Prop :=
  ∃ st, sts !! t = Some st
        ∧ InteractionInstance.is_terminal get_interaction_by_id (interaction st)
          = Ok true.

(** An edge followed by the reachability check: some outcome (answer group,
    default or fallback) of the non-terminal state [s] leads to [d]. *)
Definition successor (s d : string) : Prop :=
  ∃ st, sts !! s = Some st
        ∧ InteractionInstance.is_terminal get_interaction_by_id (interaction st)
          = Ok false
        ∧ d ∈ dest <$> InteractionInstance.get_all_outcomes (interaction st).

Definition reachable_from (init s : string) : Prop := rtc successor init s.

(** An edge that counts as a way out: some non-fallback outcome of the
    state [s] leads to [d]. *)
Definition leads (s d : string) : Prop :=
  ∃ st, sts !! s = Some st
        ∧ d ∈ dest <$> InteractionInstance.get_all_non_fallback_outcomes
                         (interaction st).

(** [s] can reach a terminal state over non-fallback outcomes. *)
Definition can_finish (s : string) : Prop :=
  ∃ t, rtc leads s t ∧ terminal_state t.

(** Every outcome leads to a state that exists ([validate] has checked it
    by the time it calls the graph validators). *)
Definition destinations_exist : Prop :=
  map_Forall (λ _ st,
                Forall (λ o, is_Some (sts !! dest o))
                       (InteractionInstance.get_all_outcomes (interaction st)))
             sts.

(** The interaction id of every state is unset or known to the registry. *)
Definition interactions_registered : Prop :=
  map_Forall (λ _ st,
                is_Ok (InteractionInstance.is_terminal get_interaction_by_id
                         (interaction st)))
             sts.

#[global] Instance destinations_exist_dec : Decision destinations_exist.
Proof. unfold destinations_exist. apply _. Defined.

#[global] Instance interactions_registered_dec : Decision interactions_registered.
Proof. unfold interactions_registered. apply _. Defined.

(** What holds of the two queues of [_verify_all_states_reachable] each
    time the [while] condition is tested. *)
Definition reach_invariant (init : string) (processed_queue curr_queue : list string)
    : Prop :=
  NoDup (processed_queue ++ curr_queue)
  ∧ (∀ s, s ∈ processed_queue ++ curr_queue → reachable_from init s)
  ∧ (∀ s d, s ∈ processed_queue → successor s d →
            d ∈ processed_queue ++ curr_queue)
  ∧ init ∈ processed_queue ++ curr_queue.

(** The same for [_verify_no_dead_ends]. *)
Definition dead_end_invariant (processed_queue curr_queue : list string) : Prop :=
  NoDup (processed_queue ++ curr_queue)
  ∧ (∀ s, s ∈ processed_queue ++ curr_queue → is_Some (sts !! s) ∧ can_finish s)
  ∧ (∀ s p, p ∈ processed_queue → leads s p →
            s ∈ processed_queue ++ curr_queue)
  ∧ (∀ t, terminal_state t → t ∈ processed_queue ++ curr_queue).

End state_graph.

(** No outcome of any state (answer group, default or fallback) leads to
    the name [d]. *)
Definition no_outcome_leads_to (sts : gmap string State) (d : string) : Prop :=
  map_Forall (λ _ st,
                Forall (λ o, dest o ≠ d)
                       (InteractionInstance.get_all_outcomes (interaction st)))
             sts.

#[global] Instance no_outcome_leads_to_dec sts d :
  Decision (no_outcome_leads_to sts d).
Proof. unfold no_outcome_leads_to. apply _. Defined.

(** The names of the parameter changes of the outcomes of the answer groups
    and of the fallbacks are strings declared in [param_specs]. *)
Definition param_changes_declared (self : Exploration) : Prop :=
  map_Forall (λ _ st,
                Forall (λ o,
                          Forall (λ param_change,
                                    ∃ name, pc_name param_change = PStr name
                                            ∧ is_Some (param_specs self !! name))
                                 (outcome_param_changes o))
                       ((outcome <$> answer_groups (interaction st))
                        ++ (fallback_outcome <$> fallbacks (interaction st))))
             (states self).

(** Every state a gadget is visible in exists. *)
Definition gadget_states_exist (self : Exploration) : Prop :=
  map_Forall (λ _ gadget_instances,
                Forall (λ gadget_instance,
                          Forall (λ state_name,
                                    is_Some (states self !! state_name))
                                 (visible_in_states gadget_instance))
                       gadget_instances)
             (panel_contents_dict (skin_instance self)).

#[global] Instance gadget_states_exist_dec self :
  Decision (gadget_states_exist self).
Proof. unfold gadget_states_exist. apply _. Defined.

(** No gadget lists a state twice ([GadgetInstance.validate] insists). *)
Definition gadget_visibility_distinct (self : Exploration) : Prop :=
  map_Forall (λ _ gadget_instances,
                Forall (λ gadget_instance,
                          NoDup (visible_in_states gadget_instance))
                       gadget_instances)
             (panel_contents_dict (skin_instance self)).

#[global] Instance gadget_visibility_distinct_dec self :
  Decision (gadget_visibility_distinct self).
Proof. unfold gadget_visibility_distinct. apply _. Defined.

(** A gadget with the first occurrence of a state name taken out of its
    visibility list, when the name occurs. *)
Definition visibility_without (state_name : string) (g : GadgetInstance)
    : GadgetInstance :=
  if decide (state_name ∈ visible_in_states g)
  then Exploration.with_visible_in_states g
         (Exploration.list_remove_first state_name (visible_in_states g))
  else g.

(** The rule is given a value for each of its parameters and for nothing
    else. *)
Definition inputs_match_parameters
    (get_rule_param_list : string → list (string * ParamObj))
    (rule_spec : RuleSpec) : Prop :=
  ∃ rule_inputs,
    inputs rule_spec = PDict rule_inputs
    ∧ (list_to_set (pydict_ops.keys rule_inputs) : gset string)
      = list_to_set (get_rule_param_list (rule_type rule_spec)).*1.

(** [n] conversion steps in a row, starting with the step from version
    [N]; the first step that raises ends the chain. *)
Fixpoint convert_chain
    (convert_dict : Z → option string → option string → pyval → result pyval)
    (title category : option string) (n : nat) (N : Z) (exploration_dict : pyval)
    : result pyval :=
  match n with
  | O => Ok exploration_dict
  | S n' =>
      exploration_dict ← convert_dict N title category exploration_dict;
      convert_chain convert_dict title category n' (N + 1) exploration_dict
  end.

(** The table in the docstring of [ExplorationChange.__init__]: the keys
    that go with each command, and the property names that go with it. *)
Definition change_keys (cmd : string) : option (list string) :=
  if decide (cmd = CMD_ADD_STATE) then Some ["state_name"]
  else if decide (cmd = CMD_RENAME_STATE) then
    Some ["old_state_name"; "new_state_name"]
  else if decide (cmd = CMD_DELETE_STATE) then Some ["state_name"]
  else if decide (cmd = CMD_EDIT_STATE_PROPERTY) then
    Some ["state_name"; "property_name"; "new_value"]
  else if decide (cmd = CMD_ADD_GADGET) then Some ["gadget_dict"; "panel"]
  else if decide (cmd = CMD_RENAME_GADGET) then
    Some ["old_gadget_name"; "new_gadget_name"]
  else if decide (cmd = CMD_DELETE_GADGET) then Some ["gadget_name"]
  else if decide (cmd = CMD_EDIT_GADGET_PROPERTY) then
    Some ["gadget_name"; "property_name"; "new_value"]
  else if decide (cmd = CMD_EDIT_EXPLORATION_PROPERTY) then
    Some ["property_name"; "new_value"]
  else if decide (cmd = CMD_MIGRATE_STATES_SCHEMA_TO_LATEST_VERSION) then
    Some ["from_version"; "to_version"]
  else None.

Definition change_properties (cmd : string) : option (list string) :=
  if decide (cmd = CMD_EDIT_STATE_PROPERTY) then
    Some ExplorationChange.STATE_PROPERTIES
  else if decide (cmd = CMD_EDIT_GADGET_PROPERTY) then
    Some ExplorationChange.GADGET_PROPERTIES
  else if decide (cmd = CMD_EDIT_EXPLORATION_PROPERTY) then
    Some ExplorationChange.EXPLORATION_PROPERTIES
  else None.

(** A change dict as the docstring describes it: a known command, the keys
    of that command, a property name of the right kind, and for
    [add_gadget] a gadget dict that has a name. *)
Definition change_dict_well_formed (change_dict : pydict) : Prop :=
  ∃ cmd keys,
    pydict_ops.get "cmd" change_dict = Some (PStr cmd)
    ∧ change_keys cmd = Some keys
    ∧ Forall (λ k, is_Some (pydict_ops.get k change_dict)) keys
    ∧ (∀ properties, change_properties cmd = Some properties →
         ∃ p, pydict_ops.get "property_name" change_dict = Some (PStr p)
              ∧ p ∈ properties)
    ∧ (cmd = CMD_ADD_GADGET →
       ∃ gadget_dict,
         pydict_ops.get "gadget_dict" change_dict = Some (PDict gadget_dict)
         ∧ is_Some (pydict_ops.get "gadget_name" gadget_dict)).

(** Some rule of some handler of the version-1 state [sdict] leads to
    ['END']. *)
Definition targets_old_end (sdict : pyval) : Prop :=
  ∃ interaction handlers handler_list handler rule_specs rule_list rule_spec,
    py_getitem "interaction" sdict = Ok interaction
    ∧ py_getitem "handlers" interaction = Ok handlers
    ∧ py_iter handlers = Ok handler_list
    ∧ handler ∈ handler_list
    ∧ py_getitem "rule_specs" handler = Ok rule_specs
    ∧ py_iter rule_specs = Ok rule_list
    ∧ rule_spec ∈ rule_list
    ∧ py_getitem "dest" rule_spec = Ok (PStr Exploration.old_end_dest).

(** The gadgets of a list that are visible in a state, and the width and
    the height of a gadget whose type is registered. *)
Definition visible_gadgets (state_name : string)
    (gadget_list : list GadgetInstance) : list GadgetInstance :=
  filter (λ g, state_name ∈ visible_in_states g) gadget_list.

Definition registered_width (get_gadget_by_type : string → option GadgetSpec)
    (g : GadgetInstance) : Z :=
  default 0%Z (width_px <$> get_gadget_by_type (gadget_type g)).

Definition registered_height (get_gadget_by_type : string → option GadgetSpec)
    (g : GadgetInstance) : Z :=
  default 0%Z (height_px <$> get_gadget_by_type (gadget_type g)).

(** The claim that a validator reports the given states in sorted order. *)
Definition reports_sorted (report : option (result unit)) (template : string)
    (unvisited : list string) : Prop :=
  ∃ names,
    report = Some (Raise (ValidationError template [ArgStr (str_join ", " names)]))
    ∧ names ≡ₚ unvisited
    ∧ Exploration.py_sort names = names.

Definition unreachable_template : string :=
  "The following states are not reachable from the initial state: %s".

Definition dead_end_template : string :=
  "It is impossible to complete the exploration from the following states: %s".

(** The first feedback line of a fallback, when it has one. *)
Definition first_feedback (fb : Fallback) : option string :=
  head (feedback (fallback_outcome fb)).

Module Examples.

(** The spec list [[{name: "x", default_value: 5}]]. *)
Definition spec_x : CustomizationArgSpec :=
  {| ca_name := "x"; ca_description := ""; ca_default_value := PInt 5;
     ca_schema := PDict [("type", PStr "int")] |}.

(** An input with the undeclared key ["y"]. *)
Definition args_with_y : anydict := [(KStr "y", PDict [("value", PInt 1)])].

(** An input with the undeclared key ["y"] and, behind it, the key [1]. *)
Definition args_with_y_and_1 : anydict :=
  [(KStr "y", PDict [("value", PInt 1)]);
   (KOther (PInt 1), PDict [("value", PInt 2)])].

(** A schema normaliser that knows integers only. *)
Definition normalize_int (value schema : pyval) : result pyval :=
  match value with
  | PInt z => Ok (PInt z)
  | _ => Raise (External "AssertionError")
  end.

(** A hash table that grows on an insertion and then walks the key that
    was first behind all the others. *)
Definition first_key_last (d : pydict) : pydict :=
  match d with
  | [] => []
  | (k, v) :: d' =>
      if bool_decide (k ∈ pydict_ops.keys d') then d else d' ++ [(k, v)]
  end.

(** A hash table in which a new key lands behind the keys that are there:
    the order after an insertion is the order of insertion. *)
Definition new_key_last {K} : list (K * pyval) → list (K * pyval) := id.

(** A rule parameter object in the manner of [objects.Int]. *)
Definition int_obj : ParamObj :=
  {| param_obj_name := "Int";
     normalize v :=
       match v with
       | PInt z => Ok (PInt z)
       | _ => Raise (TypeError "Cannot convert to int")
       end |}.

(** A rule with the declared parameter ["x"] and the inputs
    [{"x": 1, "y": 2}]. *)
Definition rule_with_extra_input : RuleSpec :=
  {| rule_type := "Equals"; inputs := PDict [("x", PInt 1); ("y", PInt 2)] |}.

Definition rule_missing_input : RuleSpec :=
  {| rule_type := "Equals"; inputs := PDict [] |}.

(** A stand-in for [html_cleaner.clean]: it drops every ['<']. *)
Fixpoint drop_lt (s : string) : string :=
  match s with
  | EmptyString => EmptyString
  | String c s' =>
      if decide (String c EmptyString = "<") then drop_lt s'
      else String c (drop_lt s')
  end.

Definition outcome_dict (dest : string) (feedback : list string) : pyval :=
  PDict [("dest", PStr dest); ("feedback", PList (PStr <$> feedback));
         ("param_changes", PList [])].

Definition fallback_dict (dest : string) (feedback : list string) : pyval :=
  PDict [("trigger",
          PDict [("trigger_type", PStr "NthResubmission");
                 ("customization_args",
                  PDict [("num_submits", PDict [("value", PInt 3)])])]);
         ("outcome", outcome_dict dest feedback)].

Definition plain_outcome (d : string) : Outcome :=
  {| dest := d; feedback := []; outcome_param_changes := [] |}.

(** A state like the one [State.create_default_state] builds, with the
    given interaction id and the given default outcome. *)
Definition state_with (id : option string) (default : option Outcome) : State :=
  {| content := {| html := ""; audio_translations := PDict [] |};
     state_param_changes := [];
     interaction :=
       {| interaction_id := id;
          interaction_customization_args := PDict [];
          answer_groups := [];
          default_outcome := default;
          confirmed_unclassified_answers := [];
          fallbacks := [];
          hints := [];
          solution := PDict [] |};
     classifier_model_id := None |}.

Definition state_to (d : string) : State :=
  state_with (Some "TextInput") (Some (plain_outcome d)).

Definition end_state : State := state_with (Some "EndExploration") None.

(** A YAML parser for one document: whatever the text, it yields a dict
    that declares the given schema version. *)
Definition parse_as (schema_version : pyval) (yaml_content : string)
    : result pyval :=
  Ok (PDict [("schema_version", schema_version); ("states", PDict [])]).

Definition parse_without_version (yaml_content : string) : result pyval :=
  Ok (PDict [("states", PDict [])]).

(** Conversion steps that always fail, and a constructor that always
    fails: enough to show which paths never reach them. *)
Definition convert_fails (N : Z) (title category : option string)
    (exploration_dict : pyval) : result pyval :=
  Raise (External "conversion step").

Definition convert_keeps (N : Z) (title category : option string)
    (exploration_dict : pyval) : result pyval :=
  Ok exploration_dict.

Definition from_dict_fails (exploration_dict : pyval) : result Exploration :=
  Raise (External "Exploration.from_dict").

Definition gadget_in (visible : list string) : GadgetInstance :=
  {| gadget_type := "TestGadget"; gadget_name := "ATestGadget";
     visible_in_states := visible; gadget_customization_args := PDict [] |}.

Definition exploration_of (init : string) (sts : gmap string State)
    (panels : gmap string (list GadgetInstance)) : Exploration :=
  {| exploration_id := "eid"; title := "A title"; category := "A category";
     objective := ""; language_code := "en"; tags := []; blurb := "";
     author_notes := ""; states_schema_version := 12;
     init_state_name := init;
     skin_instance := {| skin_id := "conversation_v1";
                         panel_contents_dict := panels |};
     states := sts; param_specs := ∅; exploration_param_changes := [];
     version := 0 |}.

(** One state ["A"] that loops to itself, and a gadget visible in ["A"]. *)
Definition exploration_with_gadget_in_A : Exploration :=
  exploration_of "A" {[ "A" := state_to "A" ]}
    {[ "bottom" := [gadget_in ["A"]] ]}.

(** ["A"] (initial) leads to ["B"], ["B"] loops; a gadget is visible in
    ["B"] only. *)
Definition exploration_with_gadget_in_B : Exploration :=
  exploration_of "A" (<[ "A" := state_to "B" ]> {[ "B" := state_to "B" ]})
    {[ "bottom" := [gadget_in ["B"]] ]}.

(** Every name is a valid state name. *)
Definition any_name_valid (name name_type : string) : result unit := Ok ().

(** The dict order of the examples: the order of [map_to_list]. *)
Definition items_in_map_order (V : Type) (m : gmap string V)
    : list (string * V) := map_to_list m.

(** A registry with a non-terminal and a terminal interaction. *)
Definition registry (id : string) : option BaseInteraction :=
  if decide (id = "TextInput") then
    Some {| spec_is_terminal := false; customization_arg_specs := [] |}
  else if decide (id = "EndExploration") then
    Some {| spec_is_terminal := true; customization_arg_specs := [] |}
  else None.

Definition answer_group_to (d : string) : AnswerGroup :=
  {| rule_specs := [{| rule_type := "Equals"; inputs := PDict [("x", PInt 1)] |}];
     outcome := plain_outcome d; correct := false |}.

(** A [TextInput] state with one answer group per name in [groups] and the
    default outcome [default]. *)
Definition state_to_all (groups : list string) (default : string) : State :=
  {| content := {| html := ""; audio_translations := PDict [] |};
     state_param_changes := [];
     interaction :=
       {| interaction_id := Some "TextInput";
          interaction_customization_args := PDict [];
          answer_groups := answer_group_to <$> groups;
          default_outcome := Some (plain_outcome default);
          confirmed_unclassified_answers := [];
          fallbacks := [];
          hints := [];
          solution := PDict [] |};
     classifier_model_id := None |}.

(** [A(init) -> B, B -> C, C terminal, D unreferenced]. *)
Definition exploration_ABCD : Exploration :=
  exploration_of "A"
    (<[ "A" := state_to "B" ]> (<[ "B" := state_to "C" ]>
       (<[ "C" := end_state ]> {[ "D" := state_to "D" ]}))) ∅.

(** [A(init) -> B, B -> A], no terminal state. *)
Definition exploration_AB_cycle : Exploration :=
  exploration_of "A" (<[ "A" := state_to "B" ]> {[ "B" := state_to "A" ]}) ∅.

(** [A -> B and C, B -> D, C -> E, D and E terminal]: breadth first visits
    [A, B, C, D, E], depth first would visit [D] before [C]. *)
Definition exploration_two_levels : Exploration :=
  exploration_of "A"
    (<[ "A" := state_to_all ["B"] "C" ]> (<[ "B" := state_to "D" ]>
       (<[ "C" := state_to "E" ]> (<[ "D" := end_state ]>
          {[ "E" := end_state ]})))) ∅.

(** [a(init) -> a], with [b] and [c] unreferenced. *)
Definition exploration_abc : Exploration :=
  exploration_of "a"
    (<[ "a" := state_to "a" ]> (<[ "b" := state_to "b" ]>
       {[ "c" := state_to "c" ]})) ∅.

(** The hash of a [str] in CPython 2.7 (64-bit build, no hash
    randomisation), as an unsigned 64-bit number. *)
Definition py27_str_hash (s : string) : Z :=
  match s with
  | EmptyString => 0
  | String c _ =>
      let codes := (λ c, Z.of_nat (Ascii.nat_of_ascii c))
                   <$> String.list_ascii_of_string s in
      let x := Z.shiftl (Z.of_nat (Ascii.nat_of_ascii c)) 7 in
      let x := foldl (λ x code, Z.lxor ((1000003 * x) mod 2 ^ 64) code) x codes in
      let x := Z.lxor x (Z.of_nat (String.length s)) in
      if decide (x = 2 ^ 64 - 1) then 2 ^ 64 - 2 else x
  end%Z.

(** The slot of a string in the eight-slot table of a small set. *)
Definition py27_slot (s : string) : Z := Z.land (py27_str_hash s) 7.

Definition slot_le (a b : string) : Prop := (py27_slot a ≤ py27_slot b)%Z.

#[global] Instance slot_le_dec a b : Decision (slot_le a b).
Proof. unfold slot_le. apply _. Defined.

(** [list(s)] in CPython 2.7 walks the table of the set slot by slot.  For
    a set of at most five strings that fall into distinct slots this is the
    order of the slots; that is the case in the examples of this file. *)
Definition py27_list_of_set (X : gset string) : list string :=
  merge_sort slot_le (elements X).

(** [a] is terminal; [b] and [c] lead to themselves only. *)
Definition exploration_a_end : Exploration :=
  exploration_of "a"
    (<[ "a" := end_state ]> (<[ "b" := state_to "b" ]>
       {[ "c" := state_to "c" ]})) ∅.

(** A stand-in for the search of [feconf.ALPHANUMERIC_SPACE_REGEX]: every
    character is a digit, a letter or a space. *)
Definition alphanumeric_or_space (s : string) : bool :=
  forallb (λ c, let n := Ascii.nat_of_ascii c in
                (n =? 32)%nat
                || ((48 <=? n)%nat && (n <=? 57)%nat)
                || ((65 <=? n)%nat && (n <=? 90)%nat)
                || ((97 <=? n)%nat && (n <=? 122)%nat))
          (String.list_ascii_of_string s).

(** The dict of a second gadget, visible in ["A"]. *)
Definition another_gadget_dict : pyval :=
  PDict [("gadget_type", PStr "TestGadget");
         ("gadget_name", PStr "Another gadget");
         ("visible_in_states", PList [PStr "A"]);
         ("customization_args", PDict [])].

Definition another_gadget : GadgetInstance :=
  {| gadget_type := "TestGadget"; gadget_name := "Another gadget";
     visible_in_states := ["A"]; gadget_customization_args := PDict [] |}.

(** The rules of an interaction with the single rule ["Equals"], whose
    only parameter is ["x"]. *)
Definition equals_rules : gset string := {[ "Equals" ]}.

Definition equals_param_list (rule_type : string) : list (string * ParamObj) :=
  [("x", int_obj)].

Definition any_param_change_valid (param_change : ParamChange) : result unit :=
  Ok ().

(** A version-1 states dict with one state, whose default rule leads to
    the implicit ['END']. *)
Definition states_v1_to_END : pydict :=
  [("Intro",
    PDict
      [("content", PList [PDict [("type", PStr "text"); ("value", PStr "Hi")]]);
       ("interaction",
        PDict
          [("id", PStr "TextInput");
           ("customization_args", PDict []);
           ("handlers",
            PList
              [PDict
                 [("name", PStr "submit");
                  ("rule_specs",
                   PList
                     [PDict [("definition",
                              PDict [("rule_type", PStr "default")]);
                             ("dest", PStr "END");
                             ("feedback", PList []);
                             ("param_changes", PList [])]])]])]);
       ("param_changes", PList [])])].

(** The same state, followed by a state that has no interaction. *)
Definition states_v1_with_stub : pydict :=
  states_v1_to_END ++ [("Stub", PDict [])].

(** One panel in the manner of [feconf.PANELS_PROPERTIES], and a gadget
    registry with the one type of [gadget_in]. *)
Definition panels_properties : gmap string PanelSpec :=
  {[ "bottom" := {| panel_width := 350; panel_height := 100;
                    stackable_axis := "horizontal";
                    pixels_between_gadgets := 80; max_gadgets := 1 |} ]}.

Definition gadget_registry (gadget_type : string) : option GadgetSpec :=
  if decide (gadget_type = "TestGadget")
  then Some {| width_px := 100; height_px := 50 |} else None.

(** A set listed in the order of [elements]. *)
Definition elements_in_order (X : gset string) : list string := elements X.

(** ["A"] (initial) leads to ["B"], ["B"] loops; a gadget is visible in
    both. *)
Definition exploration_with_gadget_in_A_and_B : Exploration :=
  exploration_of "A" (<[ "A" := state_to "B" ]> {[ "B" := state_to "B" ]})
    {[ "bottom" := [gadget_in ["A"; "B"]] ]}.

End Examples.

(** * Properties *)

(** ** The exception monad *)

Lemma bind_Ok_inv {A B} (m : result A) (f : A → result B) b :
  m ≫= f = Ok b → ∃ a, m = Ok a ∧ f a = Ok b.
Proof. destruct m as [a|e]; simpl; [eauto|done]. Qed.

(** ** Dicts in iteration order *)

Section pydict_facts.
Import pydict_ops.

Lemma contains_spec k d : contains k d = true ↔ is_Some (get k d).
Proof. unfold contains. apply bool_decide_eq_true. Qed.

Lemma contains_false k d : contains k d = false ↔ get k d = None.
Proof.
  unfold contains. rewrite bool_decide_eq_false, eq_None_not_Some. done.
Qed.

Lemma get_replace k k' v d :
  is_Some (get k d) →
  get k' (replace k v d) = if decide (k = k') then Some v else get k' d.
Proof.
  induction d as [|[k0 v0] d IH]; simpl; intros Hk.
  - by destruct Hk.
  - destruct (decide (k0 = k)) as [->|Hne]; simpl.
    + repeat case_decide; congruence.
    + rewrite IH by done. repeat case_decide; congruence.
Qed.

Lemma get_app_absent k k' v (d : pydict) :
  get k (d ++ [(k', v)])
  = match get k d with
    | Some w => Some w
    | None => if decide (k' = k) then Some v else None
    end.
Proof.
  induction d as [|[k0 v0] d IH]; simpl.
  - by case_decide.
  - destruct (decide (k0 = k)); [done|apply IH].
Qed.

Lemma set_absent rehash k v (d : pydict) :
  get k d = None → set rehash k v d = rehash (d ++ [(k, v)]).
Proof. intros Hnone%contains_false. unfold set. by rewrite Hnone. Qed.

(** After [d[k] = v] the key leads to [v] and the other keys to what they
    led to, whatever the new order is. *)
Lemma get_set rehash k k' v d :
  reorders rehash →
  get k' (set rehash k v d) = if decide (k = k') then Some v else get k' d.
Proof.
  intros Hrehash. unfold set. destruct (contains k d) eqn:Hc.
  - apply get_replace. by apply contains_spec.
  - apply contains_false in Hc.
    rewrite (proj2 (Hrehash _)), get_app_absent.
    destruct (decide (k = k')) as [<-|Hne]; [by rewrite Hc|].
    by destruct (get k' d).
Qed.

Lemma get_is_Some_keys k d : is_Some (get k d) ↔ k ∈ keys d.
Proof.
  unfold keys. induction d as [|[k0 v0] d IH]; simpl.
  - split; [intros [? ?]; done | intros H; inversion H].
  - rewrite elem_of_cons. case_decide; subst.
    + split; eauto.
    + rewrite IH. naive_solver.
Qed.

End pydict_facts.

(** ** Dicts with keys of any type *)

Section anydict_facts.
Import anydict_ops.

Lemma any_contains_spec k d : contains k d = true ↔ is_Some (get k d).
Proof. unfold contains. apply bool_decide_eq_true. Qed.

Lemma any_contains_false k d : contains k d = false ↔ get k d = None.
Proof.
  unfold contains. rewrite bool_decide_eq_false, eq_None_not_Some. done.
Qed.

Lemma is_name_true k key : is_name k key = true ↔ key = KStr k.
Proof.
  destruct key as [s|w]; simpl; [|done].
  rewrite bool_decide_eq_true. split; congruence.
Qed.

Lemma is_name_KStr k k' : is_name k' (KStr k) = bool_decide (k = k').
Proof. done. Qed.

Lemma is_name_refl k : is_name k (KStr k) = true.
Proof. by apply is_name_true. Qed.

Lemma any_get_replace k k' v d :
  is_Some (get k d) →
  get k' (replace k v d) = if decide (k = k') then Some v else get k' d.
Proof.
  induction d as [|[key v0] d IH]; simpl; intros Hk.
  - by destruct Hk.
  - destruct (is_name k key) eqn:Hkey; simpl.
    + apply is_name_true in Hkey. subst key. rewrite is_name_KStr.
      destruct (decide (k = k')) as [->|Hne].
      * by rewrite bool_decide_eq_true_2.
      * by rewrite bool_decide_eq_false_2.
    + rewrite IH by done. destruct (is_name k' key) eqn:Hkey'; [|done].
      apply is_name_true in Hkey'. subst key.
      destruct (decide (k = k')) as [->|Hne]; [|done].
      by rewrite is_name_refl in Hkey.
Qed.

Lemma any_get_app k k' v (d : anydict) :
  get k (d ++ [(KStr k', v)])
  = match get k d with
    | Some w => Some w
    | None => if decide (k' = k) then Some v else None
    end.
Proof.
  induction d as [|[key v0] d IH]; simpl.
  - destruct (decide (k' = k)) as [->|Hne].
    + by rewrite bool_decide_eq_true_2.
    + by rewrite bool_decide_eq_false_2.
  - destruct (is_name k key); [done|apply IH].
Qed.

Lemma any_get_set rehash k k' v d :
  reorders rehash →
  get k' (set rehash k v d) = if decide (k = k') then Some v else get k' d.
Proof.
  intros Hrehash. unfold set. destruct (contains k d) eqn:Hc.
  - apply any_get_replace. by apply any_contains_spec.
  - apply any_contains_false in Hc.
    rewrite (proj2 (Hrehash _)), any_get_app.
    destruct (decide (k = k')) as [<-|Hne]; [by rewrite Hc|].
    by destruct (get k' d).
Qed.

Lemma any_get_is_Some_keys k d : is_Some (get k d) ↔ KStr k ∈ keys d.
Proof.
  unfold keys. induction d as [|[key v0] d IH]; simpl.
  - split; [intros [? ?]; done | intros H; inversion H].
  - rewrite elem_of_cons. destruct (is_name k key) eqn:Hkey.
    + apply is_name_true in Hkey. subst key. split; eauto.
    + rewrite IH. split; [by right|]. intros [<-|?]; [|done].
      by rewrite is_name_refl in Hkey.
Qed.

Lemma keys_replace k v d : keys (replace k v d) = keys d.
Proof.
  unfold keys. induction d as [|[key v0] d IH]; simpl; [done|].
  destruct (is_name k key); simpl; [done|]. f_equal. apply IH.
Qed.

(** The keys after [d[k] = v], whatever the new order is. *)
Lemma elem_of_keys_set rehash k v d key :
  reorders rehash →
  key ∈ keys (set rehash k v d) ↔ key = KStr k ∨ key ∈ keys d.
Proof.
  intros Hrehash. unfold set. destruct (contains k d) eqn:Hc.
  - rewrite keys_replace. apply any_contains_spec, any_get_is_Some_keys in Hc.
    naive_solver.
  - unfold keys. rewrite (proj1 (Hrehash _)), fmap_app, elem_of_app.
    simpl. rewrite list_elem_of_singleton. naive_solver.
Qed.

Lemma elem_of_keys_del k d key :
  key ∈ keys (del k d) ↔ key ∈ keys d ∧ key ≠ KStr k.
Proof.
  unfold keys, del. rewrite !list_elem_of_fmap. split.
  - intros ([key0 v0] & -> & [Hne Hin]%list_elem_of_filter). simpl in *.
    split; [by exists (key0, v0)|]. intros ->. by rewrite is_name_refl in Hne.
  - intros [([key0 v0] & -> & Hin) Hne]. exists (key0, v0). split; [done|].
    apply list_elem_of_filter. split; [|done]. simpl in *.
    destruct (is_name k key0) eqn:Hkey; [|done].
    apply is_name_true in Hkey. congruence.
Qed.

Lemma elem_of_keys_foldl_del l d key :
  key ∈ keys (foldl (λ d e, del e d) d l)
  ↔ key ∈ keys d ∧ ∀ e, e ∈ l → key ≠ KStr e.
Proof.
  revert d. induction l as [|e l IH]; intros d; simpl.
  - split; [|by intros [? _]]. intros H. split; [done|].
    intros e He. by apply elem_of_nil in He.
  - rewrite IH, elem_of_keys_del. split.
    + intros [[Hk Hne] Hl]. split; [done|].
      intros e' [->|He']%elem_of_cons; auto.
    + intros [Hk Hl]. split; [split; [done|]|].
      * apply Hl. by left.
      * intros e' He'. apply Hl. by right.
Qed.

(** A list of keys is a list of names, or has a first key that is not a
    string. *)
Lemma keys_all_names (arg_names : list pykey) :
  (∀ v, KOther v ∉ arg_names) → ∃ l, arg_names = KStr <$> l.
Proof.
  induction arg_names as [|key ks IH]; intros Hstr.
  - by exists [].
  - destruct IH as [l ->].
    { intros v Hv. apply (Hstr v). by right. }
    destruct key as [s|w].
    + by exists (s :: l).
    + exfalso. apply (Hstr w). by left.
Qed.

Lemma keys_first_other (arg_names : list pykey) v :
  KOther v ∈ arg_names →
  ∃ before v' after, arg_names = (KStr <$> before) ++ KOther v' :: after.
Proof.
  induction arg_names as [|key ks IH]; intros Hin.
  - by apply elem_of_nil in Hin.
  - destruct key as [s|w].
    + apply elem_of_cons in Hin as [?|Hin]; [done|].
      destruct (IH Hin) as (before & v' & after & ->).
      by exists (s :: before), v', after.
    + by exists [], w, ks.
Qed.

Lemma keys_of_pydict d : keys (of_pydict d) = KStr <$> pydict_ops.keys d.
Proof.
  unfold keys, of_pydict, pydict_ops.keys.
  rewrite <- !list_fmap_compose. by apply list_fmap_ext.
Qed.

End anydict_facts.

(** ** Customization-argument defaulting *)

Section customization_args_facts.
Import anydict_ops.

Variable rehash : anydict → anydict.
Hypothesis rehash_reorders : reorders rehash.

(** A key that is present keeps its value, declared or not. *)
Lemma get_full_keeps customization_args ca_specs k v :
  get k customization_args = Some v →
  get k (_get_full_customization_args rehash customization_args ca_specs)
  = Some v.
Proof.
  unfold _get_full_customization_args.
  revert customization_args.
  induction ca_specs as [|s ca_specs IH]; intros d Hk; simpl; [done|].
  apply IH. destruct (contains (ca_name s) d) eqn:Hc; [done|].
  apply any_contains_false in Hc. rewrite any_get_set by done.
  case_decide; congruence.
Qed.

(** A missing name is filled from the first spec that declares it. *)
Lemma get_full_fills customization_args before ca_spec after :
  ca_name ca_spec ∉ ca_name <$> before →
  get (ca_name ca_spec) customization_args = None →
  get (ca_name ca_spec)
      (_get_full_customization_args rehash customization_args
         (before ++ ca_spec :: after))
  = Some (default_entry ca_spec).
Proof.
  unfold _get_full_customization_args.
  revert customization_args.
  induction before as [|s before IH]; intros d Hnot Hnone; simpl.
  - apply any_contains_false in Hnone. rewrite Hnone.
    apply get_full_keeps. rewrite any_get_set by done. by case_decide.
  - rewrite fmap_cons, not_elem_of_cons in Hnot. destruct Hnot as [Hne Hnot].
    apply IH; [done|].
    destruct (contains (ca_name s) d); [done|].
    rewrite any_get_set by done. case_decide; congruence.
Qed.

(** After defaulting every declared name is a key. *)
Lemma get_full_declared customization_args ca_specs name :
  name ∈ ca_name <$> ca_specs →
  is_Some (get name
             (_get_full_customization_args rehash customization_args ca_specs)).
Proof.
  unfold _get_full_customization_args.
  revert customization_args.
  induction ca_specs as [|s ca_specs IH]; intros d Hin; simpl.
  - inversion Hin.
  - rewrite fmap_cons, elem_of_cons in Hin.
    destruct (decide (name = ca_name s)) as [->|Hne].
    + destruct (contains (ca_name s) d) eqn:Hc.
      * apply any_contains_spec in Hc as [v Hv].
        exists v. by apply (get_full_keeps d ca_specs).
      * eexists. apply (get_full_keeps _ ca_specs).
        rewrite any_get_set by done. by case_decide.
    + apply IH. naive_solver.
Qed.

(** Defaulting adds declared names only, and takes no key away. *)
Lemma get_full_keys customization_args ca_specs k :
  is_Some (get k
             (_get_full_customization_args rehash customization_args ca_specs)) →
  is_Some (get k customization_args) ∨ k ∈ ca_name <$> ca_specs.
Proof.
  unfold _get_full_customization_args.
  revert customization_args.
  induction ca_specs as [|s ca_specs IH]; intros d Hk; simpl in *; [by left|].
  apply IH in Hk as [Hk|Hk]; [|right; set_solver].
  destruct (contains (ca_name s) d); [by left|].
  rewrite any_get_set in Hk by done. case_decide; [|by left].
  right. subst. set_solver.
Qed.

Lemma elem_of_keys_get_full customization_args ca_specs key :
  key ∈ keys (_get_full_customization_args rehash customization_args ca_specs)
  ↔ key ∈ keys customization_args
    ∨ ∃ name, key = KStr name ∧ name ∈ ca_name <$> ca_specs.
Proof.
  unfold _get_full_customization_args.
  revert customization_args.
  induction ca_specs as [|s ca_specs IH]; intros d; simpl.
  - split; [by left|]. intros [?|(? & _ & Hin)]; [done|].
    by apply elem_of_nil in Hin.
  - rewrite IH. destruct (contains (ca_name s) d) eqn:Hc.
    + apply any_contains_spec, any_get_is_Some_keys in Hc.
      split; [set_solver|].
      intros [?|(name & -> & [->|?]%elem_of_cons)]; [by left|by left|].
      right. by exists name.
    + rewrite elem_of_keys_set by done. split.
      * intros [[->|?]|(name & -> & ?)]; [|by left|].
        -- right. exists (ca_name s). split; [done|left].
        -- right. exists name. split; [done|by right].
      * intros [?|(name & -> & [->|?]%elem_of_cons)].
        -- left. by right.
        -- left. by left.
        -- right. by exists name.
Qed.

Variable normalize_against_schema : pyval → pyval → result pyval.

Lemma normalize_customization_arg_keys d ca_spec :
  keys (normalize_customization_arg normalize_against_schema d ca_spec)
  = keys d.
Proof.
  unfold normalize_customization_arg, getitem.
  destruct (get (ca_name ca_spec) d) as [entry|] eqn:He; simpl; [|done].
  destruct entry as [| | | | |e]; simpl; try done.
  unfold pydict_ops.getitem. destruct (pydict_ops.get "value" e); simpl; [|done].
  destruct (normalize_against_schema _ _); simpl; [|done].
  apply keys_replace.
Qed.

Lemma foldl_normalize_keys d ca_specs :
  keys (foldl (normalize_customization_arg normalize_against_schema) d ca_specs)
  = keys d.
Proof.
  revert d. induction ca_specs as [|s ca_specs IH]; intros d; simpl; [done|].
  by rewrite IH, normalize_customization_arg_keys.
Qed.

Lemma collect_extra_args_names item_name item_type ca_spec_names l :
  collect_extra_args item_name item_type ca_spec_names (KStr <$> l)
  = (unsupported_arg_warning item_name item_type
       <$> filter (λ k, k ∉ ca_spec_names) l,
     Ok (filter (λ k, k ∉ ca_spec_names) l)).
Proof.
  induction l as [|k l IH]; [done|].
  rewrite fmap_cons. cbn [collect_extra_args]. rewrite IH, filter_cons.
  destruct (decide (k ∈ ca_spec_names)) as [Hin|Hnot].
  - by rewrite decide_False by auto.
  - by rewrite decide_True by done.
Qed.

Lemma collect_extra_args_other item_name item_type ca_spec_names before v after :
  collect_extra_args item_name item_type ca_spec_names
    ((KStr <$> before) ++ KOther v :: after)
  = (unsupported_arg_warning item_name item_type
       <$> filter (λ k, k ∉ ca_spec_names) before,
     Raise (ValidationError "Invalid customization arg name: %s" [ArgVal v])).
Proof.
  induction before as [|k l IH]; [done|].
  rewrite fmap_cons. cbn [app collect_extra_args]. rewrite IH, filter_cons.
  destruct (decide (k ∈ ca_spec_names)) as [Hin|Hnot].
  - by rewrite decide_False by auto.
  - by rewrite decide_True by done.
Qed.

(** On a dict whose keys are all strings the function returns, leaves
    exactly the declared names in the dict and logs one warning for each
    key it deletes. *)
Lemma validate_customization_args_names item_name item_type customization_args
    ca_specs :
  (∀ v, KOther v ∉ keys customization_args) →
  ∃ l d,
    keys (_get_full_customization_args rehash customization_args ca_specs)
    = KStr <$> l
    ∧ validate_customization_args_dict normalize_against_schema rehash
        item_name item_type customization_args ca_specs
      = (unsupported_arg_warning item_name item_type
           <$> filter (λ k, k ∉ ca_name <$> ca_specs) l,
         ArgsDict d, Ok ())
    ∧ (∀ key, key ∈ keys d
              ↔ ∃ name, key = KStr name ∧ name ∈ ca_name <$> ca_specs)
    ∧ (∀ k, k ∈ filter (λ k, k ∉ ca_name <$> ca_specs) l
            ↔ KStr k ∈ keys customization_args ∧ k ∉ ca_name <$> ca_specs).
Proof.
  intros Hstr.
  destruct (keys_all_names
              (keys (_get_full_customization_args rehash customization_args
                       ca_specs))) as [l Hl].
  { intros v [Hv|(name & ? & _)]%elem_of_keys_get_full; [|done].
    by apply (Hstr v). }
  unfold validate_customization_args_dict. rewrite Hl.
  rewrite collect_extra_args_names. eexists l, _.
  split; [done|]. split; [reflexivity|]. split.
  - intros key. rewrite foldl_normalize_keys, elem_of_keys_foldl_del, Hl.
    rewrite list_elem_of_fmap. split.
    + intros [(name & -> & Hin) Hkept]. exists name. split; [done|].
      destruct (decide (name ∈ ca_name <$> ca_specs)) as [?|Hnot]; [done|].
      exfalso. apply (Hkept name); [|done].
      apply list_elem_of_filter. done.
    + intros (name & -> & Hin). split.
      * exists name. split; [done|].
        assert (KStr name ∈ KStr <$> l) as Hk.
        { rewrite <- Hl. apply elem_of_keys_get_full. right. by exists name. }
        apply list_elem_of_fmap in Hk as (name' & [= ->] & ?). done.
      * intros e [Hnot _]%list_elem_of_filter [= ->]. done.
  - intros k. rewrite list_elem_of_filter.
    assert (k ∈ l ↔ KStr k ∈ KStr <$> l) as ->.
    { rewrite list_elem_of_fmap. split; [by exists k|].
      by intros (k' & [= ->] & ?). }
    rewrite <- Hl, elem_of_keys_get_full. split.
    + intros [Hnot [?|(name & [= ->] & ?)]]; done.
    + intros [? ?]. split; [done|by left].
Qed.

(** On a dict with a key that is not a string the function raises at the
    first such key, after the defaults have been added and before anything
    is deleted. *)
Lemma validate_customization_args_other item_name item_type customization_args
    ca_specs v :
  KOther v ∈ keys customization_args →
  ∃ before v' after,
    keys (_get_full_customization_args rehash customization_args ca_specs)
    = (KStr <$> before) ++ KOther v' :: after
    ∧ KOther v' ∈ keys customization_args
    ∧ validate_customization_args_dict normalize_against_schema rehash
        item_name item_type customization_args ca_specs
      = (unsupported_arg_warning item_name item_type
           <$> filter (λ k, k ∉ ca_name <$> ca_specs) before,
         ArgsDict (_get_full_customization_args rehash customization_args
                     ca_specs),
         Raise (ValidationError "Invalid customization arg name: %s"
                  [ArgVal v'])).
Proof.
  intros Hin.
  destruct (keys_first_other
              (keys (_get_full_customization_args rehash customization_args
                       ca_specs)) v) as (before & v' & after & Hkeys).
  { apply elem_of_keys_get_full. by left. }
  exists before, v', after. split; [done|]. split.
  - assert (KOther v' ∈ keys (_get_full_customization_args rehash
                                customization_args ca_specs)) as Hv'.
    { rewrite Hkeys. apply elem_of_app. right. left. }
    apply elem_of_keys_get_full in Hv' as [?|(name & ? & _)]; done.
  - unfold validate_customization_args_dict.
    rewrite Hkeys, collect_extra_args_other. done.
Qed.

End customization_args_facts.

(** ** C9: what [_get_full_customization_args] returns *)

(** C9, as amended.  For the spec list [[{name: "x", default_value: 5}]] and
    the input [{}], [_get_full_customization_args] returns
    [{"x": {"value": 5}}]; in general a declared name that is missing from
    the input is filled with [{'value': default_value}] of the first spec
    that declares it, and every key of the input, declared or not, keeps its
    value.  The undeclared keys are deleted by
    [_validate_customization_args_and_values]: on a dict whose keys are all
    strings it returns and leaves exactly the declared names in the dict; on
    a dict with a key that is not a string it raises [ValidationError] and
    deletes nothing.  All this holds in whatever order Python 2 walks the
    dict after a default has been inserted. *)
Theorem C9_get_full_customization_args_fills_defaults
    (rehash : anydict → anydict) :
  anydict_ops.reorders rehash →
  _get_full_customization_args rehash [] [Examples.spec_x]
    = [(KStr "x", PDict [("value", PInt 5)])]
  ∧ (∀ customization_args before ca_spec after,
       ca_name ca_spec ∉ ca_name <$> before →
       anydict_ops.get (ca_name ca_spec) customization_args = None →
       anydict_ops.get (ca_name ca_spec)
         (_get_full_customization_args rehash customization_args
            (before ++ ca_spec :: after))
       = Some (default_entry ca_spec))
  ∧ (∀ customization_args ca_specs k v,
       anydict_ops.get k customization_args = Some v →
       anydict_ops.get k
         (_get_full_customization_args rehash customization_args ca_specs)
       = Some v)
  ∧ (∀ normalize_against_schema item_name item_type customization_args ca_specs,
       (∀ v, KOther v ∉ anydict_ops.keys customization_args) →
       ∃ log d,
         _validate_customization_args_and_values normalize_against_schema
           rehash item_name item_type (ArgsDict customization_args) ca_specs
         = (log, ArgsDict d, Ok ())
         ∧ ∀ key, key ∈ anydict_ops.keys d
                  ↔ ∃ name, key = KStr name ∧ name ∈ ca_name <$> ca_specs)
  ∧ (∀ normalize_against_schema item_name item_type customization_args ca_specs
       v,
       KOther v ∈ anydict_ops.keys customization_args →
       ∃ log v',
         KOther v' ∈ anydict_ops.keys customization_args
         ∧ _validate_customization_args_and_values normalize_against_schema
             rehash item_name item_type (ArgsDict customization_args) ca_specs
           = (log,
              ArgsDict (_get_full_customization_args rehash customization_args
                          ca_specs),
              Raise (ValidationError "Invalid customization arg name: %s"
                       [ArgVal v']))).
Proof.
  intros Hrehash. split; [|split; [|split; [|split]]].
  - unfold _get_full_customization_args. simpl.
    unfold anydict_ops.set. simpl.
    apply Permutation_singleton_r, (proj1 (Hrehash _)).
  - by apply get_full_fills.
  - by apply get_full_keeps.
  - intros norm item_name item_type d ca_specs Hstr.
    destruct (validate_customization_args_names rehash Hrehash norm
                item_name item_type d ca_specs Hstr)
      as (l & d' & _ & Heq & Hkeys & _).
    by eexists _, d'.
  - intros norm item_name item_type d ca_specs v Hin.
    destruct (validate_customization_args_other rehash Hrehash norm
                item_name item_type d ca_specs v Hin)
      as (before & v' & after & _ & Hv' & Heq).
    by eexists _, v'.
Qed.

(** The parts of C9 at the input [{"y": {"value": 1}}] and the spec list of
    the claim, in a table where a new key lands behind the others. *)
Lemma C9_witness :
  anydict_ops.get "x"
    (_get_full_customization_args Examples.new_key_last Examples.args_with_y
       ([] ++ Examples.spec_x :: []))
  = Some (PDict [("value", PInt 5)])
  ∧ anydict_ops.get "y"
      (_get_full_customization_args Examples.new_key_last Examples.args_with_y
         [Examples.spec_x])
    = Some (PDict [("value", PInt 1)]).
Proof.
  destruct (C9_get_full_customization_args_fills_defaults
              Examples.new_key_last) as (_ & Hfill & Hkeep & _).
  - intros d. split; [reflexivity|intros k; reflexivity].
  - split.
    + apply (Hfill Examples.args_with_y [] Examples.spec_x []).
      * simpl. intros H. inversion H.
      * reflexivity.
    + apply (Hkeep Examples.args_with_y [Examples.spec_x] "y"). reflexivity.
Defined.

(** C9 as stated fails: with the undeclared key ["y"] in the input, the dict
    returned by [_get_full_customization_args] still has ["y"]. *)
Lemma C9_counterexample :
  ¬ (anydict_ops.contains "y"
       (_get_full_customization_args Examples.new_key_last
          Examples.args_with_y [Examples.spec_x])
     = false).
Proof. vm_compute. discriminate. Qed.

(** ** C8: [RuleSpec.validate] on missing and on extra input keys *)

Section rule_spec_facts.

Lemma rule_params_dict_lookup_None rule_params_list k :
  k ∉ rule_params_list.*1 →
  RuleSpec.rule_params_dict rule_params_list !! k = None.
Proof.
  unfold RuleSpec.rule_params_dict.
  assert (∀ (m : gmap string ParamObj), m !! k = None →
            k ∉ rule_params_list.*1 →
            foldl (λ m rp, <[rp.1 := rp.2]> m) m rule_params_list !! k = None)
    as H; [|intros Hk; apply H; [apply lookup_empty|exact Hk]].
  induction rule_params_list as [|[n o] l IH]; intros m Hm Hk; simpl; [done|].
  rewrite fmap_cons, not_elem_of_cons in Hk. destruct Hk as [Hne Hk].
  apply IH; [|done]. simpl. by rewrite lookup_insert_ne.
Qed.

(** The loop over the inputs cannot get past a key that is not a declared
    parameter: [rule_params_dict[param_name]] raises [KeyError]. *)
Lemma validate_inputs_unknown_key rt rule_params exp_param_specs_dict items k :
  k ∈ pydict_ops.keys items →
  rule_params !! k = None →
  raises (RuleSpec.validate_inputs rt rule_params exp_param_specs_dict items).
Proof.
  unfold pydict_ops.keys. intros Hk Hnone.
  induction items as [|[k0 v0] items IH]; simpl in *; [inversion Hk|].
  destruct (RuleSpec.validate_input rt rule_params exp_param_specs_dict k0 v0)
    as [[]|e] eqn:Hstep; simpl; [|done].
  apply elem_of_cons in Hk as [->|Hk]; [|by apply IH].
  unfold RuleSpec.validate_input in Hstep. rewrite Hnone in Hstep.
  simpl in Hstep. discriminate.
Qed.

(** A declared parameter that is missing from the inputs is fatal. *)
Lemma validate_missing_input self self_inputs rule_params_list
    exp_param_specs_dict name :
  inputs self = PDict self_inputs →
  name ∈ rule_params_list.*1 →
  name ∉ pydict_ops.keys self_inputs →
  ∃ log leftover_param_names,
    RuleSpec.validate self rule_params_list exp_param_specs_dict
    = (log, Raise (ValidationError "RuleSpec '%s' is missing inputs: %s"
                     [ArgStr (rule_type self); ArgSet leftover_param_names]))
    ∧ name ∈ leftover_param_names.
Proof.
  intros Hin Hdecl Hmiss. unfold RuleSpec.validate. rewrite Hin.
  destruct (decide (list_to_set (_.*1) ∖ _ = ∅)) as [Hempty|Hne].
  - exfalso.
    assert (name ∈ (∅ : gset string)) as H; [|set_solver].
    rewrite <- Hempty. set_solver.
  - eexists _, _. split; [reflexivity|]. set_solver.
Qed.

(** An input key that is not a declared parameter is logged, and then
    the call never completes: it ends in an exception. *)
Lemma validate_extra_input_never_completes self self_inputs rule_params_list
    exp_param_specs_dict k :
  inputs self = PDict self_inputs →
  k ∈ pydict_ops.keys self_inputs →
  k ∉ rule_params_list.*1 →
  ∃ w, (RuleSpec.validate self rule_params_list exp_param_specs_dict).1 = [w]
  ∧ raises (RuleSpec.validate self rule_params_list exp_param_specs_dict).2.
Proof.
  intros Hin Hk Hextra. unfold RuleSpec.validate. rewrite Hin.
  destruct (decide (list_to_set (pydict_ops.keys _) ∖ _ = ∅)) as [Hempty|_].
  { exfalso.
    assert (k ∈ (∅ : gset string)) as H; [|set_solver].
    rewrite <- Hempty. set_solver. }
  destruct (decide (_ ∖ _ = ∅)); simpl.
  - eexists. split; [reflexivity|].
    eapply validate_inputs_unknown_key; [done|].
    by apply rule_params_dict_lookup_None.
  - eexists. split; [reflexivity|done].
Qed.

End rule_spec_facts.

(** C8 at the inputs [{"x": 1, "y": 2}] of a rule whose only declared
    parameter is ["x"]: the warning about ["y"] is logged, no input is
    missing, and the loop over the inputs then raises [KeyError: 'y'] at
    [rule_params_dict[param_name]]; the call does not complete.  With no
    inputs at all the missing ["x"] is a [ValidationError]. *)
Theorem C8_extra_input_key_raises_KeyError :
  RuleSpec.validate Examples.rule_with_extra_input [("x", Examples.int_obj)] ∅
  = ([Warning
        "RuleSpec '%s' has inputs which are not recognized parameter names: %s"
        [ArgStr "Equals"; ArgSet {["y"]}]],
     Raise (KeyError "y"))
  ∧ RuleSpec.validate Examples.rule_missing_input [("x", Examples.int_obj)] ∅
    = ([], Raise (ValidationError "RuleSpec '%s' is missing inputs: %s"
                    [ArgStr "Equals"; ArgSet {["x"]}])).
Proof. split; vm_compute; reflexivity. Qed.

(** ** C10: [State.update_interaction_fallbacks] *)

Section update_interaction_fallbacks_facts.

Variable clean : string → string.

Lemma hint_list_foldl (acc : list pyval) fbs :
  foldl (λ hint_list fb,
           match feedback (fallback_outcome fb) with
           | [] => hint_list
           | first :: _ => hint_list ++ [Hint.to_dict (Hint.init clean first)]
           end) acc fbs
  = acc ++ ((λ first, Hint.to_dict (Hint.init clean first))
            <$> omap first_feedback fbs).
Proof.
  revert acc. induction fbs as [|fb fbs IH]; intros acc; simpl.
  - by rewrite app_nil_r.
  - rewrite IH. unfold first_feedback at 2.
    destruct (feedback (fallback_outcome fb)); simpl; [done|].
    by rewrite <- app_assoc.
Qed.

Lemma hints_from_dicts (texts : list string) :
  mapM_result (Hint.from_dict clean)
    ((λ first, Hint.to_dict (Hint.init clean first)) <$> texts)
  = Ok ((λ first, {| hint_text := clean (clean first) |}) <$> texts).
Proof.
  induction texts as [|t texts IH]; [done|].
  rewrite fmap_cons. cbn [mapM_result]. rewrite IH. reflexivity.
Qed.

Lemma update_interaction_fallbacks_nonempty self l fbs :
  l ≠ [] →
  mapM_result (Fallback.from_dict clean) l = Ok fbs →
  State.update_interaction_fallbacks clean (PList l) self
  = (State.with_interaction self
       (InteractionInstance.with_hints
          (InteractionInstance.with_fallbacks (interaction self) fbs)
          ((λ first, {| hint_text := clean (clean first) |})
           <$> omap first_feedback fbs)),
     Ok ()).
Proof.
  intros Hne Hfbs.
  unfold State.update_interaction_fallbacks, mbind, stateful_bind, lift.
  rewrite Hfbs. simpl.
  destruct fbs as [|fb fbs].
  { destruct l as [|x l]; [done|]. simpl in Hfbs.
    destruct (Fallback.from_dict clean x); simpl in Hfbs; [|done].
    destruct (mapM_result _ l); simpl in Hfbs; done. }
  unfold State.hint_list_of.
  rewrite hint_list_foldl. simpl app.
  unfold State.update_interaction_hints, mbind, stateful_bind, lift.
  rewrite hints_from_dicts. reflexivity.
Qed.

Lemma update_interaction_fallbacks_empty self :
  State.update_interaction_fallbacks clean (PList []) self
  = (State.with_interaction self
       (InteractionInstance.with_fallbacks (interaction self) []),
     Raise (UnboundLocalError "hint_list")).
Proof. reflexivity. Qed.

End update_interaction_fallbacks_facts.

(** C10.  With a non-empty list of fallback dicts (dicts that
    [Fallback.from_dict] accepts), [update_interaction_fallbacks] stores the
    fallbacks and replaces the hints of the interaction by one hint per
    fallback whose feedback is not empty, made from the first feedback line
    (cleaned by [Hint.__init__] and again by [Hint.from_dict]).  With the
    empty list it raises [UnboundLocalError], a [NameError], for
    [hint_list], after it has stored the empty list of fallbacks. *)
Theorem C10_update_interaction_fallbacks_total_on_nonempty_only
    (clean : string → string) (self : State) :
  (∀ l fbs,
     l ≠ [] →
     mapM_result (Fallback.from_dict clean) l = Ok fbs →
     ∃ self',
       State.update_interaction_fallbacks clean (PList l) self = (self', Ok ())
       ∧ fallbacks (interaction self') = fbs
       ∧ hints (interaction self')
         = (λ first, {| hint_text := clean (clean first) |})
           <$> omap first_feedback fbs)
  ∧ (∃ self' e,
       State.update_interaction_fallbacks clean (PList []) self
       = (self', Raise e)
       ∧ is_NameError e = true
       ∧ e = UnboundLocalError "hint_list"
       ∧ fallbacks (interaction self') = []
       ∧ hints (interaction self') = hints (interaction self)).
Proof.
  split.
  - intros l fbs Hne Hfbs. eexists. split.
    + by apply update_interaction_fallbacks_nonempty.
    + done.
  - eexists _, _. split; [apply update_interaction_fallbacks_empty|done].
Qed.

(** C10 at two fallback dicts, the first with the feedback lines
    ["<b>Try", "again"], the second with none. *)
Lemma C10_witness :
  ∃ self',
    State.update_interaction_fallbacks Examples.drop_lt
      (PList [Examples.fallback_dict "A" ["<b>Try"; "again"];
              Examples.fallback_dict "B" []])
      (Examples.state_to "A")
    = (self', Ok ())
    ∧ hints (interaction self') = [ {| hint_text := "b>Try" |} ].
Proof.
  destruct (C10_update_interaction_fallbacks_total_on_nonempty_only
              Examples.drop_lt (Examples.state_to "A")) as [Hnonempty _].
  destruct (Hnonempty
              [Examples.fallback_dict "A" ["<b>Try"; "again"];
               Examples.fallback_dict "B" []]
              _ ltac:(discriminate) eq_refl)
    as (self' & Heq & _ & Hhints).
  exists self'. split; [exact Heq|]. rewrite Hhints. reflexivity.
Defined.

(** ** C1 and C5: the migration driver and its two entry points *)

Section yaml_migration_facts.
Import Exploration.

Variable dict_from_yaml : string → result pyval.
Variable convert_dict : Z → option string → option string → pyval → result pyval.
Variable from_dict : pyval → result Exploration.
Variable rehash : pydict → pydict.

Lemma migration_step_skip N title category d v :
  py_eq_int v N = false →
  migration_step convert_dict N title category (d, v) = Ok (d, v).
Proof. intros H. unfold migration_step. by rewrite H. Qed.

(** At the current version no block of the driver fires. *)
Lemma migrate_current yaml_content title category d :
  dict_from_yaml yaml_content = Ok (PDict d) →
  pydict_ops.get "schema_version" d = Some (PInt CURRENT_EXP_SCHEMA_VERSION) →
  _migrate_to_latest_yaml_version dict_from_yaml convert_dict
    yaml_content title category
  = Ok (PDict d, PInt CURRENT_EXP_SCHEMA_VERSION).
Proof.
  intros Hparse Hv. unfold _migrate_to_latest_yaml_version.
  rewrite Hparse. simpl. rewrite Hv. simpl.
  repeat (rewrite migration_step_skip by reflexivity; simpl).
  reflexivity.
Qed.

(** When the driver returns, the version it returns is the one the
    document declared, and that version passed the range check. *)
Lemma migrate_returns_declared yaml_content title category d v :
  _migrate_to_latest_yaml_version dict_from_yaml convert_dict
    yaml_content title category = Ok (d, v) →
  ∃ doc, dict_from_yaml yaml_content = Ok doc
         ∧ get_schema_version doc = Ok v
         ∧ is_None v = false
         ∧ py_int_le 1 v = true
         ∧ py_le_int v CURRENT_EXP_SCHEMA_VERSION = true.
Proof.
  unfold _migrate_to_latest_yaml_version.
  destruct (dict_from_yaml yaml_content) as [doc|]; [|done].
  destruct (get_schema_version doc) as [v0|] eqn:Hv0; simpl; [|done].
  destruct (is_None v0) eqn:Hnone; [done|].
  destruct (py_int_le 1 v0) eqn:Hlo; simpl; [|done].
  destruct (py_le_int v0 CURRENT_EXP_SCHEMA_VERSION) eqn:Hhi; simpl; [|done].
  intros H.
  repeat (apply bind_Ok_inv in H as (? & _ & H)).
  injection H as _ <-. eauto 10.
Qed.

Lemma from_yaml_raises_at_most_9 exploration_id yaml_content doc v z :
  dict_from_yaml yaml_content = Ok doc →
  get_schema_version doc = Ok v →
  py_number v = Some z →
  (z ≤ LAST_UNTITLED_SCHEMA_VERSION)%Z →
  raises (from_yaml dict_from_yaml convert_dict from_dict rehash
            exploration_id yaml_content).
Proof.
  intros Hparse Hv Hnum Hz. unfold from_yaml.
  destruct (_migrate_to_latest_yaml_version _ _ _ _ _) as [[d v']|] eqn:Hm;
    simpl; [|done].
  apply migrate_returns_declared in Hm as (doc' & Hparse' & Hv' & _).
  assert (v' = v) as -> by congruence.
  assert (py_le_int v LAST_UNTITLED_SCHEMA_VERSION = true) as ->; [|done].
  unfold py_le_int. destruct v; simpl in *; try done;
    simplify_eq; by apply bool_decide_eq_true.
Qed.

Lemma from_untitled_yaml_raises_from_10 exploration_id title category
    yaml_content doc v z :
  dict_from_yaml yaml_content = Ok doc →
  get_schema_version doc = Ok v →
  py_number v = Some z →
  (LAST_UNTITLED_SCHEMA_VERSION < z)%Z →
  raises (from_untitled_yaml dict_from_yaml convert_dict from_dict rehash
            exploration_id title category yaml_content).
Proof.
  intros Hparse Hv Hnum Hz. unfold from_untitled_yaml.
  destruct (_migrate_to_latest_yaml_version _ _ _ _ _) as [[d v']|] eqn:Hm;
    simpl; [|done].
  apply migrate_returns_declared in Hm as (doc' & Hparse' & Hv' & _).
  assert (v' = v) as -> by congruence.
  assert (py_le_int v LAST_UNTITLED_SCHEMA_VERSION = false) as ->; [|done].
  unfold py_le_int. destruct v; simpl in *; try done;
    simplify_eq; apply bool_decide_eq_false; lia.
Qed.

Lemma migrate_no_version yaml_content title category doc :
  dict_from_yaml yaml_content = Ok doc →
  get_schema_version doc = Ok PNone →
  _migrate_to_latest_yaml_version dict_from_yaml convert_dict
    yaml_content title category
  = Raise (Exception_ "Invalid YAML file: no schema version specified." []).
Proof.
  intros Hparse Hv. unfold _migrate_to_latest_yaml_version.
  rewrite Hparse, Hv. reflexivity.
Qed.

Lemma migrate_out_of_range yaml_content title category doc v z :
  dict_from_yaml yaml_content = Ok doc →
  get_schema_version doc = Ok v →
  py_number v = Some z →
  (z < 1 ∨ CURRENT_EXP_SCHEMA_VERSION < z)%Z →
  _migrate_to_latest_yaml_version dict_from_yaml convert_dict
    yaml_content title category
  = Raise (Exception_
      "Sorry, we can only process v1 to v%s exploration YAML files at present."
      [ArgInt CURRENT_EXP_SCHEMA_VERSION]).
Proof.
  intros Hparse Hv Hnum Hz. unfold _migrate_to_latest_yaml_version.
  rewrite Hparse, Hv. simpl.
  assert (is_None v = false) as -> by (by destruct v).
  assert (py_int_le 1 v && py_le_int v CURRENT_EXP_SCHEMA_VERSION = false)
    as ->; [|done].
  unfold py_int_le, py_le_int.
  destruct v; simpl in *; try done; simplify_eq;
    apply andb_false_iff;
    rewrite !bool_decide_eq_false; unfold CURRENT_EXP_SCHEMA_VERSION in *; lia.
Qed.

Lemma entry_points_raise_with_driver exploration_id title category
    yaml_content e :
  (∀ t c, _migrate_to_latest_yaml_version dict_from_yaml convert_dict
            yaml_content t c = Raise e) →
  from_yaml dict_from_yaml convert_dict from_dict rehash exploration_id yaml_content
  = Raise e
  ∧ from_untitled_yaml dict_from_yaml convert_dict from_dict rehash
      exploration_id title category yaml_content
    = Raise e.
Proof.
  intros H. unfold from_yaml, from_untitled_yaml. by rewrite !H.
Qed.

End yaml_migration_facts.

(** C1.  Whatever the conversion steps are, for a document whose
    [schema_version] is the current version 15 the driver
    [_migrate_to_latest_yaml_version] returns the parsed document as it is,
    with 15 as its initial version: no step is applied. *)
Theorem C1_migrate_current_version_unchanged
    (dict_from_yaml : string → result pyval)
    (convert_dict : Z → option string → option string → pyval → result pyval)
    (yaml_content : string) (title category : option string) (d : pydict) :
  dict_from_yaml yaml_content = Ok (PDict d) →
  pydict_ops.get "schema_version" d = Some (PInt 15) →
  Exploration._migrate_to_latest_yaml_version dict_from_yaml convert_dict
    yaml_content title category
  = Ok (PDict d, PInt 15).
Proof. apply migrate_current. Qed.

(** C1 at a version 15 document, with conversion steps that would all
    raise if one of them were called. *)
Lemma C1_witness :
  Exploration._migrate_to_latest_yaml_version
    (Examples.parse_as (PInt 15)) Examples.convert_fails "doc" None None
  = Ok (PDict [("schema_version", PInt 15); ("states", PDict [])], PInt 15).
Proof.
  apply (C1_migrate_current_version_unchanged
           (Examples.parse_as (PInt 15)) Examples.convert_fails "doc" None None
           [("schema_version", PInt 15); ("states", PDict [])]);
    reflexivity.
Defined.

(** C5.  For a parsed document that is a dict: [from_yaml] raises when the
    declared [schema_version] is at most 9; [from_untitled_yaml] raises when
    it is 10 or more; and when the version is missing, or is below 1 or
    above 15, the driver raises [Exception] and both entry points raise that
    same exception. *)
Theorem C5_yaml_entry_points_route_by_version
    (dict_from_yaml : string → result pyval)
    (convert_dict : Z → option string → option string → pyval → result pyval)
    (from_dict : pyval → result Exploration)
    (rehash : pydict → pydict)
    (exploration_id title category yaml_content : string) (d : pydict) :
  dict_from_yaml yaml_content = Ok (PDict d) →
  (∀ z, pydict_ops.get "schema_version" d = Some (PInt z) → (z ≤ 9)%Z →
        raises (Exploration.from_yaml dict_from_yaml convert_dict from_dict rehash
                  exploration_id yaml_content))
  ∧ (∀ z, pydict_ops.get "schema_version" d = Some (PInt z) → (10 ≤ z)%Z →
          raises (Exploration.from_untitled_yaml dict_from_yaml convert_dict
                    from_dict rehash exploration_id title category yaml_content))
  ∧ (pydict_ops.get "schema_version" d = None →
       let e := Exception_ "Invalid YAML file: no schema version specified." [] in
       Exploration.from_yaml dict_from_yaml convert_dict from_dict rehash
         exploration_id yaml_content = Raise e
       ∧ Exploration.from_untitled_yaml dict_from_yaml convert_dict from_dict rehash
           exploration_id title category yaml_content = Raise e)
  ∧ (∀ z, pydict_ops.get "schema_version" d = Some (PInt z) →
          (z < 1 ∨ 15 < z)%Z →
          let e := Exception_
            "Sorry, we can only process v1 to v%s exploration YAML files at present."
            [ArgInt 15] in
          Exploration.from_yaml dict_from_yaml convert_dict from_dict rehash
            exploration_id yaml_content = Raise e
          ∧ Exploration.from_untitled_yaml dict_from_yaml convert_dict from_dict rehash
              exploration_id title category yaml_content = Raise e).
Proof.
  intros Hparse. split; [|split; [|split]].
  - intros z Hv Hz.
    eapply (from_yaml_raises_at_most_9 _ _ _ _ _ _ _ (PInt z) z); eauto.
    simpl. by rewrite Hv.
  - intros z Hv Hz.
    eapply (from_untitled_yaml_raises_from_10 _ _ _ _ _ _ _ _ _ (PInt z) z); eauto.
    + simpl. by rewrite Hv.
    + unfold Exploration.LAST_UNTITLED_SCHEMA_VERSION. lia.
  - intros Hnone e. apply entry_points_raise_with_driver. intros t c.
    eapply migrate_no_version; [done|]. simpl. by rewrite Hnone.
  - intros z Hv Hz e. apply entry_points_raise_with_driver. intros t c.
    eapply (migrate_out_of_range _ _ _ _ _ _ (PInt z) z); eauto.
    simpl. by rewrite Hv.
Qed.

(** C5 at documents of version 9, 10 and 16 and at one without a version;
    the conversion steps keep the dict as it is. *)
Lemma C5_witness :
  raises (Exploration.from_yaml (Examples.parse_as (PInt 9))
            Examples.convert_keeps Examples.from_dict_fails Examples.new_key_last "exp" "doc")
  ∧ raises (Exploration.from_untitled_yaml (Examples.parse_as (PInt 10))
              Examples.convert_keeps Examples.from_dict_fails Examples.new_key_last
              "exp" "Title" "Category" "doc")
  ∧ raises (Exploration.from_yaml Examples.parse_without_version
              Examples.convert_keeps Examples.from_dict_fails Examples.new_key_last "exp" "doc")
  ∧ raises (Exploration.from_untitled_yaml (Examples.parse_as (PInt 16))
              Examples.convert_keeps Examples.from_dict_fails Examples.new_key_last
              "exp" "Title" "Category" "doc").
Proof.
  split; [|split; [|split]].
  - refine (proj1 (C5_yaml_entry_points_route_by_version
             (Examples.parse_as (PInt 9)) Examples.convert_keeps
             Examples.from_dict_fails Examples.new_key_last "exp" "Title" "Category" "doc" _ eq_refl)
             9%Z eq_refl _). lia.
  - refine (proj1 (proj2 (C5_yaml_entry_points_route_by_version
             (Examples.parse_as (PInt 10)) Examples.convert_keeps
             Examples.from_dict_fails Examples.new_key_last "exp" "Title" "Category" "doc" _ eq_refl))
             10%Z eq_refl _). lia.
  - destruct (proj1 (proj2 (proj2 (C5_yaml_entry_points_route_by_version
             Examples.parse_without_version Examples.convert_keeps
             Examples.from_dict_fails Examples.new_key_last "exp" "Title" "Category" "doc" _ eq_refl)))
             eq_refl) as [H _].
    rewrite H. exact I.
  - destruct (proj2 (proj2 (proj2 (C5_yaml_entry_points_route_by_version
             (Examples.parse_as (PInt 16)) Examples.convert_keeps
             Examples.from_dict_fails Examples.new_key_last "exp" "Title" "Category" "doc" _ eq_refl)))
             16%Z eq_refl ltac:(lia)) as [_ H].
    rewrite H. exact I.
Defined.

(** ** C2, C6, C7: renaming and deleting a state *)

Section state_operation_facts.
Import Exploration.

Lemma get_all_outcomes_update f i :
  InteractionInstance.get_all_outcomes
    (InteractionInstance.update_all_outcomes f i)
  = f <$> InteractionInstance.get_all_outcomes i.
Proof.
  unfold InteractionInstance.get_all_outcomes,
    InteractionInstance.get_all_non_fallback_outcomes,
    InteractionInstance.update_all_outcomes.
  simpl. destruct (default_outcome i); simpl;
    rewrite ?fmap_app, <- !list_fmap_compose; reflexivity.
Qed.

Lemma dest_redirect from to o :
  dest (redirect from to o) = if decide (dest o = from) then to else dest o.
Proof. unfold redirect. by case_decide. Qed.

Lemma outcomes_redirect_state from to st :
  InteractionInstance.get_all_outcomes (interaction (redirect_state from to st))
  = redirect from to <$> InteractionInstance.get_all_outcomes (interaction st).
Proof. unfold redirect_state. simpl. apply get_all_outcomes_update. Qed.

(** After redirecting away from [from], no outcome of the state leads to
    [from] any more. *)
Lemma redirect_state_clears from to st o :
  to ≠ from →
  o ∈ InteractionInstance.get_all_outcomes (interaction (redirect_state from to st)) →
  dest o ≠ from.
Proof.
  intros Hne. rewrite outcomes_redirect_state.
  intros (o' & -> & _)%list_elem_of_fmap.
  rewrite dest_redirect. by case_decide.
Qed.

(** What [delete_state] does once its two checks have passed. *)
Lemma delete_state_ok self state_name :
  is_Some (states self !! state_name) →
  init_state_name self ≠ state_name →
  delete_state state_name self
  = (with_states self
       (delete state_name
          (map_imap (λ other_state_name other_state,
                       Some (redirect_state state_name other_state_name
                               other_state))
                    (states self))),
     Ok ()).
Proof.
  intros [st Hst] Hinit.
  unfold delete_state, mbind, stateful_bind, get_self, assign, raise.
  rewrite decide_False by congruence.
  rewrite decide_False by done.
  reflexivity.
Qed.

(** [delete_state] looks at the states and at the initial state name only:
    whatever it returns, the skin and its gadgets are as before. *)
Lemma delete_state_keeps_skin self state_name :
  skin_instance (delete_state state_name self).1 = skin_instance self.
Proof.
  unfold delete_state, mbind, stateful_bind, get_self, assign, raise.
  repeat case_decide; reflexivity.
Qed.

Variable require_valid_name : string → string → result unit.

(** What [rename_state] does once its checks have passed. *)
Lemma rename_state_ok self old_state_name new_state_name old_state :
  states self !! old_state_name = Some old_state →
  old_state_name ≠ new_state_name →
  states self !! new_state_name = None →
  require_valid_name new_state_name "a state name" = Ok () →
  rename_state require_valid_name old_state_name new_state_name self
  = (with_states
       (with_init_state_name self
          (if decide (init_state_name self = old_state_name)
           then new_state_name else init_state_name self))
       (redirect_state old_state_name new_state_name
        <$> delete old_state_name
              (<[new_state_name := old_state]> (states self))),
     Ok ()).
Proof.
  intros Hold Hne Hnew Hvalid.
  unfold rename_state, mbind, stateful_bind, get_self, assign, raise, lift,
    _require_valid_state_name, mret, stateful_ret.
  rewrite Hold.
  rewrite decide_False by (intros [_ [? ?]]; congruence).
  rewrite decide_False by done.
  rewrite Hvalid. simpl.
  destruct (decide (init_state_name self = old_state_name)) as [Hinit|Hinit].
  - unfold update_init_state_name, mbind, stateful_bind, get_self, assign, raise.
    simpl. rewrite decide_False.
    + destruct self; reflexivity.
    + rewrite lookup_delete_ne, lookup_insert_eq by done. done.
  - destruct self; reflexivity.
Qed.

(** [rename_state] never touches the skin either. *)
Lemma rename_state_keeps_skin self old_state_name new_state_name :
  skin_instance
    (rename_state require_valid_name old_state_name new_state_name self).1
  = skin_instance self.
Proof.
  unfold rename_state, mbind, stateful_bind, get_self, assign, raise, lift,
    _require_valid_state_name, mret, stateful_ret.
  destruct (states self !! old_state_name); [|done].
  unfold update_init_state_name, mbind, stateful_bind, get_self, assign, raise.
  repeat (case_decide; try done);
    destruct (require_valid_name _ _); simpl; try done;
    repeat (case_decide; try done).
Qed.

End state_operation_facts.

(** C2.  For a state name [X] that exists and is not the initial state,
    [delete_state X] returns normally; afterwards [X] is not a key of
    [states], every other state is the old one with each outcome that led to
    [X] (answer group, default or fallback) redirected to the name of the
    state itself, and no outcome of any remaining state leads to [X]. *)
Theorem C2_delete_state_rewires_destinations (self : Exploration) (X : string) :
  is_Some (states self !! X) →
  init_state_name self ≠ X →
  ∃ self',
    Exploration.delete_state X self = (self', Ok ())
    ∧ states self' !! X = None
    ∧ dom (states self') = dom (states self) ∖ {[X]}
    ∧ (∀ name, name ≠ X →
         states self' !! name
         = Exploration.redirect_state X name <$> states self !! name)
    ∧ (∀ name st,
         InteractionInstance.get_all_outcomes
           (interaction (Exploration.redirect_state X name st))
         = (λ o, if decide (dest o = X) then Outcome.with_dest o name else o)
           <$> InteractionInstance.get_all_outcomes (interaction st))
    ∧ (∀ name st' o,
         states self' !! name = Some st' →
         o ∈ InteractionInstance.get_all_outcomes (interaction st') →
         dest o ≠ X).
Proof.
  intros HX Hinit. eexists. split; [by apply delete_state_ok|].
  simpl. split; [apply lookup_delete_eq|].
  assert (∀ name, name ≠ X →
            delete X (map_imap (λ n st, Some (Exploration.redirect_state X n st))
                        (states self)) !! name
            = Exploration.redirect_state X name <$> states self !! name) as Hlook.
  { intros name Hne. rewrite lookup_delete_ne by done.
    rewrite map_lookup_imap. by destruct (states self !! name). }
  split; [|split; [exact Hlook|split]].
  - apply set_eq. intros name.
    rewrite elem_of_difference, !elem_of_dom, elem_of_singleton.
    destruct (decide (name = X)) as [->|Hne].
    + rewrite lookup_delete_eq. split; [by intros [? ?]|by intros [_ ?]].
    + rewrite Hlook by done. rewrite fmap_is_Some. naive_solver.
  - intros name st. apply outcomes_redirect_state.
  - intros name st' o Hst' Ho.
    destruct (decide (name = X)) as [->|Hne].
    { by rewrite lookup_delete_eq in Hst'. }
    rewrite Hlook in Hst' by done.
    destruct (states self !! name) as [st|]; [|done].
    injection Hst' as <-.
    by apply (redirect_state_clears X name st).
Qed.

(** C2 at the exploration [A -> B, B -> B] with [X = "B"]: the outcome of
    ["A"] that led to ["B"] now leads to ["A"]. *)
Lemma C2_witness :
  ∃ self',
    Exploration.delete_state "B" Examples.exploration_with_gadget_in_B
    = (self', Ok ())
    ∧ states self' !! "B" = None
    ∧ states self' !! "A" = Some (Examples.state_to "A").
Proof.
  destruct (C2_delete_state_rewires_destinations
              Examples.exploration_with_gadget_in_B "B")
    as (self' & Heq & Hnone & _ & Hlook & _).
  - vm_compute. eauto.
  - discriminate.
  - exists self'. split; [exact Heq|]. split; [exact Hnone|].
    rewrite Hlook by discriminate. vm_compute. reflexivity.
Defined.

(** C6 at one state ["A"] with a gadget visible in ["A"]:
    [rename_state("A", "B")] returns normally, the state, the initial state
    name and the destination are renamed, and the gadget is still visible
    in ["A"], a state that no longer exists, so that the check of
    [validate] on the states required by gadgets now fails.  The helper
    [_update_gadget_visibilities_for_renamed_state], which [rename_state]
    does not call, would have put ["B"] in its place. *)
Theorem C6_rename_state_leaves_gadget_visibility :
  let e := Examples.exploration_with_gadget_in_A in
  let r := Exploration.rename_state Examples.any_name_valid "A" "B" e in
  r.2 = Ok ()
  ∧ init_state_name r.1 = "B"
  ∧ states r.1 !! "A" = None
  ∧ states r.1 !! "B" = Some (Examples.state_to "B")
  ∧ panel_contents_dict (skin_instance r.1) !! "bottom"
    = Some [Examples.gadget_in ["A"]]
  ∧ Exploration.validate_states_required_by_gadgets e = Ok ()
  ∧ Exploration.validate_states_required_by_gadgets r.1
    = Raise (ValidationError "Exploration missing required state%s: %s"
               [ArgStr ""; ArgStr "A"])
  ∧ panel_contents_dict
      (skin_instance
         (Exploration._update_gadget_visibilities_for_renamed_state "A" "B" r.1).1)
    !! "bottom"
    = Some [Examples.gadget_in ["B"]].
Proof. vm_compute. repeat split; reflexivity. Qed.

(** C7 at the exploration [A -> B, B -> B] whose only gadget is visible in
    ["B"] alone: [delete_state("B")] is not rejected.  It returns normally,
    ["B"] is gone, and the gadget is left visible in the deleted state only.
    The helper [_update_gadget_visibilities_for_deleted_state], which holds
    the rejection and which [delete_state] does not call, raises only after
    it has taken ["B"] out of the gadget's list. *)
Theorem C7_delete_state_ignores_gadgets :
  let e := Examples.exploration_with_gadget_in_B in
  let r := Exploration.delete_state "B" e in
  r.2 = Ok ()
  ∧ states r.1 !! "B" = None
  ∧ states r.1 !! "A" = Some (Examples.state_to "A")
  ∧ panel_contents_dict (skin_instance r.1) !! "bottom"
    = Some [Examples.gadget_in ["B"]]
  ∧ Exploration.validate_states_required_by_gadgets r.1
    = Raise (ValidationError "Exploration missing required state%s: %s"
               [ArgStr ""; ArgStr "B"])
  ∧ (let h := Exploration._update_gadget_visibilities_for_deleted_state
                Examples.items_in_map_order "B" e in
     h.2 = Raise (ValidationError
             "Deleting '%s' state leaves '%s' gadget with no visible states. This is not currently supported and should be handled with editor guidance on the front-end."
             [ArgStr "B"; ArgStr "ATestGadget"])
     ∧ panel_contents_dict (skin_instance h.1) !! "bottom"
       = Some [Examples.gadget_in []]).
Proof. vm_compute. repeat split; reflexivity. Qed.

(** ** Counting the names in a queue *)

Section queue_facts.

Context {V : Type}.
Implicit Types (m : gmap string V) (l : list string).

Lemma NoDup_length_le_size m l :
  NoDup l → (∀ x, x ∈ l → is_Some (m !! x)) → (length l ≤ size m)%nat.
Proof.
  intros Hnd Hsub.
  rewrite <- (size_list_to_set (C := gset string) l) by done.
  rewrite <- (size_dom m). apply subseteq_size.
  intros x Hx. apply elem_of_list_to_set in Hx. apply elem_of_dom. auto.
Qed.

Lemma NoDup_length_eq_size m l :
  NoDup l → (∀ x, x ∈ l → is_Some (m !! x)) →
  length l = size m ↔ ∀ x, is_Some (m !! x) → x ∈ l.
Proof.
  intros Hnd Hsub. split.
  - intros Hlen x Hx.
    assert ((list_to_set l : gset string) = dom m) as Heq.
    { apply set_subseteq_size_eq.
      - intros y Hy. apply elem_of_list_to_set in Hy. apply elem_of_dom. auto.
      - rewrite size_dom, size_list_to_set by done. lia. }
    apply elem_of_dom in Hx. rewrite <- Heq in Hx.
    by apply elem_of_list_to_set in Hx.
  - intros Hall. apply Nat.le_antisymm; [by apply NoDup_length_le_size|].
    rewrite <- (size_list_to_set (C := gset string) l) by done.
    rewrite <- (size_dom m). apply subseteq_size.
    intros x Hx. apply elem_of_list_to_set. apply Hall. by apply elem_of_dom.
Qed.

(** The names [list(set(keys) - set(processed))] yields, whatever the order
    of [list(...)]. *)
Lemma states_not_in_spec (list_of_set : gset string → list string)
    (self : Exploration) processed_queue :
  (∀ X, list_of_set X ≡ₚ elements X) →
  NoDup (Exploration.states_not_in list_of_set self processed_queue)
  ∧ ∀ s, s ∈ Exploration.states_not_in list_of_set self processed_queue
         ↔ is_Some (states self !! s) ∧ s ∉ processed_queue.
Proof.
  intros Hperm. unfold Exploration.states_not_in. split.
  - rewrite Hperm. apply NoDup_elements.
  - intros s. rewrite Hperm, elem_of_elements, elem_of_difference,
      elem_of_dom, elem_of_list_to_set. done.
Qed.

End queue_facts.

(** ** C3: [_verify_all_states_reachable] *)

Section enqueue_destinations_facts.
Import Exploration.

Lemma elem_of_enqueue_destinations processed_queue all_outcomes curr_queue x :
  x ∈ enqueue_destinations processed_queue all_outcomes curr_queue
  ↔ x ∈ curr_queue ∨ (x ∈ dest <$> all_outcomes ∧ x ∉ processed_queue).
Proof.
  unfold enqueue_destinations. revert curr_queue.
  induction all_outcomes as [|o outs IH]; intros q; cbn [foldl].
  - split; [by left|]. intros [?|[H _]]; [done|inversion H].
  - rewrite IH. clear IH. rewrite fmap_cons, elem_of_cons.
    destruct (decide (x = dest o)) as [->|Hne].
    + case_decide.
      * rewrite elem_of_app, list_elem_of_singleton. naive_solver.
      * destruct (decide (dest o ∈ q)); [naive_solver|].
        destruct (decide (dest o ∈ processed_queue)); naive_solver.
    + case_decide.
      * rewrite elem_of_app, list_elem_of_singleton. naive_solver.
      * naive_solver.
Qed.

Lemma NoDup_enqueue_destinations processed_queue all_outcomes curr_queue :
  NoDup (processed_queue ++ curr_queue) →
  NoDup (processed_queue
         ++ enqueue_destinations processed_queue all_outcomes curr_queue).
Proof.
  unfold enqueue_destinations. revert curr_queue.
  induction all_outcomes as [|o outs IH]; intros q Hnd; simpl; [done|].
  apply IH. destruct (decide _) as [[Hq Hp]|]; [|done].
  rewrite app_assoc. apply NoDup_app. split; [done|]. split.
  - intros x Hx ->%list_elem_of_singleton.
    apply elem_of_app in Hx as [?|?]; done.
  - apply NoDup_singleton.
Qed.

End enqueue_destinations_facts.

Section reachability_facts.
Import Exploration.

Variable get_interaction_by_id : string → option BaseInteraction.
Variable sts : gmap string State.
Variable init : string.

Hypothesis init_exists : is_Some (sts !! init).
Hypothesis dests_exist : destinations_exist sts.
Hypothesis registered : interactions_registered get_interaction_by_id sts.

Local Abbreviation reachable := (reachable_from get_interaction_by_id sts init).
Local Abbreviation inv := (reach_invariant get_interaction_by_id sts init).

Lemma reachable_is_state s : reachable s → is_Some (sts !! s).
Proof.
  revert s. apply rtc_ind_r; [exact init_exists|].
  intros y z _ (st & Hst & _ & Hd) _.
  apply list_elem_of_fmap in Hd as (o & -> & Ho).
  pose proof (proj1 (map_Forall_lookup _ _) dests_exist y st Hst) as HF.
  rewrite Forall_forall in HF. by apply HF.
Qed.

Lemma reach_invariant_start : inv [] [init].
Proof.
  repeat split.
  - simpl. apply NoDup_singleton.
  - intros s ->%list_elem_of_singleton. apply rtc_refl.
  - intros s d Hs. inversion Hs.
  - simpl. apply list_elem_of_singleton. done.
Qed.

(** When the queue is empty the processed names are the reachable states. *)
Lemma reach_invariant_done processed_queue :
  inv processed_queue [] →
  NoDup processed_queue ∧ ∀ s, s ∈ processed_queue ↔ reachable s.
Proof.
  unfold reach_invariant. setoid_rewrite app_nil_r.
  intros (Hnd & Hreach & Hclosed & Hinit). split; [done|].
  intros s. split; [apply Hreach|].
  revert s. apply rtc_ind_r; [done|].
  intros y z _ Hyz Hy. by apply (Hclosed y).
Qed.

Lemma reach_invariant_head processed_queue c q :
  inv processed_queue (c :: q) →
  (c ∉ processed_queue) ∧ reachable c
  ∧ (length (processed_queue ++ [c]) ≤ size sts)%nat.
Proof.
  intros (Hnd & Hreach & _ & _).
  assert (c ∉ processed_queue) as Hc.
  { apply NoDup_app in Hnd as (_ & Hdisj & _).
    intros Hin. apply (Hdisj c Hin). left. }
  split; [done|]. split; [apply Hreach; set_solver|].
  apply NoDup_length_le_size.
  - apply NoDup_app in Hnd as (Hp & _ & _).
    apply NoDup_app. split; [done|]. split; [|apply NoDup_singleton].
    intros x Hx ->%list_elem_of_singleton. done.
  - intros x Hx. apply reachable_is_state, Hreach. set_solver.
Qed.

(** A terminal state is processed and nothing is added to the queue. *)
Lemma reach_invariant_terminal processed_queue c q st :
  inv processed_queue (c :: q) →
  sts !! c = Some st →
  InteractionInstance.is_terminal get_interaction_by_id (interaction st)
  = Ok true →
  inv (processed_queue ++ [c]) q.
Proof.
  intros (Hnd & Hreach & Hclosed & Hinit) Hst Hterm.
  assert ((processed_queue ++ [c]) ++ q = processed_queue ++ c :: q) as Hsame
    by (by rewrite <- app_assoc).
  unfold reach_invariant. rewrite Hsame. repeat split; try done.
  intros s d Hs Hsd. apply elem_of_app in Hs as [Hs|Hs%list_elem_of_singleton].
  - by apply (Hclosed s).
  - subst s. destruct Hsd as (st' & Hst' & Hnt & _). congruence.
Qed.

(** A non-terminal state is processed and its destinations are queued. *)
Lemma reach_invariant_expand processed_queue c q st :
  inv processed_queue (c :: q) →
  sts !! c = Some st →
  InteractionInstance.is_terminal get_interaction_by_id (interaction st)
  = Ok false →
  inv (processed_queue ++ [c])
      (enqueue_destinations (processed_queue ++ [c])
         (InteractionInstance.get_all_outcomes (interaction st)) q).
Proof.
  intros Hinv Hst Hterm.
  pose proof (reach_invariant_head _ _ _ Hinv) as (_ & Hc & _).
  destruct Hinv as (Hnd & Hreach & Hclosed & Hinit).
  assert (∀ x, x ∈ processed_queue ++ c :: q ↔ x ∈ (processed_queue ++ [c]) ++ q)
    as Hsame by (intros x; rewrite <- app_assoc; done).
  split; [|split; [|split]].
  - apply NoDup_enqueue_destinations. by rewrite <- app_assoc.
  - intros s Hs. apply elem_of_app in Hs as [Hs|Hs].
    + apply Hreach. apply Hsame. set_solver.
    + apply elem_of_enqueue_destinations in Hs as [Hs|[Hs _]].
      * apply Hreach. set_solver.
      * eapply rtc_r; [exact Hc|]. by exists st.
  - intros s d Hs Hsd. rewrite elem_of_app, elem_of_enqueue_destinations.
    apply elem_of_app in Hs as [Hs|Hs%list_elem_of_singleton].
    + specialize (Hclosed s d Hs Hsd). apply Hsame in Hclosed.
      apply elem_of_app in Hclosed as [?|?]; auto.
    + subst s. destruct Hsd as (st' & Hst' & _ & Hd).
      assert (st' = st) as -> by congruence.
      destruct (decide (d ∈ processed_queue ++ [c])); auto.
  - apply Hsame in Hinit. rewrite elem_of_app, elem_of_enqueue_destinations.
    apply elem_of_app in Hinit as [?|?]; auto.
Qed.

(** The loop ends within the fuel it is given and returns the reachable
    states, each once. *)
Lemma reachable_loop_correct fuel processed_queue curr_queue :
  inv processed_queue curr_queue →
  (size sts < fuel + length processed_queue)%nat →
  ∃ final,
    reachable_loop get_interaction_by_id fuel sts processed_queue curr_queue
    = Some (Ok final)
    ∧ NoDup final ∧ ∀ s, s ∈ final ↔ reachable s.
Proof.
  revert processed_queue curr_queue.
  induction fuel as [|fuel IH]; intros processed_queue [|c q] Hinv Hfuel.
  - exists processed_queue. split; [done|]. by apply reach_invariant_done.
  - exfalso. apply reach_invariant_head in Hinv as (_ & _ & Hlen).
    rewrite length_app in Hlen. simpl in Hlen. lia.
  - exists processed_queue. split; [done|]. by apply reach_invariant_done.
  - pose proof (reach_invariant_head _ _ _ Hinv) as (Hc & Hreach & Hlen).
    cbn [reachable_loop]. rewrite decide_False; [|done].
    destruct (reachable_is_state c Hreach) as [st Hst]. rewrite Hst.
    pose proof (proj1 (map_Forall_lookup _ _) registered c st Hst) as Hok.
    simpl in Hok.
    destruct (InteractionInstance.is_terminal _ _) as [[]|] eqn:Hterm; [| |done].
    + apply IH; [by eapply reach_invariant_terminal|].
      rewrite length_app. simpl. lia.
    + apply IH; [by eapply reach_invariant_expand|].
      rewrite length_app. simpl. lia.
Qed.

End reachability_facts.

(** *** First in, first out *)

Section fifo_facts.
Import Exploration.

Variable get_interaction_by_id : string → option BaseInteraction.
Variable sts : gmap string State.

(** Destinations are added at the back of the queue. *)
Lemma enqueue_destinations_prefix processed_queue all_outcomes curr_queue :
  curr_queue `prefix_of`
    enqueue_destinations processed_queue all_outcomes curr_queue.
Proof.
  unfold enqueue_destinations. revert curr_queue.
  induction all_outcomes as [|o outs IH]; intros q; cbn [foldl]; [done|].
  etrans; [|apply IH]. case_decide; [by apply prefix_app_r|done].
Qed.

(** The states are processed in the order in which they were discovered:
    what is processed or queued at some point stays, in that order, at the
    front of the final processed queue. *)
Lemma reachable_loop_fifo fuel processed_queue curr_queue final :
  NoDup (processed_queue ++ curr_queue) →
  reachable_loop get_interaction_by_id fuel sts processed_queue curr_queue
  = Some (Ok final) →
  (processed_queue ++ curr_queue) `prefix_of` final.
Proof.
  revert processed_queue curr_queue.
  induction fuel as [|fuel IH]; intros processed_queue [|c q] Hnd Hloop;
    cbn [reachable_loop] in Hloop; try discriminate Hloop.
  - injection Hloop as <-. by rewrite app_nil_r.
  - injection Hloop as <-. by rewrite app_nil_r.
  - assert (c ∉ processed_queue) as Hc.
    { apply NoDup_app in Hnd as (_ & Hdisj & _).
      intros Hin. apply (Hdisj c Hin). left. }
    assert (processed_queue ++ c :: q = (processed_queue ++ [c]) ++ q) as Hsame
      by (by rewrite <- app_assoc).
    rewrite decide_False in Hloop by done.
    destruct (sts !! c) as [st|]; [|discriminate Hloop].
    destruct (InteractionInstance.is_terminal _ _) as [[]|];
      [| |discriminate Hloop].
    + rewrite Hsame. apply IH; [|done]. by rewrite <- Hsame.
    + etrans; [|apply (λ H, IH _ _ H Hloop)].
      * rewrite Hsame. apply prefix_app, enqueue_destinations_prefix.
      * apply NoDup_enqueue_destinations. by rewrite <- Hsame.
Qed.

End fifo_facts.

Section verify_all_states_reachable_facts.
Import Exploration.

Variable get_interaction_by_id : string → option BaseInteraction.
Variable list_of_set : gset string → list string.
Hypothesis list_of_set_perm : ∀ X, list_of_set X ≡ₚ elements X.

Lemma list_of_set_singleton x : list_of_set {[x]} = [x].
Proof.
  apply Permutation_singleton_r. rewrite list_of_set_perm.
  by rewrite elements_singleton.
Qed.

Lemma verify_all_states_reachable_spec (self : Exploration) :
  is_Some (states self !! init_state_name self) →
  destinations_exist (states self) →
  interactions_registered get_interaction_by_id (states self) →
  let reachable :=
    reachable_from get_interaction_by_id (states self) (init_state_name self) in
  let outcome :=
    _verify_all_states_reachable get_interaction_by_id list_of_set self in
  ∃ processed_queue,
    reachable_loop get_interaction_by_id (S (size (states self))) (states self)
      [] [init_state_name self] = Some (Ok processed_queue)
    ∧ NoDup processed_queue
    ∧ (∀ s, s ∈ processed_queue ↔ reachable s)
    ∧ (outcome = Some (Ok ()) ↔ ∀ s, is_Some (states self !! s) → reachable s)
    ∧ (outcome ≠ Some (Ok ()) →
       ∃ names,
         outcome = Some (Raise (ValidationError unreachable_template
                                  [ArgStr (str_join ", " names)]))
         ∧ NoDup names
         ∧ ∀ s, s ∈ names ↔ is_Some (states self !! s) ∧ ¬ reachable s).
Proof.
  intros Hinit Hdests Hreg reachable outcome.
  destruct (reachable_loop_correct get_interaction_by_id (states self)
              (init_state_name self) Hinit Hdests Hreg
              (S (size (states self))) [] [init_state_name self])
    as (final & Hloop & Hnd & Hfinal).
  { by apply reach_invariant_start. }
  { simpl. lia. }
  assert (∀ x, x ∈ final → is_Some (states self !! x)) as Hsub.
  { intros x Hx. eapply reachable_is_state; [done..|]. by apply Hfinal. }
  pose proof (NoDup_length_eq_size (states self) final Hnd Hsub) as Hlen.
  exists final. split; [done|]. split; [done|]. split; [done|].
  unfold outcome, _verify_all_states_reachable. rewrite Hloop. simpl.
  destruct (decide (size (states self) = length final)) as [Heq|Hne].
  - rewrite decide_False by (intros Hne; by apply Hne).
    split; [|intros Hno; by destruct Hno].
    split; [|done]. intros _ x Hx. apply Hfinal. apply Hlen; [by symmetry|done].
  - rewrite decide_True by done. split.
    + split; [discriminate|]. intros Hall. exfalso. apply Hne. symmetry.
      apply Hlen. intros x Hx. by apply Hfinal, Hall.
    + intros _. eexists. split; [reflexivity|].
      destruct (states_not_in_spec list_of_set self final list_of_set_perm)
        as [Hnd' Hin].
      split; [done|]. intros x. rewrite Hin.
      unfold reachable. by rewrite Hfinal.
Qed.

(** The example of the claim: [A(init) -> B], [B -> C], [C] terminal and
    [D] unreferenced. *)
Lemma verify_all_states_reachable_ABCD :
  _verify_all_states_reachable Examples.registry list_of_set
    Examples.exploration_ABCD
  = Some (Raise (ValidationError unreachable_template [ArgStr "D"])).
Proof.
  unfold _verify_all_states_reachable.
  replace (reachable_loop _ _ _ _ _) with (Some (Ok ["A"; "B"; "C"]))
    by (vm_compute; reflexivity).
  cbn [mbind option_bind result_bind].
  rewrite decide_True by (vm_compute; lia).
  unfold states_not_in.
  replace (dom _ ∖ _) with ({["D"]} : gset string) by (vm_compute; reflexivity).
  rewrite list_of_set_singleton. reflexivity.
Qed.

End verify_all_states_reachable_facts.

(** C3, as amended.  On an exploration whose initial state exists, whose
    outcomes all lead to existing states and whose interaction ids are
    known to the registry (what [validate] has established when it calls the
    function), [_verify_all_states_reachable] walks the states first in,
    first out from [init_state_name], following every outcome (answer
    groups, default, fallbacks) of every non-terminal state; the loop ends
    and has processed exactly the reachable states, each once.  The function
    returns normally when every state is reachable; otherwise it raises one
    [ValidationError] whose message joins with [", "] the names of all
    unreachable states, each once, in the order in which the interpreter
    lists a set (no sorting is done).  The queue is first in, first out:
    what is processed or queued at some point is, in that order, the front
    of the final processed queue.  For [A(init) -> B], [B -> C], [C]
    terminal and [D] unreferenced the message names exactly [D]; on a graph
    with two levels the states are processed level by level. *)
Theorem C3_verify_all_states_reachable
    (get_interaction_by_id : string → option BaseInteraction)
    (list_of_set : gset string → list string) (self : Exploration) :
  (∀ X, list_of_set X ≡ₚ elements X) →
  is_Some (states self !! init_state_name self) →
  destinations_exist (states self) →
  interactions_registered get_interaction_by_id (states self) →
  (let reachable :=
     reachable_from get_interaction_by_id (states self) (init_state_name self) in
   let outcome :=
     Exploration._verify_all_states_reachable get_interaction_by_id
       list_of_set self in
   ∃ processed_queue,
     Exploration.reachable_loop get_interaction_by_id
       (S (size (states self))) (states self) [] [init_state_name self]
     = Some (Ok processed_queue)
     ∧ NoDup processed_queue
     ∧ (∀ s, s ∈ processed_queue ↔ reachable s)
     ∧ (outcome = Some (Ok ()) ↔ ∀ s, is_Some (states self !! s) → reachable s)
     ∧ (outcome ≠ Some (Ok ()) →
        ∃ names,
          outcome = Some (Raise (ValidationError unreachable_template
                                   [ArgStr (str_join ", " names)]))
          ∧ NoDup names
          ∧ ∀ s, s ∈ names ↔ is_Some (states self !! s) ∧ ¬ reachable s))
  ∧ (∀ fuel processed_queue curr_queue final,
       NoDup (processed_queue ++ curr_queue) →
       Exploration.reachable_loop get_interaction_by_id fuel (states self)
         processed_queue curr_queue = Some (Ok final) →
       (processed_queue ++ curr_queue) `prefix_of` final)
  ∧ Exploration._verify_all_states_reachable Examples.registry list_of_set
      Examples.exploration_ABCD
    = Some (Raise (ValidationError unreachable_template [ArgStr "D"]))
  ∧ Exploration.reachable_loop Examples.registry 6
      (states Examples.exploration_two_levels) [] ["A"]
    = Some (Ok ["A"; "B"; "C"; "D"; "E"]).
Proof.
  intros Hperm Hinit Hdests Hreg. split; [|split; [|split]].
  - by apply verify_all_states_reachable_spec.
  - apply reachable_loop_fifo.
  - by apply verify_all_states_reachable_ABCD.
  - vm_compute. reflexivity.
Qed.

(** C3 at the example of the claim, with [list(s)] in the order of
    [elements]: the error names the unreachable states, and they are the
    states outside the processed queue [A, B, C]. *)
Lemma C3_witness :
  ∃ names,
    Exploration._verify_all_states_reachable Examples.registry elements
      Examples.exploration_ABCD
    = Some (Raise (ValidationError unreachable_template
                     [ArgStr (str_join ", " names)]))
    ∧ NoDup names
    ∧ ∀ s, s ∈ names
           ↔ is_Some (states Examples.exploration_ABCD !! s)
             ∧ ¬ reachable_from Examples.registry
                   (states Examples.exploration_ABCD) "A" s.
Proof.
  destruct (C3_verify_all_states_reachable Examples.registry elements
              Examples.exploration_ABCD)
    as [(pq & Hloop & _ & Hpq & _ & Hraise) _].
  - intros X. reflexivity.
  - vm_compute. eauto.
  - refine (@bool_decide_unpack _ (destinations_exist_dec _) _).
    vm_compute. exact I.
  - refine (@bool_decide_unpack _ (interactions_registered_dec _ _) _).
    vm_compute. exact I.
  - apply Hraise. vm_compute. discriminate.
Defined.

(** C3 as stated fails on the order of the names.  With the states [a]
    (initial, leading to itself), [b] and [c], CPython 2.7 lists the set of
    unreachable names as [c, b], and the message reads ["c, b"]: the names
    are not sorted. *)
Lemma C3_counterexample :
  Exploration._verify_all_states_reachable Examples.registry
    Examples.py27_list_of_set Examples.exploration_abc
  = Some (Raise (ValidationError unreachable_template [ArgStr "c, b"]))
  ∧ ¬ reports_sorted
        (Exploration._verify_all_states_reachable Examples.registry
           Examples.py27_list_of_set Examples.exploration_abc)
        unreachable_template ["b"; "c"].
Proof.
  split; [vm_compute; reflexivity|].
  intros (names & Heq & Hperm & Hsorted).
  pose proof (Permutation_length Hperm) as Hlen.
  destruct names as [|x [|y [|z names]]]; try discriminate Hlen.
  apply Permutation_length_2 in Hperm as [[-> ->]|[-> ->]].
  - vm_compute in Heq. discriminate Heq.
  - vm_compute in Hsorted. discriminate Hsorted.
Qed.

(** ** C4: [_verify_no_dead_ends] *)

Section enqueue_predecessors_facts.
Import Exploration.

Lemma leads_to_spec curr_state_name st :
  leads_to curr_state_name st = true
  ↔ curr_state_name
    ∈ dest <$> InteractionInstance.get_all_non_fallback_outcomes (interaction st).
Proof.
  unfold leads_to. rewrite bool_decide_eq_true, Exists_exists, list_elem_of_fmap.
  naive_solver.
Qed.

Lemma elem_of_enqueue_predecessors curr_state_name processed_queue items
    curr_queue x :
  x ∈ enqueue_predecessors curr_state_name processed_queue items curr_queue
  ↔ x ∈ curr_queue
    ∨ (∃ st, (x, st) ∈ items ∧ leads_to curr_state_name st = true
             ∧ x ∉ processed_queue).
Proof.
  unfold enqueue_predecessors. revert curr_queue.
  induction items as [|[n st] items IH]; intros q; cbn [foldl].
  - split; [by left|]. intros [?|(? & H & _)]; [done|inversion H].
  - rewrite IH. clear IH. cbn [fst snd].
    setoid_rewrite elem_of_cons.
    destruct (decide ((n ∉ q) ∧ (n ∉ processed_queue))) as [[Hq Hp] | Hno].
    + destruct (leads_to curr_state_name st) eqn:Hl.
      * rewrite elem_of_app, list_elem_of_singleton. split.
        -- intros [[? | ->] | (st' & ? & ? & ?)]; eauto 10.
        -- intros [? | (st' & [[= -> ->] | ?] & ? & ?)]; eauto 10.
      * split.
        -- intros [? | (st' & ? & ? & ?)]; eauto 10.
        -- intros [? | (st' & [[= -> ->] | ?] & ? & ?)]; [auto|congruence|eauto 10].
    + split.
      * intros [? | (st' & ? & ? & ?)]; eauto 10.
      * intros [? | (st' & [[= -> ->] | ?] & ? & ?)]; [auto| |eauto 10].
        left. destruct (decide (n ∈ q)); [done|].
        exfalso. apply Hno. done.
Qed.

Lemma NoDup_enqueue_predecessors curr_state_name processed_queue items curr_queue :
  NoDup (processed_queue ++ curr_queue) →
  NoDup (processed_queue
         ++ enqueue_predecessors curr_state_name processed_queue items curr_queue).
Proof.
  unfold enqueue_predecessors. revert curr_queue.
  induction items as [|[n st] items IH]; intros q Hnd; cbn [foldl]; [done|].
  apply IH. cbn [fst snd].
  destruct (decide _) as [[Hq Hp]|]; [|done].
  destruct (leads_to curr_state_name st); [|done].
  rewrite app_assoc. apply NoDup_app. split; [done|]. split.
  - intros x Hx ->%list_elem_of_singleton.
    apply elem_of_app in Hx as [?|?]; done.
  - apply NoDup_singleton.
Qed.

End enqueue_predecessors_facts.

Section dead_end_facts.
Import Exploration.

Variable get_interaction_by_id : string → option BaseInteraction.
Variable sts : gmap string State.
Variable items : list (string * State).

Hypothesis items_are_states : ∀ n st, (n, st) ∈ items ↔ sts !! n = Some st.
Hypothesis items_keys_distinct : NoDup items.*1.
Hypothesis registered : interactions_registered get_interaction_by_id sts.

Local Abbreviation terminal := (terminal_state get_interaction_by_id sts).
Local Abbreviation finishes := (can_finish get_interaction_by_id sts).
Local Abbreviation inv := (dead_end_invariant get_interaction_by_id sts).

Lemma can_finish_is_state s : finishes s → is_Some (sts !! s).
Proof.
  intros (t & Hpath & st & Hst & _).
  destruct Hpath as [|x y z (st' & Hst' & _) _]; eauto.
Qed.

(** The first loop collects the terminal states, each once. *)
Lemma terminal_state_names_spec :
  ∃ T, terminal_state_names get_interaction_by_id items = Ok T
       ∧ NoDup T ∧ ∀ t, t ∈ T ↔ terminal t.
Proof.
  assert (∀ l, NoDup l.*1 → (∀ n st, (n, st) ∈ l → sts !! n = Some st) →
            ∃ T, terminal_state_names get_interaction_by_id l = Ok T
                 ∧ NoDup T
                 ∧ (∀ t, t ∈ T → t ∈ l.*1)
                 ∧ ∀ t, t ∈ T ↔ ∃ st, (t, st) ∈ l
                     ∧ InteractionInstance.is_terminal get_interaction_by_id
                         (interaction st) = Ok true) as Hgen.
  { induction l as [|[n st] l IH]; intros Hnd Hsub.
    - exists []. split; [done|]. split; [constructor|]. split; [done|].
      intros t. split; [inversion 1|]. intros (? & H & _). inversion H.
    - rewrite fmap_cons in Hnd. apply NoDup_cons in Hnd as [Hn Hnd].
      destruct (IH Hnd) as (T & HT & HndT & HsubT & HinT).
      { intros n' st' H'. apply Hsub. by right. }
      cbn [terminal_state_names]. rewrite HT.
      pose proof (proj1 (map_Forall_lookup _ _) registered n st
                    (Hsub n st ltac:(left))) as Hok.
      simpl in Hok.
      destruct (InteractionInstance.is_terminal _ _) as [b|] eqn:Hb; [|done].
      simpl. destruct b.
      + exists (n :: T). split; [done|]. split.
        { apply NoDup_cons. split; [|done]. intros Hin. by apply Hn, HsubT. }
        split.
        { intros t [->|Ht]%elem_of_cons; simpl; [left|right; by apply HsubT]. }
        intros t. rewrite elem_of_cons, HinT. split.
        * intros [->|(st' & ? & ?)]; [exists st; split; [left|done]|].
          exists st'. split; [by right|done].
        * intros (st' & [[= -> ->]|?]%elem_of_cons & ?); [by left|].
          right. eauto.
      + exists T. split; [done|]. split; [done|]. split.
        { intros t Ht. simpl. right. by apply HsubT. }
        intros t. rewrite HinT. split.
        * intros (st' & ? & ?). exists st'. split; [by right|done].
        * intros (st' & [[= -> ->]|?]%elem_of_cons & ?); [congruence|eauto]. }
  destruct (Hgen items items_keys_distinct) as (T & HT & Hnd & _ & Hin).
  { intros n st. apply items_are_states. }
  exists T. split; [done|]. split; [done|].
  intros t. rewrite Hin. unfold terminal_state.
  by setoid_rewrite items_are_states.
Qed.

Lemma dead_end_invariant_start T :
  NoDup T → (∀ t, t ∈ T ↔ terminal t) → inv [] T.
Proof.
  intros Hnd HT. split; [done|]. split; [|split].
  - intros s Hs. apply HT in Hs. split.
    + destruct Hs as (st & ? & _). eauto.
    + exists s. split; [apply rtc_refl|done].
  - intros s p Hp. inversion Hp.
  - intros t Ht. by apply HT.
Qed.

(** When the queue is empty the processed names are the states that can
    reach a terminal state without a fallback. *)
Lemma dead_end_invariant_done processed_queue :
  inv processed_queue [] →
  NoDup processed_queue ∧ ∀ s, s ∈ processed_queue ↔ finishes s.
Proof.
  unfold dead_end_invariant. setoid_rewrite app_nil_r.
  intros (Hnd & Hfin & Hclosed & Hterm). split; [done|].
  intros s. split; [apply Hfin|].
  intros (t & Hpath & Ht). revert s Hpath.
  apply rtc_ind_l; [by apply Hterm|].
  intros x y Hxy _ Hy. by apply (Hclosed x y).
Qed.

Lemma dead_end_invariant_head processed_queue c q :
  inv processed_queue (c :: q) →
  (c ∉ processed_queue) ∧ finishes c
  ∧ (length (processed_queue ++ [c]) ≤ size sts)%nat.
Proof.
  intros (Hnd & Hfin & _ & _).
  assert (c ∉ processed_queue) as Hc.
  { apply NoDup_app in Hnd as (_ & Hdisj & _).
    intros Hin. apply (Hdisj c Hin). left. }
  split; [done|]. split; [apply Hfin; set_solver|].
  apply NoDup_length_le_size.
  - apply NoDup_app in Hnd as (Hp & _ & _).
    apply NoDup_app. split; [done|]. split; [|apply NoDup_singleton].
    intros x Hx ->%list_elem_of_singleton. done.
  - intros x Hx. apply Hfin. set_solver.
Qed.

(** One round of the loop: the dequeued state is processed and its
    unvisited predecessors are queued. *)
Lemma dead_end_invariant_step processed_queue c q :
  inv processed_queue (c :: q) →
  inv (processed_queue ++ [c])
      (enqueue_predecessors c (processed_queue ++ [c]) items q).
Proof.
  intros Hinv.
  pose proof (dead_end_invariant_head _ _ _ Hinv) as (_ & Hc & _).
  destruct Hinv as (Hnd & Hfin & Hclosed & Hterm).
  assert (∀ x, x ∈ processed_queue ++ c :: q ↔ x ∈ (processed_queue ++ [c]) ++ q)
    as Hsame by (intros x; rewrite <- app_assoc; done).
  split; [|split; [|split]].
  - apply NoDup_enqueue_predecessors. by rewrite <- app_assoc.
  - intros s Hs. apply elem_of_app in Hs as [Hs|Hs].
    + apply Hfin. apply Hsame. set_solver.
    + apply elem_of_enqueue_predecessors in Hs as [Hs|(st & Hst & Hl & _)].
      * apply Hfin. set_solver.
      * apply items_are_states in Hst. apply leads_to_spec in Hl.
        split; [eauto|].
        destruct Hc as (t & Hpath & Ht). exists t. split; [|done].
        eapply rtc_l; [|exact Hpath]. by exists st.
  - intros s p Hp Hsp. rewrite elem_of_app, elem_of_enqueue_predecessors.
    apply elem_of_app in Hp as [Hp|Hp%list_elem_of_singleton].
    + specialize (Hclosed s p Hp Hsp). apply Hsame in Hclosed.
      apply elem_of_app in Hclosed as [?|?]; auto.
    + subst p. destruct Hsp as (st & Hst & Hd).
      destruct (decide (s ∈ processed_queue ++ [c])); [auto|].
      right. right. exists st. split; [by apply items_are_states|].
      split; [by apply leads_to_spec|done].
  - intros t Ht. specialize (Hterm t Ht). apply Hsame in Hterm.
    rewrite elem_of_app, elem_of_enqueue_predecessors.
    apply elem_of_app in Hterm as [?|?]; auto.
Qed.

(** The loop ends within the fuel it is given. *)
Lemma dead_end_loop_correct fuel processed_queue curr_queue :
  inv processed_queue curr_queue →
  (size sts < fuel + length processed_queue)%nat →
  ∃ final,
    dead_end_loop fuel items processed_queue curr_queue = Some final
    ∧ NoDup final ∧ ∀ s, s ∈ final ↔ finishes s.
Proof.
  revert processed_queue curr_queue.
  induction fuel as [|fuel IH]; intros processed_queue [|c q] Hinv Hfuel.
  - exists processed_queue. split; [done|]. by apply dead_end_invariant_done.
  - exfalso. apply dead_end_invariant_head in Hinv as (_ & _ & Hlen).
    rewrite length_app in Hlen. simpl in Hlen. lia.
  - exists processed_queue. split; [done|]. by apply dead_end_invariant_done.
  - pose proof (dead_end_invariant_head _ _ _ Hinv) as (Hc & _ & Hlen).
    cbn [dead_end_loop]. rewrite decide_False; [|done].
    apply IH; [by apply dead_end_invariant_step|].
    rewrite length_app. simpl. lia.
Qed.

End dead_end_facts.

Section verify_no_dead_ends_facts.
Import Exploration.

Variable get_interaction_by_id : string → option BaseInteraction.
Variable dict_items : ∀ V, gmap string V → list (string * V).
Variable list_of_set : gset string → list string.

Hypothesis dict_items_perm :
  ∀ V (m : gmap string V), dict_items V m ≡ₚ map_to_list m.
Hypothesis list_of_set_perm : ∀ X, list_of_set X ≡ₚ elements X.

Lemma verify_no_dead_ends_spec (self : Exploration) :
  interactions_registered get_interaction_by_id (states self) →
  let finishes := can_finish get_interaction_by_id (states self) in
  let outcome :=
    _verify_no_dead_ends get_interaction_by_id dict_items list_of_set self in
  (outcome = Some (Ok ()) ↔ ∀ s, is_Some (states self !! s) → finishes s)
  ∧ (outcome ≠ Some (Ok ()) →
     ∃ names,
       outcome = Some (Raise (ValidationError dead_end_template
                                [ArgStr (str_join ", " names)]))
       ∧ NoDup names
       ∧ ∀ s, s ∈ names ↔ is_Some (states self !! s) ∧ ¬ finishes s).
Proof.
  intros Hreg finishes outcome.
  set (items := dict_items State (states self)).
  assert (∀ n st, (n, st) ∈ items ↔ states self !! n = Some st) as Hitems.
  { intros n st. unfold items. rewrite dict_items_perm.
    apply elem_of_map_to_list. }
  assert (NoDup items.*1) as Hkeys.
  { unfold items. rewrite dict_items_perm. apply NoDup_fst_map_to_list. }
  destruct (terminal_state_names_spec get_interaction_by_id (states self) items
              Hitems Hkeys Hreg) as (T & HT & HndT & HinT).
  destruct (dead_end_loop_correct get_interaction_by_id (states self) items
              Hitems Hkeys Hreg (S (size (states self))) [] T)
    as (final & Hloop & Hnd & Hfinal).
  { by apply dead_end_invariant_start. }
  { simpl. lia. }
  assert (∀ x, x ∈ final → is_Some (states self !! x)) as Hsub.
  { intros x Hx. eapply can_finish_is_state. by apply Hfinal. }
  pose proof (NoDup_length_eq_size (states self) final Hnd Hsub) as Hlen.
  unfold outcome, _verify_no_dead_ends. fold items. rewrite HT, Hloop. simpl.
  destruct (decide (size (states self) = length final)) as [Heq|Hne].
  - rewrite decide_False by (intros Hne; by apply Hne).
    split; [|intros Hno; by destruct Hno].
    split; [|done]. intros _ x Hx. apply Hfinal. apply Hlen; [by symmetry|done].
  - rewrite decide_True by done. split.
    + split; [discriminate|]. intros Hall. exfalso. apply Hne. symmetry.
      apply Hlen. intros x Hx. by apply Hfinal, Hall.
    + intros _. eexists. split; [reflexivity|].
      destruct (states_not_in_spec list_of_set self final list_of_set_perm)
        as [Hnd' Hin].
      split; [done|]. intros x. rewrite Hin.
      unfold finishes. by rewrite Hfinal.
Qed.

End verify_no_dead_ends_facts.

(** In [A -> B, B -> A] no state is terminal. *)
Lemma no_terminal_state_in_AB_cycle t :
  ¬ terminal_state Examples.registry (states Examples.exploration_AB_cycle) t.
Proof.
  intros (st & Hst & Hterm). simpl in Hst.
  rewrite lookup_insert in Hst. case_decide.
  - injection Hst as <-. vm_compute in Hterm. discriminate Hterm.
  - rewrite lookup_singleton in Hst. case_decide; [|done].
    injection Hst as <-. vm_compute in Hterm. discriminate Hterm.
Qed.

Lemma no_state_finishes_in_AB_cycle s :
  ¬ can_finish Examples.registry (states Examples.exploration_AB_cycle) s.
Proof. intros (t & _ & Ht). by apply no_terminal_state_in_AB_cycle in Ht. Qed.

(** C4, as amended.  On an exploration whose interaction ids are known to
    the registry, [_verify_no_dead_ends] returns normally when every state
    can reach a terminal state over non-fallback outcomes (answer groups
    and default outcome; a fallback outcome is not followed); otherwise it
    raises one [ValidationError] whose message joins with [", "] the names of
    all the states that cannot, each once, in the order in which the
    interpreter lists a set (no sorting is done).  For [A(init) -> B],
    [B -> A] without a terminal state the message names both [A] and [B]. *)
Theorem C4_verify_no_dead_ends
    (get_interaction_by_id : string → option BaseInteraction)
    (dict_items : ∀ V, gmap string V → list (string * V))
    (list_of_set : gset string → list string) (self : Exploration) :
  (∀ V (m : gmap string V), dict_items V m ≡ₚ map_to_list m) →
  (∀ X, list_of_set X ≡ₚ elements X) →
  interactions_registered get_interaction_by_id (states self) →
  (let finishes := can_finish get_interaction_by_id (states self) in
   let outcome :=
     Exploration._verify_no_dead_ends get_interaction_by_id dict_items
       list_of_set self in
   (outcome = Some (Ok ()) ↔ ∀ s, is_Some (states self !! s) → finishes s)
   ∧ (outcome ≠ Some (Ok ()) →
      ∃ names,
        outcome = Some (Raise (ValidationError dead_end_template
                                 [ArgStr (str_join ", " names)]))
        ∧ NoDup names
        ∧ ∀ s, s ∈ names ↔ is_Some (states self !! s) ∧ ¬ finishes s))
  ∧ ∃ names,
      Exploration._verify_no_dead_ends Examples.registry dict_items list_of_set
        Examples.exploration_AB_cycle
      = Some (Raise (ValidationError dead_end_template
                       [ArgStr (str_join ", " names)]))
      ∧ names ≡ₚ ["A"; "B"].
Proof.
  intros Hitems Hset Hreg. split.
  - by apply verify_no_dead_ends_spec.
  - destruct (verify_no_dead_ends_spec Examples.registry dict_items list_of_set
                Hitems Hset Examples.exploration_AB_cycle)
      as [Hok Hraise].
    { refine (@bool_decide_unpack _ (interactions_registered_dec _ _) _).
      vm_compute. exact I. }
    destruct Hraise as (names & Heq & Hnd & Hin).
    { intros Hall. pose proof (proj1 Hok Hall) as Hfin.
      apply (no_state_finishes_in_AB_cycle "A"), Hfin. vm_compute. eauto. }
    exists names. split; [done|].
    apply NoDup_Permutation; [done| |].
    { apply NoDup_cons. split; [|apply NoDup_singleton].
      intros H%list_elem_of_singleton. discriminate H. }
    intros x. rewrite Hin. rewrite <- elem_of_dom.
    replace (dom (states Examples.exploration_AB_cycle))
      with ({["A"; "B"]} : gset string) by (vm_compute; reflexivity).
    rewrite elem_of_union, !elem_of_singleton, elem_of_cons,
      list_elem_of_singleton.
    pose proof (no_state_finishes_in_AB_cycle x). naive_solver.
Qed.

(** C4 at [A(init) -> B, B -> A], with the dict walked in the order of
    [map_to_list] and [list(s)] in the order of [elements]. *)
Lemma C4_witness :
  ∃ names,
    Exploration._verify_no_dead_ends Examples.registry
      Examples.items_in_map_order elements Examples.exploration_AB_cycle
    = Some (Raise (ValidationError dead_end_template
                     [ArgStr (str_join ", " names)]))
    ∧ NoDup names
    ∧ ∀ s, s ∈ names
           ↔ is_Some (states Examples.exploration_AB_cycle !! s)
             ∧ ¬ can_finish Examples.registry
                   (states Examples.exploration_AB_cycle) s.
Proof.
  destruct (C4_verify_no_dead_ends Examples.registry
              Examples.items_in_map_order elements
              Examples.exploration_AB_cycle)
    as [[_ Hraise] _].
  - intros V m. reflexivity.
  - intros X. reflexivity.
  - refine (@bool_decide_unpack _ (interactions_registered_dec _ _) _).
    vm_compute. exact I.
  - apply Hraise. vm_compute. discriminate.
Defined.

(** C4 as stated fails on the order of the names.  With [a] terminal and
    [b], [c] leading to themselves only, CPython 2.7 lists the set of dead
    ends as [c, b], and the message reads ["c, b"]: the names are not
    sorted. *)
Lemma C4_counterexample :
  Exploration._verify_no_dead_ends Examples.registry
    Examples.items_in_map_order Examples.py27_list_of_set
    Examples.exploration_a_end
  = Some (Raise (ValidationError dead_end_template [ArgStr "c, b"]))
  ∧ ¬ reports_sorted
        (Exploration._verify_no_dead_ends Examples.registry
           Examples.items_in_map_order Examples.py27_list_of_set
           Examples.exploration_a_end)
        dead_end_template ["b"; "c"].
Proof.
  split; [vm_compute; reflexivity|].
  intros (names & Heq & Hperm & Hsorted).
  pose proof (Permutation_length Hperm) as Hlen.
  destruct names as [|x [|y [|z names]]]; try discriminate Hlen.
  apply Permutation_length_2 in Hperm as [[-> ->]|[-> ->]].
  - vm_compute in Heq. discriminate Heq.
  - vm_compute in Hsorted. discriminate Hsorted.
Qed.

(** ** The fuel of the two loops is enough on every exploration *)

Section loops_terminate.
Import Exploration.

Variable get_interaction_by_id : string → option BaseInteraction.
Variable sts : gmap string State.

Lemma NoDup_snoc_fresh (processed_queue : list string) c q :
  NoDup (processed_queue ++ c :: q) →
  (c ∉ processed_queue) ∧ NoDup ((processed_queue ++ [c]) ++ q).
Proof.
  intros Hnd. split.
  - apply NoDup_app in Hnd as (_ & Hdisj & _).
    intros Hin. apply (Hdisj c Hin). left.
  - by rewrite <- app_assoc.
Qed.

Lemma processed_fits (processed_queue : list string) q :
  NoDup (processed_queue ++ q) →
  (∀ s, s ∈ processed_queue → is_Some (sts !! s)) →
  (length processed_queue ≤ size sts)%nat.
Proof.
  intros Hnd Hsub. apply NoDup_length_le_size; [|done].
  by apply NoDup_app in Hnd as (? & _ & _).
Qed.

(** Whatever the states are (dangling destinations and unknown interaction
    ids included), the reachability loop ends within [size sts + 1] rounds:
    it returns the processed queue or raises. *)
Lemma reachable_loop_total fuel processed_queue curr_queue :
  NoDup (processed_queue ++ curr_queue) →
  (∀ s, s ∈ processed_queue → is_Some (sts !! s)) →
  (size sts < fuel + length processed_queue)%nat →
  is_Some (reachable_loop get_interaction_by_id fuel sts
             processed_queue curr_queue).
Proof.
  revert processed_queue curr_queue.
  induction fuel as [|fuel IH]; intros processed_queue [|c q] Hnd Hsub Hfuel;
    try (by eexists).
  - pose proof (processed_fits _ _ Hnd Hsub). lia.
  - destruct (NoDup_snoc_fresh _ _ _ Hnd) as [Hc Hnd'].
    cbn [reachable_loop]. rewrite decide_False; [|done].
    destruct (sts !! c) as [st|] eqn:Hst; [|by eexists].
    assert (∀ s, s ∈ processed_queue ++ [c] → is_Some (sts !! s)) as Hsub'.
    { intros s [Hs|Hs%list_elem_of_singleton]%elem_of_app; [auto|].
      subst s. eauto. }
    destruct (InteractionInstance.is_terminal _ _) as [[]|]; [| |by eexists].
    + apply IH; [done..|]. rewrite length_app. simpl. lia.
    + apply IH; [by apply NoDup_enqueue_destinations|done|].
      rewrite length_app. simpl. lia.
Qed.

Lemma dead_end_loop_total items fuel processed_queue curr_queue :
  (∀ n st, (n, st) ∈ items → is_Some (sts !! n)) →
  NoDup (processed_queue ++ curr_queue) →
  (∀ s, s ∈ processed_queue ++ curr_queue → is_Some (sts !! s)) →
  (size sts < fuel + length processed_queue)%nat →
  is_Some (dead_end_loop fuel items processed_queue curr_queue).
Proof.
  intros Hitems. revert processed_queue curr_queue.
  induction fuel as [|fuel IH]; intros processed_queue [|c q] Hnd Hsub Hfuel;
    try (by eexists).
  - assert (length (processed_queue ++ [c]) ≤ size sts)%nat as Hlen.
    { destruct (NoDup_snoc_fresh _ _ _ Hnd) as [_ Hnd'].
      apply (processed_fits _ q); [done|].
      intros s Hs. apply Hsub. set_solver. }
    rewrite length_app in Hlen. simpl in Hlen. lia.
  - destruct (NoDup_snoc_fresh _ _ _ Hnd) as [Hc Hnd'].
    cbn [dead_end_loop]. rewrite decide_False; [|done].
    apply IH.
    + by apply NoDup_enqueue_predecessors.
    + intros s [Hs|Hs]%elem_of_app.
      * apply Hsub. set_solver.
      * apply elem_of_enqueue_predecessors in Hs as [Hs|(st & Hst & _)].
        -- apply Hsub. set_solver.
        -- by eapply Hitems.
    + rewrite length_app. simpl. lia.
Qed.

Lemma terminal_state_names_keys items T :
  terminal_state_names get_interaction_by_id items = Ok T →
  NoDup items.*1 →
  NoDup T ∧ ∀ t, t ∈ T → t ∈ items.*1.
Proof.
  revert T. induction items as [|[n st] items IH]; intros T HT Hnd.
  - injection HT as <-. split; [constructor|done].
  - cbn [terminal_state_names] in HT.
    apply bind_Ok_inv in HT as (b & _ & HT).
    apply bind_Ok_inv in HT as (rest & Hrest & HT).
    injection HT as <-.
    rewrite fmap_cons in Hnd. apply NoDup_cons in Hnd as [Hn Hnd].
    destruct (IH rest Hrest Hnd) as [Hnd' Hsub].
    rewrite fmap_cons. destruct b.
    + split.
      * apply NoDup_cons. split; [|done]. intros Hin. by apply Hn, Hsub.
      * intros t [->|Ht]%elem_of_cons; [left|right; auto].
    + split; [done|]. intros t Ht. right. auto.
Qed.

End loops_terminate.

(** [_verify_all_states_reachable] returns or raises on every exploration,
    well formed or not. *)
Lemma verify_all_states_reachable_total
    (get_interaction_by_id : string → option BaseInteraction)
    (list_of_set : gset string → list string) (self : Exploration) :
  is_Some (Exploration._verify_all_states_reachable get_interaction_by_id
             list_of_set self).
Proof.
  unfold Exploration._verify_all_states_reachable.
  destruct (reachable_loop_total get_interaction_by_id (states self)
              (S (size (states self))) [] [init_state_name self])
    as [r Hr].
  - simpl. apply NoDup_singleton.
  - intros s Hs. inversion Hs.
  - simpl. lia.
  - rewrite Hr. simpl. by eexists.
Qed.

(** So does [_verify_no_dead_ends], as long as walking the dict yields its
    items. *)
Lemma verify_no_dead_ends_total
    (get_interaction_by_id : string → option BaseInteraction)
    (dict_items : ∀ V, gmap string V → list (string * V))
    (list_of_set : gset string → list string) (self : Exploration) :
  (∀ V (m : gmap string V), dict_items V m ≡ₚ map_to_list m) →
  is_Some (Exploration._verify_no_dead_ends get_interaction_by_id dict_items
             list_of_set self).
Proof.
  intros Hperm. unfold Exploration._verify_no_dead_ends.
  set (items := dict_items State (states self)).
  assert (∀ n st, (n, st) ∈ items → is_Some (states self !! n)) as Hitems.
  { intros n st. unfold items. rewrite Hperm, elem_of_map_to_list. eauto. }
  assert (NoDup items.*1) as Hkeys.
  { unfold items. rewrite Hperm. apply NoDup_fst_map_to_list. }
  destruct (Exploration.terminal_state_names _ items) as [T|e] eqn:HT;
    [|by eexists].
  destruct (terminal_state_names_keys _ _ _ HT Hkeys) as [HndT HsubT].
  destruct (dead_end_loop_total get_interaction_by_id (states self) items
              (S (size (states self))) [] T Hitems) as [r Hr].
  - done.
  - intros s Hs. simpl in Hs. apply HsubT in Hs.
    apply list_elem_of_fmap in Hs as ([n st] & -> & Hin). by eapply Hitems.
  - simpl. lia.
  - rewrite Hr. simpl. by eexists.
Qed.

(** ** What [rename_state] does to the states *)

Section rename_state_facts.
Import Exploration.

Variable require_valid_name : string → string → result unit.

(** The part of C6 that the code does carry out: after
    [rename_state old new] the state sits under its new name, the initial
    state name follows, and every outcome that led to [old] leads to [new].
    The skin, and with it every [visible_in_states], is as before. *)
Lemma rename_state_rewrites_destinations self old_state_name new_state_name
    old_state :
  states self !! old_state_name = Some old_state →
  old_state_name ≠ new_state_name →
  states self !! new_state_name = None →
  require_valid_name new_state_name "a state name" = Ok () →
  ∃ self',
    rename_state require_valid_name old_state_name new_state_name self
    = (self', Ok ())
    ∧ init_state_name self'
      = (if decide (init_state_name self = old_state_name)
         then new_state_name else init_state_name self)
    ∧ states self' !! old_state_name = None
    ∧ states self' !! new_state_name
      = Some (redirect_state old_state_name new_state_name old_state)
    ∧ (∀ name, name ≠ old_state_name → name ≠ new_state_name →
         states self' !! name
         = redirect_state old_state_name new_state_name <$> states self !! name)
    ∧ (∀ name st' o,
         states self' !! name = Some st' →
         o ∈ InteractionInstance.get_all_outcomes (interaction st') →
         dest o ≠ old_state_name)
    ∧ skin_instance self' = skin_instance self.
Proof.
  intros Hold Hne Hnew Hvalid. eexists. split; [by apply rename_state_ok|].
  simpl. split; [done|].
  split; [by rewrite lookup_fmap, lookup_delete_eq|].
  split.
  { by rewrite lookup_fmap, lookup_delete_ne, lookup_insert_eq. }
  split.
  { intros name H1 H2.
    by rewrite lookup_fmap, lookup_delete_ne, lookup_insert_ne. }
  split; [|done].
  intros name st' o Hst' Ho. rewrite lookup_fmap in Hst'.
  destruct (delete _ _ !! name) as [st|]; [|done].
  injection Hst' as <-.
  apply (redirect_state_clears old_state_name new_state_name st); [|done].
  by intros ->.
Qed.

End rename_state_facts.

(** * Further properties of the state operations *)

(** ** Redirecting the outcomes of a state *)

Section redirect_facts.
Import Exploration.

Lemma update_all_outcomes_id f i :
  (∀ o, o ∈ InteractionInstance.get_all_outcomes i → f o = o) →
  InteractionInstance.update_all_outcomes f i = i.
Proof.
  intros Hf. destruct i as [id ca ags dflt cua fbs hs sol].
  unfold InteractionInstance.update_all_outcomes,
    InteractionInstance.get_all_outcomes,
    InteractionInstance.get_all_non_fallback_outcomes in *.
  simpl in *. f_equal.
  - rewrite <- (list_fmap_id ags) at 2. apply list_fmap_ext.
    intros k [rs o c] Hk. simpl. f_equal. apply Hf.
    apply elem_of_app. left.
    assert (o ∈ outcome <$> ags) as Ho.
    { apply list_elem_of_fmap. eexists. split; [|eapply list_elem_of_lookup_2, Hk].
      done. }
    destruct dflt; [apply elem_of_app; by left|done].
  - destruct dflt as [o|]; [|done]. simpl. f_equal. apply Hf.
    apply elem_of_app. left. apply elem_of_app. right. left.
  - rewrite <- (list_fmap_id fbs) at 2. apply list_fmap_ext.
    intros k [t o] Hk. simpl. f_equal. apply Hf.
    apply elem_of_app. right.
    apply list_elem_of_fmap. eexists. split; [|eapply list_elem_of_lookup_2, Hk].
    done.
Qed.

Lemma update_all_outcomes_compose f g i :
  InteractionInstance.update_all_outcomes f
    (InteractionInstance.update_all_outcomes g i)
  = InteractionInstance.update_all_outcomes (f ∘ g) i.
Proof.
  unfold InteractionInstance.update_all_outcomes. simpl.
  rewrite <- !list_fmap_compose. f_equal. by destruct (default_outcome i).
Qed.

(** A state that does not lead to [from] is not touched by the redirection. *)
Lemma redirect_state_id from to st :
  (∀ o, o ∈ InteractionInstance.get_all_outcomes (interaction st) →
        dest o ≠ from) →
  redirect_state from to st = st.
Proof.
  intros Hno. unfold redirect_state.
  rewrite update_all_outcomes_id; [by destruct st|].
  intros o Ho. unfold redirect. rewrite decide_False; [done|]. by apply Hno.
Qed.

(** Redirecting from [a] to [b] and back is the identity on a state that
    did not lead to [b]. *)
Lemma redirect_state_inverse a b st :
  (∀ o, o ∈ InteractionInstance.get_all_outcomes (interaction st) →
        dest o ≠ b) →
  redirect_state b a (redirect_state a b st) = st.
Proof.
  intros Hno. unfold redirect_state. simpl.
  rewrite update_all_outcomes_compose.
  rewrite (update_all_outcomes_id (redirect b a ∘ redirect a b));
    [by destruct st|].
  intros o Ho. simpl. unfold redirect.
  destruct (decide (dest o = a)) as [Ha|Ha]; simpl.
  - rewrite decide_True by done. destruct o. simpl in *. by subst.
  - rewrite decide_False; [done|]. by apply Hno.
Qed.

End redirect_facts.

(** ** How [rename_state] and [delete_state] end *)

Section state_operation_outcomes.
Import Exploration.

Variable require_valid_name : string → string → result unit.

Lemma rename_state_missing self old_state_name new_state_name :
  states self !! old_state_name = None →
  rename_state require_valid_name old_state_name new_state_name self
  = (self, Raise (ValueError "State %s does not exist" [ArgStr old_state_name])).
Proof.
  intros Hold.
  unfold rename_state, mbind, stateful_bind, get_self, raise.
  by rewrite Hold.
Qed.

Lemma rename_state_duplicate self old_state_name new_state_name :
  is_Some (states self !! old_state_name) →
  old_state_name ≠ new_state_name →
  is_Some (states self !! new_state_name) →
  rename_state require_valid_name old_state_name new_state_name self
  = (self, Raise (ValueError "Duplicate state name: %s" [ArgStr new_state_name])).
Proof.
  intros [old_state Hold] Hne Hnew.
  unfold rename_state, mbind, stateful_bind, get_self, raise.
  rewrite Hold. by rewrite decide_True.
Qed.

Lemma rename_state_same self state_name :
  is_Some (states self !! state_name) →
  rename_state require_valid_name state_name state_name self = (self, Ok ()).
Proof.
  intros [old_state Hold].
  unfold rename_state, mbind, stateful_bind, get_self, raise.
  rewrite Hold. rewrite decide_False by (by intros [? _]).
  by rewrite decide_True.
Qed.

Lemma rename_state_invalid self old_state_name new_state_name e :
  is_Some (states self !! old_state_name) →
  old_state_name ≠ new_state_name →
  states self !! new_state_name = None →
  require_valid_name new_state_name "a state name" = Raise e →
  rename_state require_valid_name old_state_name new_state_name self
  = (self, Raise e).
Proof.
  intros [old_state Hold] Hne Hnew Hinvalid.
  unfold rename_state, mbind, stateful_bind, get_self, raise, lift,
    _require_valid_state_name.
  rewrite Hold.
  rewrite decide_False by (intros [_ [? ?]]; congruence).
  rewrite decide_False by done.
  by rewrite Hinvalid.
Qed.

(** The five ways [rename_state] can go. *)
Lemma rename_state_cases self old_state_name new_state_name :
  let r := rename_state require_valid_name old_state_name new_state_name self in
  (states self !! old_state_name = None
   ∧ r = (self, Raise (ValueError "State %s does not exist"
                         [ArgStr old_state_name])))
  ∨ (is_Some (states self !! old_state_name)
     ∧ old_state_name ≠ new_state_name
     ∧ is_Some (states self !! new_state_name)
     ∧ r = (self, Raise (ValueError "Duplicate state name: %s"
                           [ArgStr new_state_name])))
  ∨ (is_Some (states self !! old_state_name)
     ∧ old_state_name = new_state_name
     ∧ r = (self, Ok ()))
  ∨ (∃ e, is_Some (states self !! old_state_name)
     ∧ old_state_name ≠ new_state_name
     ∧ states self !! new_state_name = None
     ∧ require_valid_name new_state_name "a state name" = Raise e
     ∧ r = (self, Raise e))
  ∨ (∃ old_state, states self !! old_state_name = Some old_state
     ∧ old_state_name ≠ new_state_name
     ∧ states self !! new_state_name = None
     ∧ require_valid_name new_state_name "a state name" = Ok ()
     ∧ r = (with_states
              (with_init_state_name self
                 (if decide (init_state_name self = old_state_name)
                  then new_state_name else init_state_name self))
              (redirect_state old_state_name new_state_name
               <$> delete old_state_name
                     (<[new_state_name := old_state]> (states self))),
            Ok ())).
Proof.
  intros r. unfold r.
  destruct (states self !! old_state_name) as [old_state|] eqn:Hold;
    [|left; split; [done|by apply rename_state_missing]].
  right.
  destruct (decide (old_state_name = new_state_name)) as [<-|Hne].
  { right. left. split; [done|]. split; [done|].
    apply rename_state_same. by rewrite Hold. }
  destruct (states self !! new_state_name) as [new_state|] eqn:Hnew.
  { left. split; [done|]. split; [done|]. split; [done|].
    apply rename_state_duplicate; [by rewrite Hold|done|by rewrite Hnew]. }
  right. right.
  destruct (require_valid_name new_state_name "a state name") as [[]|e] eqn:Hv.
  - right. exists old_state. repeat (split; [done|]).
    by apply rename_state_ok.
  - left. exists e. repeat (split; [done|]).
    apply rename_state_invalid; [by rewrite Hold|done..].
Qed.

(** X1.  [rename_state] is all or nothing: whenever it raises, the
    exploration is exactly as it was.  It raises a [ValueError] when the old
    name is not a state or when the new name differs from the old one and is
    taken, and otherwise only with the exception of the name check on the
    new name, which runs before any state is touched. *)
Theorem X1_rename_state_raise_leaves_exploration
    self old_state_name new_state_name self' e :
  rename_state require_valid_name old_state_name new_state_name self
  = (self', Raise e) →
  self' = self
  ∧ ((states self !! old_state_name = None
      ∧ e = ValueError "State %s does not exist" [ArgStr old_state_name])
     ∨ (old_state_name ≠ new_state_name
        ∧ is_Some (states self !! new_state_name)
        ∧ e = ValueError "Duplicate state name: %s" [ArgStr new_state_name])
     ∨ (old_state_name ≠ new_state_name
        ∧ states self !! new_state_name = None
        ∧ require_valid_name new_state_name "a state name" = Raise e)).
Proof.
  intros Hr.
  destruct (rename_state_cases self old_state_name new_state_name)
    as [[H1 H]|[(H1 & H2 & H3 & H)|[(H1 & H2 & H)|[(e' & H1 & H2 & H3 & H4 & H)
       |(old_state & H1 & H2 & H3 & H4 & H)]]]];
    rewrite H in Hr; simplify_eq; split; try done.
  - by left.
  - right. by left.
  - right. by right.
Qed.

Lemma delete_state_cases self state_name :
  let r := delete_state state_name self in
  (states self !! state_name = None
   ∧ r = (self, Raise (ValueError "State %s does not exist" [ArgStr state_name])))
  ∨ (is_Some (states self !! state_name)
     ∧ init_state_name self = state_name
     ∧ r = (self, Raise (ValueError
                           "Cannot delete initial state of an exploration." [])))
  ∨ (is_Some (states self !! state_name)
     ∧ init_state_name self ≠ state_name
     ∧ r = (with_states self
              (delete state_name
                 (map_imap (λ other_state_name other_state,
                              Some (redirect_state state_name other_state_name
                                      other_state))
                           (states self))),
            Ok ())).
Proof.
  intros r. unfold r.
  destruct (states self !! state_name) as [st|] eqn:Hst.
  - right.
    destruct (decide (init_state_name self = state_name)) as [Hinit|Hinit].
    + left. split; [done|]. split; [done|].
      unfold delete_state, mbind, stateful_bind, get_self, raise.
      rewrite decide_False by congruence. by rewrite decide_True.
    + right. split; [done|]. split; [done|].
      apply delete_state_ok; [by rewrite Hst|done].
  - left. split; [done|].
    unfold delete_state, mbind, stateful_bind, get_self, raise.
    by rewrite decide_True.
Qed.

(** X2.  [delete_state] is all or nothing as well: it raises exactly for a
    name that is not a state and for the initial state, with a [ValueError]
    each time, and the exploration is then exactly as it was. *)
Theorem X2_delete_state_raises_iff_missing_or_initial self state_name :
  let r := Exploration.delete_state state_name self in
  (raises r.2
   ↔ states self !! state_name = None ∨ init_state_name self = state_name)
  ∧ (raises r.2 → r.1 = self ∧ ∃ template args, r.2 = Raise (ValueError template args)).
Proof.
  intros r. unfold r.
  destruct (delete_state_cases self state_name)
    as [[H1 H]|[(H1 & H2 & H)|(H1 & H2 & H)]]; rewrite H; simpl.
  - split; [split; [by left|done]|]. intros _. split; [done|]. by eexists _, _.
  - split; [split; [by right|done]|]. intros _. split; [done|]. by eexists _, _.
  - split; [|done]. split; [done|].
    intros [Hnone|Hinit]; [|done]. rewrite Hnone in H1. by destruct H1.
Qed.

End state_operation_outcomes.

(** X1 at the cycle [A -> B, B -> A]: renaming ["A"] to the taken name
    ["B"] raises and leaves the exploration alone. *)
Lemma X1_witness :
  Examples.exploration_AB_cycle = Examples.exploration_AB_cycle
  ∧ ((states Examples.exploration_AB_cycle !! "A" = None
      ∧ ValueError "Duplicate state name: %s" [ArgStr "B"]
        = ValueError "State %s does not exist" [ArgStr "A"])
     ∨ ("A" ≠ "B"
        ∧ is_Some (states Examples.exploration_AB_cycle !! "B")
        ∧ ValueError "Duplicate state name: %s" [ArgStr "B"]
          = ValueError "Duplicate state name: %s" [ArgStr "B"])
     ∨ ("A" ≠ "B"
        ∧ states Examples.exploration_AB_cycle !! "B" = None
        ∧ Examples.any_name_valid "B" "a state name"
          = Raise (ValueError "Duplicate state name: %s" [ArgStr "B"]))).
Proof.
  apply (X1_rename_state_raise_leaves_exploration Examples.any_name_valid
           Examples.exploration_AB_cycle "A" "B").
  vm_compute. reflexivity.
Defined.

(** ** Renaming and deleting keep the state graph well formed *)

Section state_operation_invariants.
Import Exploration.

Variable require_valid_name : string → string → result unit.

(** X3.  Renaming a state to a fresh name and back gives the exploration
    it started from, as long as the initial state exists and no outcome
    led to the fresh name before (such a dangling destination would be
    caught by the first renaming and come back pointing at the state). *)
Theorem X3_rename_state_round_trip self a b old_state :
  states self !! a = Some old_state →
  a ≠ b →
  states self !! b = None →
  is_Some (states self !! init_state_name self) →
  no_outcome_leads_to (states self) b →
  require_valid_name a "a state name" = Ok () →
  require_valid_name b "a state name" = Ok () →
  ∃ renamed,
    rename_state require_valid_name a b self = (renamed, Ok ())
    ∧ states renamed !! a = None
    ∧ is_Some (states renamed !! b)
    ∧ rename_state require_valid_name b a renamed = (self, Ok ()).
Proof.
  intros Ha Hne Hb Hinit Hfresh0 Hva Hvb.
  assert (∀ name st o,
            states self !! name = Some st →
            o ∈ InteractionInstance.get_all_outcomes (interaction st) →
            dest o ≠ b) as Hfresh.
  { intros name st o Hst. pose proof (Hfresh0 name st Hst) as Hall.
    simpl in Hall. rewrite Forall_forall in Hall. apply Hall. }
  eexists. split; [by apply rename_state_ok|].
  split; [simpl; by rewrite lookup_fmap, lookup_delete_eq|].
  split.
  { simpl. rewrite lookup_fmap, lookup_delete_ne, lookup_insert_eq by done.
    by eexists. }
  erewrite rename_state_ok; [|simpl..].
  2: { by rewrite lookup_fmap, lookup_delete_ne, lookup_insert_eq. }
  2: { done. }
  2: { by rewrite lookup_fmap, lookup_delete_eq. }
  2: { done. }
  f_equal. destruct self as [eid ti ca ob lc tg bl an ssv init skin sts ps pcs v].
  unfold with_states, with_init_state_name. simpl in *. f_equal.
  - destruct (decide (init = a)) as [->|Hia].
    + by rewrite decide_True.
    + rewrite decide_False; [done|]. intros ->. rewrite Hb in Hinit.
      by destruct Hinit.
  - apply map_eq. intros k. rewrite lookup_fmap.
    destruct (decide (k = b)) as [->|Hkb].
    { by rewrite lookup_delete_eq, Hb. }
    rewrite lookup_delete_ne by done.
    destruct (decide (k = a)) as [->|Hka].
    { rewrite lookup_insert_eq, Ha. simpl. f_equal.
      apply redirect_state_inverse. intros o. by apply (Hfresh a). }
    rewrite lookup_insert_ne by done.
    rewrite lookup_fmap, lookup_delete_ne, lookup_insert_ne by done.
    destruct (sts !! k) as [st|] eqn:Hk; [|done]. simpl. f_equal.
    apply redirect_state_inverse. intros o. by apply (Hfresh k).
Qed.

(** Where an outcome of a state of the renamed exploration leads. *)
Lemma renamed_states_lookup (sts : gmap string State) a b old_state k st' :
  sts !! a = Some old_state →
  a ≠ b →
  (redirect_state a b <$> delete a (<[b := old_state]> sts)) !! k = Some st' →
  ∃ k0 st, sts !! k0 = Some st ∧ st' = redirect_state a b st.
Proof.
  intros Ha Hne. rewrite lookup_fmap.
  destruct (decide (k = a)) as [->|Hka]; [by rewrite lookup_delete_eq|].
  rewrite lookup_delete_ne by done.
  destruct (decide (k = b)) as [->|Hkb].
  - rewrite lookup_insert_eq. simpl. intros [= <-]. by exists a, old_state.
  - rewrite lookup_insert_ne by done.
    destruct (sts !! k) as [st|] eqn:Hk; [|done]. simpl. intros [= <-].
    by exists k, st.
Qed.

(** X4.  [rename_state] keeps the state graph well formed: if every
    outcome led to an existing state and the initial state existed before,
    the same holds after a renaming that returned. *)
Theorem X4_rename_state_keeps_graph_well_formed
    self old_state_name new_state_name self' :
  destinations_exist (states self) →
  is_Some (states self !! init_state_name self) →
  rename_state require_valid_name old_state_name new_state_name self
  = (self', Ok ()) →
  destinations_exist (states self')
  ∧ is_Some (states self' !! init_state_name self').
Proof.
  intros Hdest Hinit Hr.
  destruct (rename_state_cases require_valid_name self old_state_name
              new_state_name)
    as [[H1 H]|[(H1 & H2 & H3 & H)|[(H1 & H2 & H)|[(e' & H1 & H2 & H3 & H4 & H)
       |(old_state & H1 & H2 & H3 & H4 & H)]]]];
    rewrite H in Hr; simplify_eq; [done|].
  simpl.
  assert (∀ d, is_Some (states self !! d) →
            is_Some ((redirect_state old_state_name new_state_name
                      <$> delete old_state_name
                            (<[new_state_name := old_state]> (states self)))
                     !! (if decide (d = old_state_name)
                         then new_state_name else d))) as Hkeep.
  { intros d Hd. rewrite lookup_fmap, fmap_is_Some.
    destruct (decide (d = old_state_name)) as [->|Hdo].
    - rewrite lookup_delete_ne, lookup_insert_eq by done. by eexists.
    - rewrite lookup_delete_ne by done.
      destruct (decide (d = new_state_name)) as [->|Hdn].
      + rewrite lookup_insert_eq. by eexists.
      + by rewrite lookup_insert_ne. }
  split; [|by apply Hkeep].
  intros k st' Hst'.
  destruct (renamed_states_lookup _ _ _ _ _ _ H1 H2 Hst') as (k0 & st & Hk0 & ->).
  rewrite outcomes_redirect_state. apply Forall_fmap, Forall_forall.
  intros o Ho. simpl. rewrite dest_redirect. apply Hkeep.
  pose proof (Hdest k0 st Hk0) as Hall. simpl in Hall.
  rewrite Forall_forall in Hall. by apply Hall.
Qed.

(** X5.  [delete_state] keeps the state graph well formed too: the
    outcomes that led to the deleted state now lead to their own state, so
    no destination dangles, and the initial state is still there. *)
Theorem X5_delete_state_keeps_graph_well_formed self state_name self' :
  destinations_exist (states self) →
  is_Some (states self !! init_state_name self) →
  delete_state state_name self = (self', Ok ()) →
  destinations_exist (states self')
  ∧ init_state_name self' = init_state_name self
  ∧ is_Some (states self' !! init_state_name self').
Proof.
  intros Hdest Hinit Hr.
  destruct (delete_state_cases self state_name)
    as [[H1 H]|[(H1 & H2 & H)|(H1 & H2 & H)]];
    rewrite H in Hr; simplify_eq.
  simpl.
  assert (∀ k, k ≠ state_name → is_Some (states self !! k) →
            is_Some (delete state_name
                       (map_imap (λ n st, Some (redirect_state state_name n st))
                          (states self)) !! k)) as Hkeep.
  { intros k Hk [st Hst]. rewrite lookup_delete_ne by done.
    rewrite map_lookup_imap, Hst. by eexists. }
  split; [|split; [done|by apply Hkeep]].
  intros k st' Hst'.
  destruct (decide (k = state_name)) as [->|Hk].
  { by rewrite lookup_delete_eq in Hst'. }
  rewrite lookup_delete_ne in Hst' by done.
  rewrite map_lookup_imap in Hst'.
  destruct (states self !! k) as [st|] eqn:Hst; [|done].
  simpl in Hst'. injection Hst' as <-.
  rewrite outcomes_redirect_state. apply Forall_fmap, Forall_forall.
  intros o Ho. simpl. rewrite dest_redirect.
  destruct (decide (dest o = state_name)) as [Hd|Hd].
  - apply Hkeep; [done|]. by rewrite Hst.
  - apply Hkeep; [done|].
    pose proof (Hdest k st Hst) as Hall. simpl in Hall.
    rewrite Forall_forall in Hall. by apply Hall.
Qed.

End state_operation_invariants.

(** X3 at the cycle [A -> B, B -> A], renaming ["A"] to ["C"] and back. *)
Lemma X3_witness :
  ∃ renamed,
    Exploration.rename_state Examples.any_name_valid "A" "C"
      Examples.exploration_AB_cycle = (renamed, Ok ())
    ∧ states renamed !! "A" = None
    ∧ is_Some (states renamed !! "C")
    ∧ Exploration.rename_state Examples.any_name_valid "C" "A" renamed
      = (Examples.exploration_AB_cycle, Ok ()).
Proof.
  apply (X3_rename_state_round_trip Examples.any_name_valid
           Examples.exploration_AB_cycle "A" "C" (Examples.state_to "B")).
  - vm_compute. reflexivity.
  - discriminate.
  - vm_compute. reflexivity.
  - vm_compute. eauto.
  - refine (@bool_decide_unpack _ (no_outcome_leads_to_dec _ _) _).
    vm_compute. exact I.
  - reflexivity.
  - reflexivity.
Defined.

(** X4 at the cycle [A -> B, B -> A] with ["A"] renamed to ["C"]. *)
Lemma X4_witness :
  destinations_exist
    (states (Exploration.rename_state Examples.any_name_valid "A" "C"
               Examples.exploration_AB_cycle).1)
  ∧ is_Some
      (states (Exploration.rename_state Examples.any_name_valid "A" "C"
                 Examples.exploration_AB_cycle).1
       !! init_state_name
            (Exploration.rename_state Examples.any_name_valid "A" "C"
               Examples.exploration_AB_cycle).1).
Proof.
  apply (X4_rename_state_keeps_graph_well_formed Examples.any_name_valid
           Examples.exploration_AB_cycle "A" "C").
  - refine (@bool_decide_unpack _ (destinations_exist_dec _) _).
    vm_compute. exact I.
  - vm_compute. eauto.
  - vm_compute. reflexivity.
Defined.

(** X5 at [A -> B, B -> C, C terminal, D] with ["B"] deleted. *)
Lemma X5_witness :
  destinations_exist
    (states (Exploration.delete_state "B" Examples.exploration_ABCD).1)
  ∧ init_state_name (Exploration.delete_state "B" Examples.exploration_ABCD).1
    = init_state_name Examples.exploration_ABCD
  ∧ is_Some
      (states (Exploration.delete_state "B" Examples.exploration_ABCD).1
       !! init_state_name
            (Exploration.delete_state "B" Examples.exploration_ABCD).1).
Proof.
  apply (X5_delete_state_keeps_graph_well_formed
           Examples.exploration_ABCD "B").
  - refine (@bool_decide_unpack _ (destinations_exist_dec _) _).
    vm_compute. exact I.
  - vm_compute. eauto.
  - vm_compute. reflexivity.
Defined.

(** ** Adding states *)

Section add_states_facts.
Import Exploration.

Variable clean : string → string.
Variable DEFAULT_INIT_STATE_CONTENT_STR : string.

Local Abbreviation default_state name :=
  (State.create_default_state clean DEFAULT_INIT_STATE_CONTENT_STR name false).
Local Abbreviation add_states :=
  (Exploration.add_states clean DEFAULT_INIT_STATE_CONTENT_STR).

(** The dict after the second loop of [add_states]. *)
Lemma lookup_add_default_states (sts : gmap string State) state_names k :
  foldl (λ states state_name, <[state_name := default_state state_name]> states)
        sts state_names !! k
  = if decide (k ∈ state_names) then Some (default_state k) else sts !! k.
Proof.
  revert sts. induction state_names as [|n l IH]; intros sts; simpl.
  - done.
  - rewrite IH. destruct (decide (k ∈ l)) as [Hin|Hin].
    + rewrite decide_True; [done|]. by right.
    + destruct (decide (k = n)) as [->|Hne].
      * rewrite lookup_insert_eq, decide_True; [done|]. left.
      * rewrite lookup_insert_ne by done. rewrite decide_False; [done|].
        by intros [?|?]%elem_of_cons.
Qed.

Lemma add_states_cases self state_names :
  let r := add_states state_names self in
  (Forall (λ n, states self !! n = None) state_names
   ∧ r = (with_states self
            (foldl (λ states state_name,
                      <[state_name := default_state state_name]> states)
                   (states self) state_names),
          Ok ()))
  ∨ (∃ i n, state_names !! i = Some n
     ∧ is_Some (states self !! n)
     ∧ (∀ j m, state_names !! j = Some m → (j < i)%nat → states self !! m = None)
     ∧ r = (self, Raise (ValueError "Duplicate state name %s" [ArgStr n]))).
Proof.
  intros r. unfold r, Exploration.add_states, mbind, stateful_bind, get_self,
    raise, assign.
  destruct (list_find _ state_names) as [[i n]|] eqn:Hfind.
  - right. apply list_find_Some in Hfind as (Hi & Hn & Hbefore).
    exists i, n. split; [done|]. split; [done|]. split; [|done].
    intros j m Hj Hlt. specialize (Hbefore j m Hj Hlt).
    by apply eq_None_not_Some.
  - left. split; [|done]. apply list_find_None in Hfind.
    eapply Forall_impl; [exact Hfind|]. intros n Hn. simpl in Hn.
    by apply eq_None_not_Some.
Qed.

(** X6.  [add_states] raises exactly when one of the given names is already
    a state; the [ValueError] names the first such name of the list and no
    state has been added. *)
Theorem X6_add_states_raises_iff_name_taken self state_names :
  let r := Exploration.add_states clean DEFAULT_INIT_STATE_CONTENT_STR
             state_names self in
  (raises r.2 ↔ Exists (λ n, is_Some (states self !! n)) state_names)
  ∧ (raises r.2 →
     r.1 = self
     ∧ ∃ i n, state_names !! i = Some n
         ∧ is_Some (states self !! n)
         ∧ (∀ j m, state_names !! j = Some m → (j < i)%nat →
                   states self !! m = None)
         ∧ r.2 = Raise (ValueError "Duplicate state name %s" [ArgStr n])).
Proof.
  intros r. unfold r.
  destruct (add_states_cases self state_names)
    as [[Hfree H]|(i & n & Hi & Hn & Hbefore & H)]; rewrite H; simpl.
  - split; [|done]. split; [done|]. intros Hex.
    apply Exists_exists in Hex as (n & Hin & [st Hst]).
    rewrite Forall_forall in Hfree. rewrite (Hfree n Hin) in Hst. done.
  - split.
    + split; [|done]. intros _. apply Exists_exists. exists n.
      split; [by eapply list_elem_of_lookup_2|done].
    + intros _. split; [done|]. by exists i, n.
Qed.

(** X7.  When none of the names is taken, [add_states] returns: the keys
    are the old ones and the new names (a name given twice is no error),
    each new state is the default state that leads to itself, every other
    state and the initial state name are as before, and a well-formed state
    graph stays well formed. *)
Theorem X7_add_states_adds_default_states self state_names :
  Forall (λ n, states self !! n = None) state_names →
  ∃ self',
    Exploration.add_states clean DEFAULT_INIT_STATE_CONTENT_STR
      state_names self = (self', Ok ())
    ∧ dom (states self') = dom (states self) ∪ list_to_set state_names
    ∧ (∀ n, n ∈ state_names →
         states self' !! n
         = Some (State.create_default_state clean
                   DEFAULT_INIT_STATE_CONTENT_STR n false))
    ∧ (∀ n, n ∉ state_names → states self' !! n = states self !! n)
    ∧ init_state_name self' = init_state_name self
    ∧ skin_instance self' = skin_instance self
    ∧ (destinations_exist (states self) → destinations_exist (states self')).
Proof.
  intros Hfree.
  destruct (add_states_cases self state_names)
    as [[_ H]|(i & n & Hi & [st Hn] & _ & _)].
  2: { rewrite Forall_forall in Hfree.
       rewrite (Hfree n) in Hn; [done|]. by eapply list_elem_of_lookup_2. }
  eexists. split; [exact H|]. simpl.
  split; [|split; [|split; [|split; [done|split; [done|]]]]].
  - apply set_eq. intros k.
    rewrite elem_of_union, !elem_of_dom, lookup_add_default_states,
      elem_of_list_to_set.
    destruct (decide (k ∈ state_names)); [|tauto].
    split; [by right|by eexists].
  - intros n Hin. rewrite lookup_add_default_states. by rewrite decide_True.
  - intros n Hin. rewrite lookup_add_default_states. by rewrite decide_False.
  - intros Hdest k st Hst. rewrite lookup_add_default_states in Hst.
    simpl.
    assert (∀ d, is_Some (states self !! d) →
              is_Some (foldl (λ states state_name,
                                <[state_name := default_state state_name]> states)
                             (states self) state_names !! d)) as Hgrow.
    { intros d Hd. rewrite lookup_add_default_states.
      destruct (decide (d ∈ state_names)); [by eexists|done]. }
    destruct (decide (k ∈ state_names)) as [Hin|Hin].
    + injection Hst as <-. simpl. repeat constructor. simpl.
      rewrite lookup_add_default_states. rewrite decide_True by done.
      by eexists.
    + pose proof (Hdest k st Hst) as Hall. simpl in Hall.
      eapply Forall_impl; [exact Hall|]. intros o Ho. by apply Hgrow.
Qed.

(** X8.  Adding a state and deleting it again gives the exploration it
    started from, when the name was free, is not the initial state name and
    no outcome led to it. *)
Theorem X8_add_states_delete_state_round_trip self state_name :
  states self !! state_name = None →
  init_state_name self ≠ state_name →
  no_outcome_leads_to (states self) state_name →
  ∃ added,
    Exploration.add_states clean DEFAULT_INIT_STATE_CONTENT_STR
      [state_name] self = (added, Ok ())
    ∧ is_Some (states added !! state_name)
    ∧ delete_state state_name added = (self, Ok ()).
Proof.
  intros Hfree Hinit Hfresh.
  destruct (add_states_cases self [state_name])
    as [[_ H]|(i & n & Hi & [st Hn] & _ & _)].
  2: { apply list_elem_of_lookup_2, list_elem_of_singleton in Hi. subst n.
       by rewrite Hfree in Hn. }
  eexists. split; [exact H|]. simpl.
  split; [rewrite lookup_insert_eq; by eexists|].
  rewrite delete_state_ok; [|simpl; rewrite lookup_insert_eq; by eexists|done].
  f_equal. destruct self as [eid ti ca ob lc tg bl an ssv init skin sts ps pcs v].
  unfold with_states. simpl in *. f_equal.
  apply map_eq. intros k.
  destruct (decide (k = state_name)) as [->|Hk].
  { by rewrite lookup_delete_eq, Hfree. }
  rewrite lookup_delete_ne by done.
  rewrite map_lookup_imap, lookup_insert_ne by done.
  destruct (sts !! k) as [st|] eqn:Hst; [|done]. simpl. f_equal.
  apply redirect_state_id. intros o Ho.
  pose proof (Hfresh k st Hst) as Hall. simpl in Hall.
  rewrite Forall_forall in Hall. by apply Hall.
Qed.

End add_states_facts.

(** X7 at the cycle [A -> B, B -> A] with the names ["C"] and ["C"]. *)
Lemma X7_witness :
  ∃ self',
    Exploration.add_states Examples.drop_lt "" ["C"; "C"]
      Examples.exploration_AB_cycle = (self', Ok ())
    ∧ dom (states self')
      = dom (states Examples.exploration_AB_cycle) ∪ list_to_set ["C"; "C"]
    ∧ (∀ n, n ∈ ["C"; "C"] →
         states self' !! n
         = Some (State.create_default_state Examples.drop_lt "" n false))
    ∧ (∀ n, n ∉ ["C"; "C"] →
         states self' !! n = states Examples.exploration_AB_cycle !! n)
    ∧ init_state_name self' = init_state_name Examples.exploration_AB_cycle
    ∧ skin_instance self' = skin_instance Examples.exploration_AB_cycle
    ∧ (destinations_exist (states Examples.exploration_AB_cycle) →
       destinations_exist (states self')).
Proof.
  apply (X7_add_states_adds_default_states Examples.drop_lt ""
           Examples.exploration_AB_cycle ["C"; "C"]).
  repeat constructor.
Defined.

(** X8 at the cycle [A -> B, B -> A] with the name ["C"]. *)
Lemma X8_witness :
  ∃ added,
    Exploration.add_states Examples.drop_lt "" ["C"]
      Examples.exploration_AB_cycle = (added, Ok ())
    ∧ is_Some (states added !! "C")
    ∧ Exploration.delete_state "C" added
      = (Examples.exploration_AB_cycle, Ok ()).
Proof.
  apply (X8_add_states_delete_state_round_trip Examples.drop_lt ""
           Examples.exploration_AB_cycle "C").
  - vm_compute. reflexivity.
  - discriminate.
  - refine (@bool_decide_unpack _ (no_outcome_leads_to_dec _ _) _).
    vm_compute. exact I.
Defined.

(** * The checks of [validate] on destinations and on gadgets *)

Lemma bind_unit_Ok (m : result unit) (k : unit → result unit) :
  m ≫= k = Ok () ↔ m = Ok () ∧ k () = Ok ().
Proof.
  destruct m as [[]|e]; simpl; [tauto|]. split; [done|by intros [? _]].
Qed.

Lemma forM__Ok {A} (f : A → result unit) (l : list A) :
  forM_ f l = Ok () ↔ Forall (λ x, f x = Ok ()) l.
Proof.
  induction l as [|x l IH]; simpl.
  - split; [constructor|done].
  - rewrite bind_unit_Ok, Forall_cons, IH. done.
Qed.

Section validate_destinations_facts.
Import Exploration.

Variable dict_items : ∀ V, gmap string V → list (string * V).
Hypothesis dict_items_perm :
  ∀ V (m : gmap string V), dict_items V m ≡ₚ map_to_list m.

Lemma require_destination_Ok self template o :
  require_destination self template o = Ok ()
  ↔ is_Some (states self !! dest o).
Proof.
  unfold require_destination. case_decide as H.
  - rewrite H. split; [done|by intros [? ?]].
  - split; [|done]. intros _. by apply not_eq_None_Some.
Qed.

Lemma require_declared_params_Ok self template o :
  require_declared_params self template o = Ok ()
  ↔ Forall (λ param_change,
              ∃ name, pc_name param_change = PStr name
                      ∧ is_Some (param_specs self !! name))
           (outcome_param_changes o).
Proof.
  unfold require_declared_params. rewrite forM__Ok.
  apply Forall_proper; [|done]. intros pc.
  unfold param_declared.
  destruct (pc_name pc) as [| | |s| |]; simpl;
    try (split; [done|by intros (? & ? & _)]).
  case_bool_decide as H.
  - split; [|done]. intros _. by exists s.
  - split; [done|]. intros (s' & [= <-] & Hs). done.
Qed.

Lemma Forall_values {V} (P : V → Prop) (m : gmap string V) :
  Forall P (dict_items V m).*2 ↔ map_Forall (λ _, P) m.
Proof.
  rewrite dict_items_perm, map_Forall_to_list, Forall_fmap.
  apply Forall_proper; [|done]. by intros [k v].
Qed.

Lemma state_destination_checks_Ok self st :
  validate_group_destinations self st = Ok ()
  ∧ validate_fallback_destinations self st = Ok ()
  ↔ Forall (λ o, is_Some (states self !! dest o))
           (InteractionInstance.get_all_outcomes (interaction st))
    ∧ Forall (λ o,
                Forall (λ param_change,
                          ∃ name, pc_name param_change = PStr name
                                  ∧ is_Some (param_specs self !! name))
                       (outcome_param_changes o))
             ((outcome <$> answer_groups (interaction st))
              ++ (fallback_outcome <$> fallbacks (interaction st))).
Proof.
  unfold validate_group_destinations, validate_fallback_destinations,
    InteractionInstance.get_all_outcomes,
    InteractionInstance.get_all_non_fallback_outcomes.
  rewrite bind_unit_Ok, !forM__Ok.
  rewrite !Forall_app, !Forall_fmap.
  assert (Forall (λ group,
                    require_destination self
                      "The destination %s is not a valid state." (outcome group)
                    ≫= (λ _, require_declared_params self
                               "The parameter %s was used in an answer group, but it does not exist in this exploration"
                               (outcome group)) = Ok ())
                 (answer_groups (interaction st))
          ↔ Forall (λ g, is_Some (states self !! dest (outcome g)))
                   (answer_groups (interaction st))
            ∧ Forall (λ g, Forall (λ param_change,
                                     ∃ name, pc_name param_change = PStr name
                                             ∧ is_Some (param_specs self !! name))
                                  (outcome_param_changes (outcome g)))
                     (answer_groups (interaction st))) as ->.
  { rewrite <- Forall_and. apply Forall_proper; [|done]. intros g.
    by rewrite bind_unit_Ok, require_destination_Ok,
      require_declared_params_Ok. }
  assert (Forall (λ fallback,
                    require_destination self
                      "The fallback destination %s is not a valid state."
                      (fallback_outcome fallback)
                    ≫= (λ _, require_declared_params self
                               "The parameter %s was used in a fallback, but it does not exist in this exploration"
                               (fallback_outcome fallback)) = Ok ())
                 (fallbacks (interaction st))
          ↔ Forall (λ f, is_Some (states self !! dest (fallback_outcome f)))
                   (fallbacks (interaction st))
            ∧ Forall (λ f, Forall (λ param_change,
                                     ∃ name, pc_name param_change = PStr name
                                             ∧ is_Some (param_specs self !! name))
                                  (outcome_param_changes (fallback_outcome f)))
                     (fallbacks (interaction st))) as ->.
  { rewrite <- Forall_and. apply Forall_proper; [|done]. intros f.
    by rewrite bind_unit_Ok, require_destination_Ok,
      require_declared_params_Ok. }
  destruct (default_outcome (interaction st)) as [o|].
  - rewrite require_destination_Ok, !Forall_app, Forall_fmap, Forall_singleton.
    simpl. tauto.
  - rewrite Forall_fmap. simpl. tauto.
Qed.

(** X9.  The two loops of [validate] over the states pass exactly when
    every outcome (default, answer group, fallback) leads to an existing
    state and every parameter change of an answer-group or fallback outcome
    names a declared parameter.  The parameter changes of the default
    outcome are not looked at. *)
Theorem X9_validate_destinations_passes_iff self :
  validate_destinations dict_items self = Ok ()
  ↔ destinations_exist (states self) ∧ param_changes_declared self.
Proof.
  unfold validate_destinations. rewrite bind_unit_Ok, !forM__Ok, !Forall_values.
  unfold destinations_exist, param_changes_declared.
  split.
  - intros [H1 H2].
    split; intros k st Hst;
      apply (proj1 (state_destination_checks_Ok self st)
               (conj (H1 k st Hst) (H2 k st Hst))).
  - intros [H1 H2].
    split; intros k st Hst;
      apply (proj2 (state_destination_checks_Ok self st)
               (conj (H1 k st Hst) (H2 k st Hst))).
Qed.

End validate_destinations_facts.

(** X9 at [A -> B, B -> C, C terminal, D], walked in the order of the map. *)
Lemma X9_witness :
  Exploration.validate_destinations Examples.items_in_map_order
    Examples.exploration_ABCD = Ok ()
  ↔ destinations_exist (states Examples.exploration_ABCD)
    ∧ param_changes_declared Examples.exploration_ABCD.
Proof.
  apply (X9_validate_destinations_passes_iff Examples.items_in_map_order).
  intros V m. reflexivity.
Defined.

(** ** The states required by gadgets *)

Section gadget_state_facts.
Import Exploration.

Lemma elem_of_visible_union (acc : gset string) gadget_instances x :
  x ∈ foldl (λ state_names gadget_instance,
               state_names ∪ list_to_set (visible_in_states gadget_instance))
            acc gadget_instances
  ↔ x ∈ acc
    ∨ ∃ g, g ∈ gadget_instances ∧ x ∈ visible_in_states g.
Proof.
  revert acc. induction gadget_instances as [|g gs IH]; intros acc; simpl.
  - split; [by left|]. intros [?|(g & Hg & _)]; [done|].
    by apply elem_of_nil in Hg.
  - rewrite IH, elem_of_union, elem_of_list_to_set. split.
    + intros [[?|?]|(g' & Hg' & Hx)]; [by left|right..].
      * exists g. split; [left|done].
      * exists g'. split; [by right|done].
    + intros [?|(g' & [->|Hg']%elem_of_cons & Hx)].
      * left. by left.
      * left. by right.
      * right. by exists g'.
Qed.

(** The set collected by [get_state_names_required_by_gadgets]. *)
Lemma elem_of_state_names_required_by_gadgets skin x :
  x ∈ get_state_names_required_by_gadgets skin
  ↔ ∃ panel gadget_instances g,
      panel_contents_dict skin !! panel = Some gadget_instances
      ∧ g ∈ gadget_instances
      ∧ x ∈ visible_in_states g.
Proof.
  unfold get_state_names_required_by_gadgets.
  apply (map_fold_weak_ind
           (λ (r : gset string) (m : gmap string (list GadgetInstance)),
              x ∈ r ↔ ∃ panel gadget_instances g,
                        m !! panel = Some gadget_instances
                        ∧ g ∈ gadget_instances
                        ∧ x ∈ visible_in_states g)).
  - split; [by intros ?%elem_of_empty|].
    intros (panel & gs & g & Hp & _). by rewrite lookup_empty in Hp.
  - intros panel gs m r Hnone IH. rewrite elem_of_visible_union, IH. split.
    + intros [(panel' & gs' & g & Hp & Hg & Hx)|(g & Hg & Hx)].
      * exists panel', gs', g. split; [|done].
        rewrite lookup_insert_ne; [done|]. intros ->. by rewrite Hnone in Hp.
      * exists panel, gs, g. by rewrite lookup_insert_eq.
    + intros (panel' & gs' & g & Hp & Hg & Hx).
      destruct (decide (panel' = panel)) as [->|Hne].
      * rewrite lookup_insert_eq in Hp. injection Hp as <-. right. by exists g.
      * rewrite lookup_insert_ne in Hp by done. left. by exists panel', gs', g.
Qed.

Lemma no_missing_state_names_iff self :
  get_state_names_required_by_gadgets (skin_instance self) ∖ dom (states self)
  = ∅
  ↔ gadget_states_exist self.
Proof.
  unfold gadget_states_exist. split.
  - intros Hempty panel gs Hp. simpl.
    apply Forall_forall. intros g Hg. apply Forall_forall. intros x Hx.
    apply elem_of_dom. destruct (decide (x ∈ dom (states self))); [done|].
    exfalso. assert (x ∈ (∅ : gset string)) as H; [|set_solver].
    rewrite <- Hempty. apply elem_of_difference. split; [|done].
    apply elem_of_state_names_required_by_gadgets. by exists panel, gs, g.
  - intros Hall. apply set_eq. intros x. split; [|by intros ?%elem_of_empty].
    intros [Hreq Hmiss]%elem_of_difference. exfalso. apply Hmiss.
    apply elem_of_state_names_required_by_gadgets in Hreq
      as (panel & gs & g & Hp & Hg & Hx).
    pose proof (Hall panel gs Hp) as Hgs. simpl in Hgs.
    rewrite Forall_forall in Hgs. pose proof (Hgs g Hg) as Hvis.
    rewrite Forall_forall in Hvis. by apply elem_of_dom, Hvis.
Qed.

Lemma gadget_check_Ok_iff self :
  validate_states_required_by_gadgets self = Ok () ↔ gadget_states_exist self.
Proof.
  rewrite <- no_missing_state_names_iff.
  unfold validate_states_required_by_gadgets. by case_decide.
Qed.

(** X10.  The check of [validate] on the states required by gadgets
    passes exactly when every state that some gadget of some panel is
    visible in exists; otherwise it raises a [ValidationError] whose list of
    names is made of the missing states, each once, in sorted order. *)
Theorem X10_validate_states_required_by_gadgets_iff self :
  (validate_states_required_by_gadgets self = Ok () ↔ gadget_states_exist self)
  ∧ (validate_states_required_by_gadgets self = Ok ()
     ∨ ∃ plural names,
         validate_states_required_by_gadgets self
         = Raise (ValidationError "Exploration missing required state%s: %s"
                    [ArgStr plural; ArgStr (str_join ", " names)])
         ∧ Sorted str_le names
         ∧ NoDup names
         ∧ ∀ x, x ∈ names
                ↔ states self !! x = None
                  ∧ ∃ panel gadget_instances g,
                      panel_contents_dict (skin_instance self) !! panel
                      = Some gadget_instances
                      ∧ g ∈ gadget_instances
                      ∧ x ∈ visible_in_states g).
Proof.
  split; [apply gadget_check_Ok_iff|].
  unfold validate_states_required_by_gadgets.
  destruct (decide (_ ∖ _ = ∅)) as [Hempty|Hne]; [by left|].
  right. eexists _, _. split; [reflexivity|]. unfold py_sort.
  split; [apply Sorted_merge_sort; intros a b; apply String.leb_total|].
  split.
  - rewrite merge_sort_Permutation. apply NoDup_elements.
  - intros x. rewrite merge_sort_Permutation, elem_of_elements,
      elem_of_difference, elem_of_state_names_required_by_gadgets,
      not_elem_of_dom.
    tauto.
Qed.

End gadget_state_facts.

(** ** The gadget helpers after a renaming or a deletion *)

Section list_remove_first_facts.
Import Exploration.

Lemma elem_of_list_remove_first x y l :
  x ∈ list_remove_first y l → x ∈ l.
Proof.
  induction l as [|z l IH]; simpl; [done|].
  case_decide; [by right|].
  intros [->|?]%elem_of_cons; [left|right; auto].
Qed.

Lemma list_remove_first_NoDup x y l :
  NoDup l →
  x ∈ list_remove_first y l ↔ x ∈ l ∧ x ≠ y.
Proof.
  induction 1 as [|z l Hz Hnd IH]; simpl.
  - split; [by intros ?%elem_of_nil|by intros [?%elem_of_nil _]].
  - case_decide as Hzy.
    + subst z. rewrite elem_of_cons. split.
      * intros Hx. split; [by right|]. by intros ->.
      * intros [[?|?] ?]; done.
    + rewrite !elem_of_cons, IH. split.
      * intros [->|[? ?]]; [split; [by left|done]|split; [by right|done]].
      * intros [[->|?] ?]; [by left|by right].
Qed.

Lemma elem_of_py_sort x l : x ∈ py_sort l ↔ x ∈ l.
Proof. unfold py_sort. by rewrite merge_sort_Permutation. Qed.

Lemma Sorted_py_sort l : Sorted str_le (py_sort l).
Proof. apply Sorted_merge_sort. intros a b. apply String.leb_total. Qed.

End list_remove_first_facts.

Section renamed_state_gadgets.
Import Exploration.

Variable require_valid_name : string → string → result unit.

(** Where the states of the old exploration are found after a renaming. *)
Lemma rename_state_keeps_names self old_state_name new_state_name self' d :
  rename_state require_valid_name old_state_name new_state_name self
  = (self', Ok ()) →
  is_Some (states self !! d) →
  is_Some (states self' !! (if decide (d = old_state_name)
                            then new_state_name else d)).
Proof.
  intros Hr Hd.
  destruct (rename_state_cases require_valid_name self old_state_name
              new_state_name)
    as [[H1 H]|[(H1 & H2 & H3 & H)|[(H1 & H2 & H)|[(e' & H1 & H2 & H3 & H4 & H)
       |(old_state & H1 & H2 & H3 & H4 & H)]]]];
    rewrite H in Hr; simplify_eq.
  - by case_decide; subst.
  - simpl. rewrite lookup_fmap, fmap_is_Some.
    destruct (decide (d = old_state_name)) as [->|Hdo].
    + rewrite lookup_delete_ne, lookup_insert_eq by done. by eexists.
    + rewrite lookup_delete_ne by done.
      destruct (decide (d = new_state_name)) as [->|Hdn].
      * rewrite lookup_insert_eq. by eexists.
      * by rewrite lookup_insert_ne.
Qed.

(** X11.  [rename_state] followed by
    [_update_gadget_visibilities_for_renamed_state] keeps the gadgets in
    step with the states: if every gadget was visible in existing states
    only and listed no state twice, the helper returns, leaves the states
    and the initial state name alone, and the check of [validate] on the
    states required by gadgets passes. *)
Theorem X11_rename_state_then_gadget_update
    self old_state_name new_state_name renamed :
  gadget_states_exist self →
  gadget_visibility_distinct self →
  rename_state require_valid_name old_state_name new_state_name self
  = (renamed, Ok ()) →
  ∃ updated,
    _update_gadget_visibilities_for_renamed_state
      old_state_name new_state_name renamed = (updated, Ok ())
    ∧ states updated = states renamed
    ∧ init_state_name updated = init_state_name renamed
    ∧ gadget_states_exist updated
    ∧ validate_states_required_by_gadgets updated = Ok ().
Proof.
  intros Hexist Hdistinct Hr.
  eexists. split; [reflexivity|]. simpl. split; [done|]. split; [done|].
  assert (gadget_states_exist
            (with_panel_contents renamed
               ((λ gadget_instances : list GadgetInstance,
                   rename_visibility old_state_name new_state_name
                   <$> gadget_instances)
                <$> panel_contents_dict (skin_instance renamed)))) as Hgoal;
    [|split; [exact Hgoal|by apply gadget_check_Ok_iff]].
  pose proof (rename_state_keeps_skin require_valid_name self old_state_name
                new_state_name) as Hskin.
  rewrite Hr in Hskin. simpl in Hskin.
  unfold gadget_states_exist. simpl. rewrite Hskin.
  intros panel gs' Hp. rewrite lookup_fmap in Hp.
  destruct (panel_contents_dict (skin_instance self) !! panel) as [gs|] eqn:Hgs;
    [|done].
  simpl in Hp. injection Hp as <-. simpl.
  pose proof (Hexist panel gs Hgs) as Hex. simpl in Hex.
  pose proof (Hdistinct panel gs Hgs) as Hnd. simpl in Hnd.
  rewrite Forall_forall in Hex. rewrite Forall_forall in Hnd.
  apply Forall_fmap, Forall_forall. intros g Hg. simpl.
  specialize (Hex g Hg). specialize (Hnd g Hg). rewrite Forall_forall in Hex.
  apply Forall_forall. intros s Hs.
  assert (∀ d, d ∈ visible_in_states g → d ≠ old_state_name →
            is_Some (states renamed !! d)) as Hother.
  { intros d Hd Hne.
    pose proof (rename_state_keeps_names _ _ _ _ d Hr (Hex d Hd)) as Hk.
    by rewrite decide_False in Hk. }
  unfold rename_visibility in Hs.
  destruct (decide (old_state_name ∈ visible_in_states g)) as [Hold|Hold].
  - simpl in Hs. rewrite elem_of_py_sort in Hs.
    apply elem_of_app in Hs as [Hs|Hs%list_elem_of_singleton].
    + apply list_remove_first_NoDup in Hs as [Hs Hne]; [|done]. by apply Hother.
    + subst s.
      pose proof (rename_state_keeps_names _ _ _ _ old_state_name Hr
                    (Hex _ Hold)) as Hk.
      by rewrite decide_True in Hk.
  - apply Hother; [done|]. by intros ->.
Qed.

End renamed_state_gadgets.

(** X11 at the state ["A"] with a gadget visible in ["A"], renamed to
    ["B"]: the helper puts ["B"] in the gadget's list. *)
Lemma X11_witness :
  ∃ updated,
    Exploration._update_gadget_visibilities_for_renamed_state "A" "B"
      (Exploration.rename_state Examples.any_name_valid "A" "B"
         Examples.exploration_with_gadget_in_A).1 = (updated, Ok ())
    ∧ states updated
      = states (Exploration.rename_state Examples.any_name_valid "A" "B"
                  Examples.exploration_with_gadget_in_A).1
    ∧ init_state_name updated
      = init_state_name
          (Exploration.rename_state Examples.any_name_valid "A" "B"
             Examples.exploration_with_gadget_in_A).1
    ∧ gadget_states_exist updated
    ∧ Exploration.validate_states_required_by_gadgets updated = Ok ().
Proof.
  apply (X11_rename_state_then_gadget_update Examples.any_name_valid
           Examples.exploration_with_gadget_in_A "A" "B").
  - refine (@bool_decide_unpack _ (gadget_states_exist_dec _) _).
    vm_compute. exact I.
  - refine (@bool_decide_unpack _ (gadget_visibility_distinct_dec _) _).
    vm_compute. exact I.
  - vm_compute. reflexivity.
Defined.

Section deleted_state_gadgets.
Import Exploration.

Variable dict_items : ∀ V, gmap string V → list (string * V).
Hypothesis dict_items_perm :
  ∀ V (m : gmap string V), dict_items V m ≡ₚ map_to_list m.

(** A walk over one panel that returns has updated every gadget of the
    panel, and none of the updated ones is left without a state. *)
Lemma delete_visibility_Ok state_name gs gs' :
  delete_visibility state_name gs = (gs', Ok ()) →
  gs' = visibility_without state_name <$> gs
  ∧ Forall (λ g, state_name ∈ visible_in_states g →
                 list_remove_first state_name (visible_in_states g) ≠ [])
           gs.
Proof.
  revert gs'. induction gs as [|g gs IH]; intros gs' H; simpl in H.
  - injection H as <-. split; [done|constructor].
  - rewrite fmap_cons.
    destruct (decide (state_name ∈ visible_in_states g)) as [Hin|Hin].
    + simpl in H.
      destruct (decide (length (list_remove_first state_name
                                  (visible_in_states g)) = 0)) as [Hlen|Hlen];
        [done|].
      destruct (delete_visibility state_name gs) as [gs'' r] eqn:Hrec.
      injection H as <- ->. destruct (IH _ eq_refl) as [-> Hall].
      split.
      * f_equal. unfold visibility_without. by rewrite decide_True.
      * constructor; [|done]. intros _ Hnil. by rewrite Hnil in Hlen.
    + destruct (delete_visibility state_name gs) as [gs'' r] eqn:Hrec.
      injection H as <- ->. destruct (IH _ eq_refl) as [-> Hall].
      split.
      * f_equal. unfold visibility_without. by rewrite decide_False.
      * constructor; [done|done].
Qed.

(** A walk over one panel that raises stops at a gadget that it has just
    left without any state. *)
Lemma delete_visibility_Raise state_name gs gs' e :
  delete_visibility state_name gs = (gs', Raise e) →
  ∃ g', g' ∈ gs'
        ∧ visible_in_states g' = []
        ∧ e = ValidationError
                "Deleting '%s' state leaves '%s' gadget with no visible states. This is not currently supported and should be handled with editor guidance on the front-end."
                [ArgStr state_name; ArgStr (gadget_name g')].
Proof.
  revert gs'. induction gs as [|g gs IH]; intros gs' H; simpl in H; [done|].
  destruct (decide (state_name ∈ visible_in_states g)) as [Hin|Hin].
  - simpl in H.
    destruct (decide (length (list_remove_first state_name
                                (visible_in_states g)) = 0)) as [Hlen|Hlen].
    + injection H as <- <-. eexists. split; [left|]. simpl.
      split; [by apply nil_length_inv|done].
    + destruct (delete_visibility state_name gs) as [gs'' r] eqn:Hrec.
      injection H as <- ->. destruct (IH _ eq_refl) as (g' & Hg' & Hrest).
      exists g'. split; [by right|done].
  - destruct (delete_visibility state_name gs) as [gs'' r] eqn:Hrec.
    injection H as <- ->. destruct (IH _ eq_refl) as (g' & Hg' & Hrest).
    exists g'. split; [by right|done].
Qed.

Lemma delete_visibility_panels_Ok state_name
    (orig : gmap string (list GadgetInstance)) panels contents contents' :
  (∀ k gs, (k, gs) ∈ panels → orig !! k = Some gs) →
  delete_visibility_panels state_name panels contents = (contents', Ok ()) →
  ∀ k, contents' !! k
       = if decide (k ∈ panels.*1)
         then fmap (visibility_without state_name) <$> orig !! k
         else contents !! k.
Proof.
  revert contents. induction panels as [|[p gs] panels IH];
    intros contents Horig H k; simpl in H.
  - by injection H as <-.
  - destruct (delete_visibility state_name gs) as [gs' r] eqn:Hgs.
    destruct r as [[]|e]; [|done].
    apply delete_visibility_Ok in Hgs as [-> _].
    rewrite (IH _ (λ k gs H, Horig k gs (list_elem_of_further _ _ _ H)) H k).
    rewrite fmap_cons. simpl.
    destruct (decide (k ∈ panels.*1)) as [Hin|Hin].
    + rewrite decide_True; [done|]. by right.
    + destruct (decide (k = p)) as [->|Hne].
      * rewrite decide_True by left. rewrite lookup_insert_eq.
        by rewrite (Horig p gs) by left.
      * rewrite lookup_insert_ne by done. rewrite decide_False; [done|].
        by intros [?|?]%elem_of_cons.
Qed.

Lemma delete_visibility_panels_Raise state_name panels contents contents' e :
  delete_visibility_panels state_name panels contents = (contents', Raise e) →
  ∃ panel gs' g',
    contents' !! panel = Some gs'
    ∧ g' ∈ gs'
    ∧ visible_in_states g' = []
    ∧ e = ValidationError
            "Deleting '%s' state leaves '%s' gadget with no visible states. This is not currently supported and should be handled with editor guidance on the front-end."
            [ArgStr state_name; ArgStr (gadget_name g')].
Proof.
  revert contents. induction panels as [|[p gs] panels IH];
    intros contents H; simpl in H; [done|].
  destruct (delete_visibility state_name gs) as [gs' r] eqn:Hgs.
  destruct r as [[]|e']; [by eapply IH|].
  injection H as <- <-.
  apply delete_visibility_Raise in Hgs as (g' & Hg' & Hrest).
  exists p, gs', g'. by rewrite lookup_insert_eq.
Qed.

(** X12.  [delete_state] followed by
    [_update_gadget_visibilities_for_deleted_state], when the helper
    returns, keeps the gadgets in step with the states: every gadget has
    the deleted state taken out of its list, the states are left alone, and
    if every gadget was visible in existing states only and listed no state
    twice, the check of [validate] on the states required by gadgets
    passes. *)
Theorem X12_delete_state_then_gadget_update self state_name deleted updated :
  gadget_states_exist self →
  gadget_visibility_distinct self →
  delete_state state_name self = (deleted, Ok ()) →
  _update_gadget_visibilities_for_deleted_state dict_items state_name deleted
  = (updated, Ok ()) →
  states updated = states deleted
  ∧ panel_contents_dict (skin_instance updated)
    = (λ gadget_instances : list GadgetInstance,
         visibility_without state_name <$> gadget_instances)
      <$> panel_contents_dict (skin_instance self)
  ∧ gadget_states_exist updated
  ∧ validate_states_required_by_gadgets updated = Ok ().
Proof.
  intros Hexist Hdistinct Hdel Hupd.
  pose proof (delete_state_keeps_skin self state_name) as Hskin.
  rewrite Hdel in Hskin. simpl in Hskin.
  unfold _update_gadget_visibilities_for_deleted_state in Hupd.
  rewrite Hskin in Hupd.
  destruct (delete_visibility_panels _ _ _) as [contents' r] eqn:Hpanels.
  injection Hupd as <- ->. simpl.
  assert (contents'
          = (λ gadget_instances : list GadgetInstance,
               visibility_without state_name <$> gadget_instances)
            <$> panel_contents_dict (skin_instance self)) as ->.
  { apply map_eq. intros k.
    rewrite (delete_visibility_panels_Ok _
               (panel_contents_dict (skin_instance self)) _ _ _
               (λ k gs H, proj1 (elem_of_map_to_list _ k gs)
                            (proj1 (elem_of_Permutation_proper _ _ _
                                      (dict_items_perm _ _)) H))
               Hpanels k).
    rewrite lookup_fmap. case_decide as Hk; [done|].
    destruct (panel_contents_dict (skin_instance self) !! k) as [gs|] eqn:Hgs;
      [|done].
    exfalso. apply Hk. apply list_elem_of_fmap. exists (k, gs). split; [done|].
    rewrite dict_items_perm. by apply elem_of_map_to_list. }
  split; [done|]. split; [done|].
  assert (gadget_states_exist
            (with_panel_contents deleted
               ((λ gadget_instances : list GadgetInstance,
                   visibility_without state_name <$> gadget_instances)
                <$> panel_contents_dict (skin_instance self)))) as Hgoal;
    [|split; [exact Hgoal|by apply gadget_check_Ok_iff]].
  unfold gadget_states_exist. simpl.
  intros panel gs' Hp. rewrite lookup_fmap in Hp.
  destruct (panel_contents_dict (skin_instance self) !! panel) as [gs|] eqn:Hgs;
    [|done].
  simpl in Hp. injection Hp as <-. simpl.
  pose proof (Hexist panel gs Hgs) as Hex. simpl in Hex.
  pose proof (Hdistinct panel gs Hgs) as Hnd. simpl in Hnd.
  rewrite Forall_forall in Hex. rewrite Forall_forall in Hnd.
  apply Forall_fmap, Forall_forall. intros g Hg. simpl.
  specialize (Hex g Hg). specialize (Hnd g Hg). rewrite Forall_forall in Hex.
  apply Forall_forall. intros s Hs.
  assert (s ∈ visible_in_states g ∧ s ≠ state_name) as [Hin Hne].
  { unfold visibility_without in Hs.
    destruct (decide (state_name ∈ visible_in_states g)) as [Hold|Hold].
    - simpl in Hs. by apply list_remove_first_NoDup in Hs.
    - split; [done|]. by intros ->. }
  destruct (delete_state_cases self state_name)
    as [[H1 H]|[(H1 & H2 & H)|(H1 & H2 & H)]];
    rewrite H in Hdel; simplify_eq.
  simpl. rewrite lookup_delete_ne by done.
  rewrite map_lookup_imap.
  destruct (Hex s Hin) as [st ->]. by eexists.
Qed.

(** X13.  When [_update_gadget_visibilities_for_deleted_state] raises, the
    exploration has already been changed: the gadget that the
    [ValidationError] names sits in its panel with an empty list of visible
    states. *)
Theorem X13_gadget_update_for_deleted_state_raises_after_change
    self state_name updated e :
  _update_gadget_visibilities_for_deleted_state dict_items state_name self
  = (updated, Raise e) →
  ∃ panel gadget_instances g,
    panel_contents_dict (skin_instance updated) !! panel = Some gadget_instances
    ∧ g ∈ gadget_instances
    ∧ visible_in_states g = []
    ∧ e = ValidationError
            "Deleting '%s' state leaves '%s' gadget with no visible states. This is not currently supported and should be handled with editor guidance on the front-end."
            [ArgStr state_name; ArgStr (gadget_name g)].
Proof.
  unfold _update_gadget_visibilities_for_deleted_state.
  destruct (delete_visibility_panels _ _ _) as [contents' r] eqn:Hpanels.
  intros [= <- ->]. simpl.
  by apply delete_visibility_panels_Raise in Hpanels.
Qed.

End deleted_state_gadgets.

(** X12 at [A -> B, B -> B] with a gadget visible in both states, after
    ["B"] is deleted: the gadget is left visible in ["A"]. *)
Lemma X12_witness :
  let deleted :=
    (Exploration.delete_state "B"
       Examples.exploration_with_gadget_in_A_and_B).1 in
  let updated :=
    (Exploration._update_gadget_visibilities_for_deleted_state
       Examples.items_in_map_order "B" deleted).1 in
  states updated = states deleted
  ∧ panel_contents_dict (skin_instance updated)
    = (λ gadget_instances : list GadgetInstance,
         visibility_without "B" <$> gadget_instances)
      <$> panel_contents_dict
            (skin_instance Examples.exploration_with_gadget_in_A_and_B)
  ∧ gadget_states_exist updated
  ∧ Exploration.validate_states_required_by_gadgets updated = Ok ().
Proof.
  apply (X12_delete_state_then_gadget_update Examples.items_in_map_order).
  - intros V m. reflexivity.
  - refine (@bool_decide_unpack _ (gadget_states_exist_dec _) _).
    vm_compute. exact I.
  - refine (@bool_decide_unpack _ (gadget_visibility_distinct_dec _) _).
    vm_compute. exact I.
  - vm_compute. reflexivity.
  - vm_compute. reflexivity.
Defined.

(** X13 at [A -> B, B -> B] with a gadget visible in ["B"] only. *)
Lemma X13_witness :
  ∃ panel gadget_instances g,
    panel_contents_dict
      (skin_instance
         (Exploration._update_gadget_visibilities_for_deleted_state
            Examples.items_in_map_order "B"
            Examples.exploration_with_gadget_in_B).1)
    !! panel = Some gadget_instances
    ∧ g ∈ gadget_instances
    ∧ visible_in_states g = []
    ∧ ValidationError
        "Deleting '%s' state leaves '%s' gadget with no visible states. This is not currently supported and should be handled with editor guidance on the front-end."
        [ArgStr "B"; ArgStr "ATestGadget"]
      = ValidationError
          "Deleting '%s' state leaves '%s' gadget with no visible states. This is not currently supported and should be handled with editor guidance on the front-end."
          [ArgStr "B"; ArgStr (gadget_name g)].
Proof.
  apply (X13_gadget_update_for_deleted_state_raises_after_change
           Examples.items_in_map_order
           Examples.exploration_with_gadget_in_B "B").
  vm_compute. reflexivity.
Defined.

(** * Hints *)

Section hint_facts.

Variable clean : string → string.

(** X14.  [delete_hint] accepts exactly the indices [0 <= index <
    len(hints)]; for these it removes the hint at that position and keeps
    the others in order, and the rest of the state is untouched.  Any other
    index, negative ones included, raises [IndexError] and changes
    nothing. *)
Theorem X14_delete_hint_bounds self index :
  let r := State.delete_hint index self in
  let hs := hints (interaction self) in
  ((0 ≤ index < Z.of_nat (length hs))%Z →
     r.2 = inr ()
     ∧ hints (interaction r.1)
       = take (Z.to_nat index) hs ++ drop (S (Z.to_nat index)) hs
     ∧ S (length (hints (interaction r.1))) = length hs
     ∧ r.1 = State.with_interaction self
               (InteractionInstance.with_hints (interaction self)
                  (hints (interaction r.1))))
  ∧ (¬ (0 ≤ index < Z.of_nat (length hs))%Z →
     r = (self, inl (IndexError "Hint index out of range"))).
Proof.
  intros r hs. unfold r, State.delete_hint. fold hs. split.
  - intros Hin. rewrite decide_False by lia. simpl.
    split; [done|]. split; [apply delete_take_drop|]. split; [|done].
    rewrite length_delete; [lia|]. apply lookup_lt_is_Some_2. lia.
  - intros Hout. rewrite decide_True by lia. done.
Qed.

(** X15.  [add_hint] puts the cleaned hint last, and [delete_hint] at
    the old length takes it away again: the state is as before. *)
Theorem X15_add_hint_delete_hint_round_trip self hint_text :
  let added := (State.add_hint clean hint_text self).1 in
  (State.add_hint clean hint_text self).2 = Ok ()
  ∧ hints (interaction added)
    = hints (interaction self) ++ [Hint.init clean hint_text]
  ∧ State.delete_hint (Z.of_nat (length (hints (interaction self)))) added
    = (self, inr ()).
Proof.
  intros added. unfold added, State.add_hint, assign. simpl.
  split; [done|]. split; [done|].
  unfold State.delete_hint. simpl.
  rewrite decide_False by (rewrite length_app; simpl; lia).
  f_equal. rewrite Nat2Z.id.
  replace (delete (length (hints (interaction self)))
             (hints (interaction self) ++ [Hint.init clean hint_text]))
    with (hints (interaction self)).
  - destruct self as [c pcs i cm]. destruct i. reflexivity.
  - rewrite delete_take_drop, take_app_length.
    rewrite drop_ge; [by rewrite app_nil_r|]. rewrite length_app. simpl. lia.
Qed.

End hint_facts.

(** * Answer groups *)

Section answer_group_facts.

Variable rules_dict : gset string.
Variable get_rule_param_list : string → list (string * ParamObj).
Variable param_change_validate : ParamChange → result unit.
Variable exp_param_specs_dict : gmap string ParamSpec.

(** A [RuleSpec.validate] that returns has logged nothing: the warning
    about unrecognised inputs is only ever followed by an exception. *)
Lemma rule_spec_validate_Ok self rule_params_list log :
  RuleSpec.validate self rule_params_list exp_param_specs_dict = (log, Ok ()) →
  log = []
  ∧ ∃ rule_inputs,
      inputs self = PDict rule_inputs
      ∧ (list_to_set (pydict_ops.keys rule_inputs) : gset string)
        = list_to_set rule_params_list.*1.
Proof.
  intros H.
  destruct (inputs self) as [| | | | |rule_inputs] eqn:Hin;
    try (unfold RuleSpec.validate in H; rewrite Hin in H; discriminate).
  assert (list_to_set (pydict_ops.keys rule_inputs)
          ⊆@{gset string} list_to_set rule_params_list.*1) as Hsub1.
  { intros k Hk. apply elem_of_list_to_set in Hk.
    destruct (decide (k ∈ rule_params_list.*1)) as [Hd|Hd];
      [by apply elem_of_list_to_set|].
    destruct (validate_extra_input_never_completes self rule_inputs
                rule_params_list exp_param_specs_dict k Hin Hk Hd)
      as (w & _ & Hraise).
    rewrite H in Hraise. done. }
  assert (list_to_set rule_params_list.*1
          ⊆@{gset string} list_to_set (pydict_ops.keys rule_inputs)) as Hsub2.
  { intros k Hk. apply elem_of_list_to_set in Hk.
    destruct (decide (k ∈ pydict_ops.keys rule_inputs)) as [Hd|Hd];
      [by apply elem_of_list_to_set|].
    destruct (validate_missing_input self rule_inputs rule_params_list
                exp_param_specs_dict k Hin Hk Hd) as (l & X & Heq & _).
    rewrite H in Heq. done. }
  split; [|exists rule_inputs; split; [done|set_solver]].
  unfold RuleSpec.validate in H. rewrite Hin in H.
  destruct (decide (list_to_set (pydict_ops.keys rule_inputs) ∖ _ = ∅))
    as [Hempty|Hne].
  - destruct (decide (_ ∖ _ = ∅)); by injection H as <-.
  - exfalso. apply Hne. set_solver.
Qed.

Lemma classifier_rule_index_from_first n rule_specs j rule_spec :
  rule_specs !! j = Some rule_spec →
  rule_type rule_spec = RULE_TYPE_CLASSIFIER →
  (∀ k rs, rule_specs !! k = Some rs → (k < j)%nat →
           rule_type rs ≠ RULE_TYPE_CLASSIFIER) →
  AnswerGroup.classifier_rule_index_from n rule_specs = Some (n + j)%nat.
Proof.
  revert n j. induction rule_specs as [|rs l IH]; intros n j Hj Hc Hfirst;
    [done|].
  simpl. destruct j as [|j].
  - injection Hj as ->. rewrite decide_True by done. f_equal. lia.
  - rewrite decide_False by (apply (Hfirst 0%nat rs); [done|lia]).
    rewrite (IH (S n) j); [f_equal; lia|done|done|].
    intros k rs' Hk Hlt. apply (Hfirst (S k) rs'); [done|lia].
Qed.

Lemma validate_rule_specs_Ok seen_classifier_rule rule_specs log :
  AnswerGroup.validate_rule_specs rules_dict get_rule_param_list
    exp_param_specs_dict seen_classifier_rule rule_specs = (log, Ok ()) →
  log = []
  ∧ Forall (λ rs, rule_type rs ∈ rules_dict) rule_specs
  ∧ Forall (inputs_match_parameters get_rule_param_list) rule_specs
  ∧ (seen_classifier_rule = true →
     Forall (λ rs, rule_type rs ≠ RULE_TYPE_CLASSIFIER) rule_specs)
  ∧ (∀ i j rsi rsj,
       rule_specs !! i = Some rsi → rule_specs !! j = Some rsj →
       rule_type rsi = RULE_TYPE_CLASSIFIER →
       rule_type rsj = RULE_TYPE_CLASSIFIER → i = j).
Proof.
  revert seen_classifier_rule log.
  induction rule_specs as [|rs l IH]; intros seen log H; simpl in H.
  - injection H as <-. repeat split; try constructor. intros i j ? ? Hi. done.
  - destruct (decide (rule_type rs ∉ rules_dict)) as [Hnot|Hknown]; [done|].
    apply dec_stable in Hknown.
    destruct (bool_decide (rule_type rs = RULE_TYPE_CLASSIFIER) && seen)
      eqn:Htwice; [done|].
    destruct (RuleSpec.validate rs _ _) as [log1 r1] eqn:Hrs.
    destruct r1 as [[]|e]; [|done].
    destruct (AnswerGroup.validate_rule_specs _ _ _ _ l) as [log2 r2] eqn:Hrest.
    injection H as <- ->.
    apply rule_spec_validate_Ok in Hrs as [-> Hmatch].
    destruct (IH _ _ Hrest) as (-> & Hknown' & Hmatch' & Hseen & Huniq).
    split; [done|]. split; [by constructor|]. split; [by constructor|].
    split.
    + intros ->. rewrite andb_true_r in Htwice.
      apply bool_decide_eq_false in Htwice.
      constructor; [done|]. apply Hseen. by rewrite orb_true_r.
    + assert (rule_type rs = RULE_TYPE_CLASSIFIER →
              Forall (λ rs, rule_type rs ≠ RULE_TYPE_CLASSIFIER) l) as Hhead.
      { intros Hc. apply Hseen. by rewrite bool_decide_eq_true_2. }
      intros [|i] [|j] rsi rsj Hi Hj Hci Hcj; simpl in *; simplify_eq.
      * done.
      * exfalso. specialize (Hhead Hci). rewrite Forall_forall in Hhead.
        apply (Hhead rsj); [by eapply list_elem_of_lookup_2|done].
      * exfalso. specialize (Hhead Hcj). rewrite Forall_forall in Hhead.
        apply (Hhead rsi); [by eapply list_elem_of_lookup_2|done].
      * f_equal. by eapply Huniq.
Qed.

(** X16.  An answer group that [AnswerGroup.validate] accepts has at least
    one rule, only rule types of the interaction, inputs that name exactly
    the parameters of each rule, at most one classifier rule (and
    [get_classifier_rule_index] finds it), and an outcome with a
    destination.  Nothing was logged on the way: the warning of
    [RuleSpec.validate] about unrecognised inputs never comes with a
    validation that passes. *)
Theorem X16_answer_group_validate_sound self log :
  AnswerGroup.validate rules_dict get_rule_param_list param_change_validate
    exp_param_specs_dict self = (log, Ok ()) →
  log = []
  ∧ rule_specs self ≠ []
  ∧ Forall (λ rs, rule_type rs ∈ rules_dict) (rule_specs self)
  ∧ Forall (inputs_match_parameters get_rule_param_list) (rule_specs self)
  ∧ (∀ j rs, rule_specs self !! j = Some rs →
             rule_type rs = RULE_TYPE_CLASSIFIER →
             AnswerGroup.get_classifier_rule_index self = Some j)
  ∧ dest (outcome self) ≠ ""
  ∧ Forall (λ param_change, param_change_validate param_change = Ok ())
           (outcome_param_changes (outcome self)).
Proof.
  unfold AnswerGroup.validate. intros H.
  destruct (decide (length (rule_specs self) < 1)) as [Hlen|Hlen]; [done|].
  destruct (AnswerGroup.validate_rule_specs _ _ _ _ _) as [log1 r1] eqn:Hrules.
  destruct r1 as [[]|e]; [|done].
  injection H as <- Hout.
  destruct (validate_rule_specs_Ok _ _ _ Hrules)
    as (-> & Hknown & Hmatch & _ & Huniq).
  split; [done|]. split; [by destruct (rule_specs self); [simpl in Hlen; lia|]|].
  split; [done|]. split; [done|]. split.
  - intros j rs Hj Hc. unfold AnswerGroup.get_classifier_rule_index.
    rewrite (classifier_rule_index_from_first 0 _ j rs); [done..|].
    intros k rs' Hk Hlt Hc'. pose proof (Huniq k j rs' rs Hk Hj Hc' Hc). lia.
  - unfold Outcome.validate in Hout.
    destruct (decide (dest (outcome self) = "")); [done|].
    split; [done|]. by apply forM__Ok.
Qed.

End answer_group_facts.

(** * Gadgets *)

Lemma elem_of_concat {A} (x : A) (ls : list (list A)) :
  x ∈ concat ls ↔ ∃ l, x ∈ l ∧ l ∈ ls.
Proof.
  induction ls as [|l ls IH]; simpl.
  - split; [by intros ?%elem_of_nil|]. intros (l & _ & Hl).
    by apply elem_of_nil in Hl.
  - rewrite elem_of_app, IH. split.
    + intros [Hx|(l' & Hx & Hl')].
      * exists l. split; [done|left].
      * exists l'. split; [done|by right].
    + intros (l' & Hx & [->|Hl']%elem_of_cons); [by left|].
      right. by exists l'.
Qed.

Section gadget_facts.
Import Exploration.

Variable dict_items : ∀ V, gmap string V → list (string * V).
Variable matches_alphanumeric_space : string → bool.
Hypothesis dict_items_perm :
  ∀ V (m : gmap string V), dict_items V m ≡ₚ map_to_list m.

Lemma elem_of_dict_items {V} (m : gmap string V) k v :
  (k, v) ∈ dict_items V m ↔ m !! k = Some v.
Proof. by rewrite dict_items_perm, elem_of_map_to_list. Qed.

Lemma elem_of_all_gadget_instances self g :
  g ∈ all_gadget_instances dict_items self
  ↔ ∃ panel gadget_instances,
      panel_contents_dict (skin_instance self) !! panel = Some gadget_instances
      ∧ g ∈ gadget_instances.
Proof.
  unfold all_gadget_instances. rewrite elem_of_concat. split.
  - intros (gs & Hg & Hgs). apply list_elem_of_fmap in Hgs as ([p gs'] & -> & Hin).
    apply elem_of_dict_items in Hin. by exists p, gs'.
  - intros (p & gs & Hp & Hg). exists gs. split; [done|].
    apply list_elem_of_fmap. exists (p, gs). split; [done|].
    by apply elem_of_dict_items.
Qed.

Lemma elem_of_get_all_gadget_names self name :
  name ∈ get_all_gadget_names dict_items self
  ↔ ∃ panel gadget_instances g,
      panel_contents_dict (skin_instance self) !! panel = Some gadget_instances
      ∧ g ∈ gadget_instances
      ∧ gadget_name g = name.
Proof.
  unfold get_all_gadget_names.
  rewrite elem_of_py_sort, elem_of_elements, elem_of_list_to_set,
    list_elem_of_fmap.
  split.
  - intros (g & -> & Hg). apply elem_of_all_gadget_instances in Hg
      as (p & gs & Hp & Hg). by exists p, gs, g.
  - intros (p & gs & g & Hp & Hg & <-). exists g. split; [done|].
    apply elem_of_all_gadget_instances. by exists p, gs.
Qed.

(** X17.  [get_all_gadget_names] lists the names of the gadgets of all
    panels, each name once, in sorted order. *)
Theorem X17_get_all_gadget_names_sorted_distinct self :
  Sorted str_le (get_all_gadget_names dict_items self)
  ∧ NoDup (get_all_gadget_names dict_items self)
  ∧ ∀ name,
      name ∈ get_all_gadget_names dict_items self
      ↔ ∃ panel gadget_instances g,
          panel_contents_dict (skin_instance self) !! panel
          = Some gadget_instances
          ∧ g ∈ gadget_instances
          ∧ gadget_name g = name.
Proof.
  split; [apply Sorted_py_sort|]. split; [|apply elem_of_get_all_gadget_names].
  unfold get_all_gadget_names, py_sort.
  rewrite merge_sort_Permutation. apply NoDup_elements.
Qed.

Lemma rename_first_gadget_Some old_gadget_name new_gadget_name gs gs' :
  rename_first_gadget old_gadget_name new_gadget_name gs = Some gs' →
  ∃ i g, gs !! i = Some g
         ∧ gadget_name g = old_gadget_name
         ∧ (∀ j g', gs !! j = Some g' → (j < i)%nat →
                    gadget_name g' ≠ old_gadget_name)
         ∧ gs' = <[i := GadgetInstance.with_name g new_gadget_name]> gs.
Proof.
  revert gs'. induction gs as [|g gs IH]; intros gs' H; simpl in H; [done|].
  destruct (decide (gadget_name g = old_gadget_name)) as [Hn|Hn].
  - injection H as <-. exists 0%nat, g. split; [done|]. split; [done|].
    split; [|done]. intros j g' _ Hlt. lia.
  - destruct (rename_first_gadget _ _ gs) as [gs''|] eqn:Hrec; [|done].
    injection H as <-. destruct (IH _ eq_refl) as (i & g0 & Hi & Hg0 & Hfirst & ->).
    exists (S i), g0. split; [done|]. split; [done|]. split; [|done].
    intros [|j] g' Hj Hlt; simpl in Hj.
    + by injection Hj as <-.
    + apply (Hfirst j g' Hj). lia.
Qed.

Lemma rename_first_gadget_None old_gadget_name new_gadget_name gs :
  rename_first_gadget old_gadget_name new_gadget_name gs = None
  ↔ Forall (λ g, gadget_name g ≠ old_gadget_name) gs.
Proof.
  induction gs as [|g gs IH]; simpl; [split; [constructor|done]|].
  destruct (decide (gadget_name g = old_gadget_name)) as [Hn|Hn].
  - split; [done|]. by intros [? _]%Forall_cons.
  - rewrite Forall_cons, <- IH.
    destruct (rename_first_gadget _ _ gs); simpl; split; try done.
    by intros [_ ?].
Qed.

Lemma rename_gadget_in_panels_Some old_gadget_name new_gadget_name
    panels contents contents' :
  rename_gadget_in_panels old_gadget_name new_gadget_name panels contents
  = Some contents' →
  ∃ panel gs i g,
    (panel, gs) ∈ panels
    ∧ gs !! i = Some g
    ∧ gadget_name g = old_gadget_name
    ∧ (∀ j g', gs !! j = Some g' → (j < i)%nat →
               gadget_name g' ≠ old_gadget_name)
    ∧ contents'
      = <[panel := <[i := GadgetInstance.with_name g new_gadget_name]> gs]>
          contents.
Proof.
  induction panels as [|[p gs] panels IH]; intros H; simpl in H; [done|].
  destruct (rename_first_gadget _ _ gs) as [gs'|] eqn:Hgs.
  - injection H as <-.
    apply rename_first_gadget_Some in Hgs as (i & g & Hi & Hg & Hfirst & ->).
    exists p, gs, i, g. split; [left|done].
  - destruct (IH H) as (p' & gs' & i & g & Hin & Hrest).
    exists p', gs', i, g. split; [by right|done].
Qed.

Lemma rename_gadget_in_panels_None old_gadget_name new_gadget_name
    panels contents :
  rename_gadget_in_panels old_gadget_name new_gadget_name panels contents
  = None →
  ∀ panel gs g, (panel, gs) ∈ panels → g ∈ gs →
                gadget_name g ≠ old_gadget_name.
Proof.
  induction panels as [|[p gs] panels IH]; intros H panel gs' g Hin Hg;
    simpl in H; [by apply elem_of_nil in Hin|].
  destruct (rename_first_gadget _ _ gs) as [gs''|] eqn:Hgs; [done|].
  apply elem_of_cons in Hin as [[= -> ->]|Hin].
  - apply rename_first_gadget_None in Hgs. rewrite Forall_forall in Hgs.
    by apply Hgs.
  - by apply (IH H panel gs').
Qed.

(** X18.  [rename_gadget] returns exactly when the old name is the name
    of a gadget and the new name is either the same or free and valid; a
    call that raises leaves the exploration as it was.  A renaming to
    another name changes the name of one gadget, where it sits in its
    panel, and nothing else; the new name is then listed by
    [get_all_gadget_names]. *)
Theorem X18_rename_gadget_renames_one_gadget
    self old_gadget_name new_gadget_name :
  let r := rename_gadget dict_items matches_alphanumeric_space
             old_gadget_name new_gadget_name self in
  let names := get_all_gadget_names dict_items self in
  (r.2 = Ok ()
   ↔ old_gadget_name ∈ names
     ∧ (old_gadget_name = new_gadget_name
        ∨ (new_gadget_name ∉ names)
          ∧ GadgetInstance._validate_gadget_name matches_alphanumeric_space
              new_gadget_name = Ok ()))
  ∧ (raises r.2 → r.1 = self)
  ∧ (r.2 = Ok () → old_gadget_name = new_gadget_name → r.1 = self)
  ∧ (r.2 = Ok () → old_gadget_name ≠ new_gadget_name →
     ∃ panel gadget_instances i g,
       panel_contents_dict (skin_instance self) !! panel = Some gadget_instances
       ∧ gadget_instances !! i = Some g
       ∧ gadget_name g = old_gadget_name
       ∧ r.1 = with_panel_contents self
                 (<[panel := <[i := GadgetInstance.with_name g new_gadget_name]>
                                gadget_instances]>
                    (panel_contents_dict (skin_instance self)))
       ∧ new_gadget_name ∈ get_all_gadget_names dict_items r.1).
Proof.
  intros r names. unfold r, names, rename_gadget, mbind, stateful_bind,
    get_self, raise, lift, assign, mret, stateful_ret.
  destruct (decide (old_gadget_name ∉ _)) as [Hold|Hold]; simpl.
  { split; [split; [done|by intros [? _]]|]. split; [done|]. by split. }
  apply dec_stable in Hold.
  destruct (decide (old_gadget_name ≠ new_gadget_name ∧ _)) as [[Hne Hnew]|Hok];
    simpl.
  { split; [split; [done|]|split; [done|by split]].
    intros [_ [?|[? _]]]; done. }
  destruct (decide (old_gadget_name = new_gadget_name)) as [Heq|Hne]; simpl.
  { split; [split; [intros _; split; [done|by left]|done]|].
    split; [done|]. split; [done|]. by intros _ ?. }
  assert (new_gadget_name ∉ get_all_gadget_names dict_items self) as Hfree.
  { intros Hin. apply Hok. by split. }
  destruct (GadgetInstance._validate_gadget_name _ new_gadget_name)
    as [[]|e] eqn:Hvalid; simpl.
  2: { split; [split; [done|]|split; [done|by split]].
       intros [_ [?|[_ ?]]]; done. }
  destruct (rename_gadget_in_panels _ _ _ _) as [contents'|] eqn:Hren; simpl.
  - split; [split; [intros _; split; [done|by right]|done]|].
    split; [done|]. split; [done|]. intros _ _.
    apply rename_gadget_in_panels_Some in Hren
      as (panel & gs & i & g & Hin & Hi & Hg & _ & ->).
    apply elem_of_dict_items in Hin.
    exists panel, gs, i, g. repeat (split; [done|]).
    apply elem_of_get_all_gadget_names. simpl.
    exists panel, (<[i := GadgetInstance.with_name g new_gadget_name]> gs),
      (GadgetInstance.with_name g new_gadget_name).
    split; [by rewrite lookup_insert_eq|]. split; [|done].
    eapply list_elem_of_lookup_2. apply list_lookup_insert_eq.
    by eapply lookup_lt_Some.
  - exfalso. apply elem_of_get_all_gadget_names in Hold
      as (panel & gs & g & Hp & Hg & Hname).
    apply (rename_gadget_in_panels_None _ _ _ _ Hren panel gs g); [|done..].
    by apply elem_of_dict_items.
Qed.

Lemma delete_gadget_found self gadget_name_ :
  gadget_name_ ∈ get_all_gadget_names dict_items self →
  ∃ panel gadget_instances i g,
    panel_contents_dict (skin_instance self) !! panel = Some gadget_instances
    ∧ gadget_instances !! i = Some g
    ∧ gadget_name g = gadget_name_
    ∧ (∀ j g', gadget_instances !! j = Some g' → (j < i)%nat →
               gadget_name g' ≠ gadget_name_)
    ∧ delete_gadget dict_items gadget_name_ self
      = (with_panel_contents self
           (<[panel := delete i gadget_instances]>
              (panel_contents_dict (skin_instance self))),
         Ok ()).
Proof.
  unfold delete_gadget, mbind, stateful_bind, get_self, raise, lift, assign.
  intros Hin. rewrite decide_False by (by intros ?).
  apply elem_of_get_all_gadget_names in Hin as (p & gs & g & Hp & Hg & Hname).
  unfold _get_panel_for_gadget.
  destruct (list_find_elem_of
              (λ item : string * list GadgetInstance,
                 Exists (λ g, gadget_name g = gadget_name_) item.2)
              (dict_items _ (panel_contents_dict (skin_instance self)))
              (p, gs)) as [[idx [panel gs']] Hfind].
  { by apply elem_of_dict_items. }
  { apply Exists_exists. by exists g. }
  rewrite Hfind. simpl.
  apply list_find_Some in Hfind as (Hidx & Hex & _). simpl in Hex.
  apply list_elem_of_lookup_2, elem_of_dict_items in Hidx.
  rewrite Hidx.
  apply Exists_exists in Hex as (g0 & Hg0 & Hname0).
  destruct (list_find_elem_of (λ g, gadget_name g = gadget_name_) gs' g0
              Hg0 Hname0) as [[i g1] Hfind'].
  rewrite Hfind'. apply list_find_Some in Hfind' as (Hi & Hg1 & Hfirst).
  exists panel, gs', i, g1. repeat (split; [done|]). done.
Qed.

(** X19.  [delete_gadget] raises a [ValueError] for a name that no gadget
    has and changes nothing; for the name of a gadget it returns, and it
    has removed one gadget of that name, the first one of its panel, and
    nothing else.  The lookups of the panel and of the index cannot fail. *)
Theorem X19_delete_gadget_removes_one_gadget self gadget_name_ :
  let r := delete_gadget dict_items gadget_name_ self in
  let names := get_all_gadget_names dict_items self in
  (gadget_name_ ∉ names →
     r = (self, Raise (ValueError "Gadget %s does not exist."
                         [ArgStr gadget_name_])))
  ∧ (gadget_name_ ∈ names →
     ∃ panel gadget_instances i g,
       panel_contents_dict (skin_instance self) !! panel = Some gadget_instances
       ∧ gadget_instances !! i = Some g
       ∧ gadget_name g = gadget_name_
       ∧ (∀ j g', gadget_instances !! j = Some g' → (j < i)%nat →
                  gadget_name g' ≠ gadget_name_)
       ∧ r = (with_panel_contents self
                (<[panel := delete i gadget_instances]>
                   (panel_contents_dict (skin_instance self))),
              Ok ())).
Proof.
  intros r names. unfold r, names. split.
  - intros Hnot.
    unfold delete_gadget, mbind, stateful_bind, get_self, raise.
    by rewrite decide_True.
  - apply delete_gadget_found.
Qed.

(** X20.  [add_gadget] appends the gadget to the named panel, with no
    look at the names already in use; when the name was free,
    [delete_gadget] of that name takes the gadget away again and the
    exploration is as before. *)
Theorem X20_add_gadget_delete_gadget_round_trip
    self gadget_dict panel g gadget_instances :
  GadgetInstance.from_dict gadget_dict = Ok g →
  panel_contents_dict (skin_instance self) !! panel = Some gadget_instances →
  gadget_name g ∉ get_all_gadget_names dict_items self →
  ∃ added,
    add_gadget gadget_dict panel self = (added, Ok ())
    ∧ panel_contents_dict (skin_instance added) !! panel
      = Some (gadget_instances ++ [g])
    ∧ delete_gadget dict_items (gadget_name g) added = (self, Ok ()).
Proof.
  intros Hg Hpanel Hfresh.
  assert (∀ p gs g', panel_contents_dict (skin_instance self) !! p = Some gs →
            g' ∈ gs → gadget_name g' ≠ gadget_name g) as Hother.
  { intros p gs g' Hp Hg' Hname. apply Hfresh.
    apply elem_of_get_all_gadget_names. by exists p, gs, g'. }
  unfold add_gadget, mbind, stateful_bind, get_self, raise, lift, assign.
  rewrite Hg, Hpanel. eexists. split; [reflexivity|]. simpl.
  split; [by rewrite lookup_insert_eq|].
  set (added := with_panel_contents self _).
  destruct (delete_gadget_found added (gadget_name g))
    as (p & gs & i & g1 & Hp & Hi & Hname & Hfirst & ->).
  { apply elem_of_get_all_gadget_names. exists panel, (gadget_instances ++ [g]), g.
    split; [unfold added; simpl; by rewrite lookup_insert_eq|].
    split; [|done]. apply elem_of_app. right. left. }
  unfold added in Hp. simpl in Hp.
  destruct (decide (p = panel)) as [->|Hne].
  2: { rewrite lookup_insert_ne in Hp by done. exfalso.
       apply (Hother p gs g1 Hp); [|done]. by eapply list_elem_of_lookup_2. }
  rewrite lookup_insert_eq in Hp. injection Hp as <-.
  assert (i = length gadget_instances) as ->.
  { destruct (decide (i < length gadget_instances)%nat) as [Hlt|Hge].
    - rewrite lookup_app_l in Hi by done. exfalso.
      apply (Hother panel gadget_instances g1 Hpanel); [|done].
      by eapply list_elem_of_lookup_2.
    - apply lookup_lt_Some in Hi. rewrite length_app in Hi. simpl in Hi. lia. }
  f_equal. unfold added. simpl.
  rewrite insert_insert_eq.
  replace (delete (length gadget_instances) (gadget_instances ++ [g]))
    with gadget_instances.
  - rewrite (insert_id _ _ _ Hpanel).
    destruct self as [eid ti ca ob lc tg bl an ssv init [sid panels] sts ps pcs v].
    reflexivity.
  - rewrite delete_take_drop, take_app_length.
    rewrite drop_ge; [by rewrite app_nil_r|]. rewrite length_app. simpl. lia.
Qed.

End gadget_facts.

(** X17 at one panel with one gadget. *)
Lemma X17_witness :
  Sorted Exploration.str_le
    (Exploration.get_all_gadget_names Examples.items_in_map_order
       Examples.exploration_with_gadget_in_A)
  ∧ NoDup (Exploration.get_all_gadget_names Examples.items_in_map_order
             Examples.exploration_with_gadget_in_A)
  ∧ ∀ name,
      name ∈ Exploration.get_all_gadget_names Examples.items_in_map_order
               Examples.exploration_with_gadget_in_A
      ↔ ∃ panel gadget_instances g,
          panel_contents_dict
            (skin_instance Examples.exploration_with_gadget_in_A) !! panel
          = Some gadget_instances
          ∧ g ∈ gadget_instances
          ∧ gadget_name g = name.
Proof.
  apply (X17_get_all_gadget_names_sorted_distinct Examples.items_in_map_order).
  intros V m. reflexivity.
Defined.

(** X18 at one panel with the gadget ["ATestGadget"], renamed to
    ["Renamed"]. *)
Lemma X18_witness :
  (Exploration.rename_gadget Examples.items_in_map_order
     Examples.alphanumeric_or_space "ATestGadget" "Renamed"
     Examples.exploration_with_gadget_in_A).2 = Ok ()
  ∧ ∃ panel gadget_instances i g,
      panel_contents_dict (skin_instance Examples.exploration_with_gadget_in_A)
      !! panel = Some gadget_instances
      ∧ gadget_instances !! i = Some g
      ∧ gadget_name g = "ATestGadget"
      ∧ (Exploration.rename_gadget Examples.items_in_map_order
           Examples.alphanumeric_or_space "ATestGadget" "Renamed"
           Examples.exploration_with_gadget_in_A).1
        = Exploration.with_panel_contents Examples.exploration_with_gadget_in_A
            (<[panel := <[i := GadgetInstance.with_name g "Renamed"]>
                          gadget_instances]>
               (panel_contents_dict
                  (skin_instance Examples.exploration_with_gadget_in_A)))
      ∧ "Renamed"
        ∈ Exploration.get_all_gadget_names Examples.items_in_map_order
            (Exploration.rename_gadget Examples.items_in_map_order
               Examples.alphanumeric_or_space "ATestGadget" "Renamed"
               Examples.exploration_with_gadget_in_A).1.
Proof.
  assert (∀ V (m : gmap string V),
            Examples.items_in_map_order V m ≡ₚ map_to_list m) as Hperm.
  { intros V m. reflexivity. }
  destruct (X18_rename_gadget_renames_one_gadget Examples.items_in_map_order
              Examples.alphanumeric_or_space Hperm
              Examples.exploration_with_gadget_in_A "ATestGadget" "Renamed")
    as (_ & _ & _ & Hrenamed).
  split; [vm_compute; reflexivity|].
  apply Hrenamed; [vm_compute; reflexivity|discriminate].
Defined.

(** X19 at one panel with the gadget ["ATestGadget"]. *)
Lemma X19_witness :
  ∃ panel gadget_instances i g,
    panel_contents_dict (skin_instance Examples.exploration_with_gadget_in_A)
    !! panel = Some gadget_instances
    ∧ gadget_instances !! i = Some g
    ∧ gadget_name g = "ATestGadget"
    ∧ (∀ j g', gadget_instances !! j = Some g' → (j < i)%nat →
               gadget_name g' ≠ "ATestGadget")
    ∧ Exploration.delete_gadget Examples.items_in_map_order "ATestGadget"
        Examples.exploration_with_gadget_in_A
      = (Exploration.with_panel_contents Examples.exploration_with_gadget_in_A
           (<[panel := delete i gadget_instances]>
              (panel_contents_dict
                 (skin_instance Examples.exploration_with_gadget_in_A))),
         Ok ()).
Proof.
  assert (∀ V (m : gmap string V),
            Examples.items_in_map_order V m ≡ₚ map_to_list m) as Hperm.
  { intros V m. reflexivity. }
  destruct (X19_delete_gadget_removes_one_gadget Examples.items_in_map_order
              Hperm Examples.exploration_with_gadget_in_A "ATestGadget")
    as [_ Hfound].
  apply Hfound. vm_compute. left.
Defined.

(** X20 at one panel with one gadget, to which a second one is added. *)
Lemma X20_witness :
  ∃ added,
    Exploration.add_gadget Examples.another_gadget_dict "bottom"
      Examples.exploration_with_gadget_in_A = (added, Ok ())
    ∧ panel_contents_dict (skin_instance added) !! "bottom"
      = Some ([Examples.gadget_in ["A"]] ++ [Examples.another_gadget])
    ∧ Exploration.delete_gadget Examples.items_in_map_order
        (gadget_name Examples.another_gadget) added
      = (Examples.exploration_with_gadget_in_A, Ok ()).
Proof.
  apply (X20_add_gadget_delete_gadget_round_trip Examples.items_in_map_order).
  - intros V m. reflexivity.
  - reflexivity.
  - vm_compute. reflexivity.
  - vm_compute. intros H. inversion H as [|? ? ? H']. inversion H'.
Defined.

(** X16 at an answer group with the rule [Equals(x = 1)] and an outcome
    that leads to ["B"]. *)
Lemma X16_witness :
  rule_specs (Examples.answer_group_to "B") ≠ []
  ∧ Forall (inputs_match_parameters Examples.equals_param_list)
           (rule_specs (Examples.answer_group_to "B"))
  ∧ dest (outcome (Examples.answer_group_to "B")) ≠ "".
Proof.
  destruct (X16_answer_group_validate_sound Examples.equals_rules
              Examples.equals_param_list Examples.any_param_change_valid ∅
              (Examples.answer_group_to "B") [])
    as (_ & Hrules & _ & Hinputs & _ & Hdest & _).
  - vm_compute. reflexivity.
  - split; [exact Hrules|]. split; [exact Hinputs|exact Hdest].
Defined.

(** * The migration driver, from any version *)

Section migration_chain_facts.
Import Exploration.

Variable dict_from_yaml : string → result pyval.
Variable convert_dict : Z → option string → option string → pyval → result pyval.

(** X21.  The driver returns only for a document that parses and declares
    a schema version that is a number from 1 to 15, and it returns that
    declared version, not the version it converted to. *)
Theorem X21_migrate_returns_only_for_versions_1_to_15
    yaml_content title category d v :
  _migrate_to_latest_yaml_version dict_from_yaml convert_dict
    yaml_content title category = Ok (d, v) →
  ∃ doc z,
    dict_from_yaml yaml_content = Ok doc
    ∧ get_schema_version doc = Ok v
    ∧ py_number v = Some z
    ∧ (1 ≤ z ≤ CURRENT_EXP_SCHEMA_VERSION)%Z.
Proof.
  intros Hm.
  apply migrate_returns_declared in Hm as (doc & Hparse & Hv & Hnone & Hlo & Hhi).
  exists doc. unfold py_int_le, py_le_int in *.
  destruct v as [|b|z| | |]; simpl in *; try done.
  - exists (if b then 1 else 0)%Z. repeat (split; [done|]).
    apply bool_decide_eq_true in Hlo, Hhi. done.
  - exists z. repeat (split; [done|]).
    apply bool_decide_eq_true in Hlo, Hhi. done.
Qed.

(** Sums of version numbers, computed. *)
Ltac compute_versions :=
  repeat match goal with
         | |- context [(Z.pos ?a + Z.pos ?b)%Z] =>
             let v := eval vm_compute in (Z.pos a + Z.pos b)%Z in
             change (Z.pos a + Z.pos b)%Z with v
         end.

Lemma migration_step_fire N title category d :
  migration_step convert_dict N title category (d, PInt N)
  = (exploration_dict ← convert_dict N title category d;
     Ok (exploration_dict, PInt (N + 1))).
Proof.
  unfold migration_step, py_eq_int. simpl. by rewrite bool_decide_eq_true_2.
Qed.

(** X22.  From a document that declares the integer version [z] between 1
    and 15 the driver runs the conversion steps from [z], [z + 1], ... up
    to the step from 14, in this order and each once on the result of the
    one before; it ends with the exception of the first step that raises,
    and otherwise returns the last dict together with [z]. *)
Theorem X22_migrate_runs_the_steps_in_order
    yaml_content title category doc z :
  dict_from_yaml yaml_content = Ok doc →
  get_schema_version doc = Ok (PInt z) →
  (1 ≤ z ≤ CURRENT_EXP_SCHEMA_VERSION)%Z →
  _migrate_to_latest_yaml_version dict_from_yaml convert_dict
    yaml_content title category
  = (exploration_dict ←
       convert_chain convert_dict title category
         (Z.to_nat (CURRENT_EXP_SCHEMA_VERSION - z)) z doc;
     Ok (exploration_dict, PInt z)).
Proof.
  intros Hparse Hv Hz. unfold CURRENT_EXP_SCHEMA_VERSION in Hz.
  unfold _migrate_to_latest_yaml_version. rewrite Hparse. simpl. rewrite Hv.
  assert (z = 1 ∨ z = 2 ∨ z = 3 ∨ z = 4 ∨ z = 5 ∨ z = 6 ∨ z = 7 ∨ z = 8
          ∨ z = 9 ∨ z = 10 ∨ z = 11 ∨ z = 12 ∨ z = 13 ∨ z = 14 ∨ z = 15)%Z
    as Hcases by lia.
  clear Hz Hv.
  repeat (destruct Hcases as [->|Hcases]); [..|subst z]; simpl.
  all: compute_versions.
  all: repeat first
         [ rewrite migration_step_skip by reflexivity; simpl
         | rewrite migration_step_fire
         | match goal with
           | |- context [convert_dict ?N ?t ?c ?d] =>
               destruct (convert_dict N t c d); simpl; [|reflexivity]
           end;
           compute_versions ].
  all: reflexivity.
Qed.

End migration_chain_facts.

(** X21 at a document that declares version 12. *)
Lemma X21_witness :
  ∃ doc z,
    Examples.parse_as (PInt 12) "" = Ok doc
    ∧ Exploration.get_schema_version doc = Ok (PInt 12)
    ∧ Exploration.py_number (PInt 12) = Some z
    ∧ (1 ≤ z ≤ Exploration.CURRENT_EXP_SCHEMA_VERSION)%Z.
Proof.
  eapply (X21_migrate_returns_only_for_versions_1_to_15
            (Examples.parse_as (PInt 12)) Examples.convert_keeps "" None None).
  vm_compute. reflexivity.
Defined.

(** X22 at a document that declares version 12: the steps from 12, 13 and
    14 are run. *)
Lemma X22_witness :
  Exploration._migrate_to_latest_yaml_version (Examples.parse_as (PInt 12))
    Examples.convert_keeps "" None None
  = (exploration_dict ←
       convert_chain Examples.convert_keeps None None
         (Z.to_nat (Exploration.CURRENT_EXP_SCHEMA_VERSION - 12)) 12
         (PDict [("schema_version", PInt 12); ("states", PDict [])]);
     Ok (exploration_dict, PInt 12)).
Proof.
  apply (X22_migrate_runs_the_steps_in_order (Examples.parse_as (PInt 12))
           Examples.convert_keeps "" None None).
  - reflexivity.
  - reflexivity.
  - vm_compute. split; discriminate.
Defined.

(** * Customization arguments, once more *)

Section customization_args_more_facts.
Import anydict_ops.

Lemma get_full_unchanged rehash customization_args ca_specs :
  Forall (λ ca_spec, contains (ca_name ca_spec) customization_args = true)
         ca_specs →
  _get_full_customization_args rehash customization_args ca_specs
  = customization_args.
Proof.
  unfold _get_full_customization_args.
  induction 1 as [|s l Hs Hl IH]; simpl; [done|]. by rewrite Hs.
Qed.

(** X23.  [_get_full_customization_args] is idempotent: a dict that has
    been filled with defaults is returned unchanged by a second call with
    the same specs, also when the specs name a key twice or the dict has
    keys of its own, and in whatever order Python 2 walks the dict after a
    default has been inserted. *)
Theorem X23_get_full_customization_args_idempotent rehash
    customization_args ca_specs :
  reorders rehash →
  _get_full_customization_args rehash
    (_get_full_customization_args rehash customization_args ca_specs) ca_specs
  = _get_full_customization_args rehash customization_args ca_specs.
Proof.
  intros Hrehash. apply get_full_unchanged, Forall_forall. intros s Hs.
  apply any_contains_spec, get_full_declared; [done|].
  apply list_elem_of_fmap. by exists s.
Qed.

Variable normalize_against_schema : pyval → pyval → result pyval.

(** X24.  [_validate_customization_args_and_values] raises in two cases
    only, with [ValidationError] in both: for an argument that is not a
    dict, and for a dict with a key that is not a string.  In the second
    case it raises at the first such key in the order of the dict: the
    defaults have been added, the warnings for the undeclared names before
    that key have been logged and nothing has been deleted.  On a dict whose
    keys are all strings it returns whatever the schema normaliser does (an
    exception of the normaliser is swallowed), the dict is left with
    exactly the declared names as keys, and one warning, with the item name
    capitalised, is logged for each key that was dropped: the undeclared
    keys of the input. *)
Theorem X24_validate_customization_args_raises_for_bad_keys_only
    rehash item_name item_type ca_specs :
  reorders rehash →
  let validate customization_args :=
    _validate_customization_args_and_values normalize_against_schema rehash
      item_name item_type customization_args ca_specs in
  let full d := _get_full_customization_args rehash d ca_specs in
  let undeclared l := filter (λ k, k ∉ ca_name <$> ca_specs) l in
  let warning arg_name :=
    Warning "%s %s does not support customization arg %s."
            [ArgStr (str_capitalize item_name); ArgStr item_type;
             ArgStr arg_name] in
  (∀ v, (∀ d, v ≠ PDict d) →
        validate (ArgsValue v)
        = ([], ArgsValue v,
           Raise (ValidationError
                    "Expected customization args to be a dict, received %s"
                    [ArgVal v])))
  ∧ (∀ d, validate (ArgsValue (PDict d)) = validate (ArgsDict (of_pydict d)))
  ∧ (∀ d, (∀ v, KOther v ∉ keys d) →
          ∃ l d',
            keys (full d) = KStr <$> l
            ∧ validate (ArgsDict d)
              = (warning <$> undeclared l, ArgsDict d', Ok ())
            ∧ (∀ key, key ∈ keys d'
                      ↔ ∃ name, key = KStr name ∧ name ∈ ca_name <$> ca_specs)
            ∧ (∀ k, k ∈ undeclared l
                    ↔ KStr k ∈ keys d ∧ k ∉ ca_name <$> ca_specs))
  ∧ (∀ d v, KOther v ∈ keys d →
            ∃ before v' after,
              keys (full d) = (KStr <$> before) ++ KOther v' :: after
              ∧ KOther v' ∈ keys d
              ∧ validate (ArgsDict d)
                = (warning <$> undeclared before, ArgsDict (full d),
                   Raise (ValidationError "Invalid customization arg name: %s"
                            [ArgVal v']))).
Proof.
  intros Hrehash validate full undeclared warning.
  split; [|split; [|split]].
  - intros v Hv. unfold validate. destruct v; try done. by destruct (Hv d).
  - done.
  - intros d Hstr.
    destruct (validate_customization_args_names rehash Hrehash
                normalize_against_schema item_name item_type d ca_specs Hstr)
      as (l & d' & Hl & Heq & Hkeys & Hlog).
    by exists l, d'.
  - intros d v Hin.
    destruct (validate_customization_args_other rehash Hrehash
                normalize_against_schema item_name item_type d ca_specs v Hin)
      as (before & v' & after & Hkeys & Hv' & Heq).
    by exists before, v', after.
Qed.

End customization_args_more_facts.

(** X23 at the input [{"y": {"value": 1}}] and the spec list of C9. *)
Lemma X23_witness :
  _get_full_customization_args Examples.new_key_last
    (_get_full_customization_args Examples.new_key_last Examples.args_with_y
       [Examples.spec_x])
    [Examples.spec_x]
  = [(KStr "y", PDict [("value", PInt 1)]);
     (KStr "x", PDict [("value", PInt 5)])].
Proof.
  rewrite (X23_get_full_customization_args_idempotent Examples.new_key_last
             Examples.args_with_y [Examples.spec_x]).
  - reflexivity.
  - intros d. split; [reflexivity|intros k; reflexivity].
Defined.

(** X24 at the dict [{"y": {"value": 1}, 1: {"value": 2}}]: the default of
    ["x"] is added, the warning for ["y"] is logged, and the key [1] raises
    with ["y"] still in the dict. *)
Lemma X24_witness :
  (∃ before v' after,
     anydict_ops.keys
       (_get_full_customization_args Examples.new_key_last
          Examples.args_with_y_and_1 [Examples.spec_x])
     = (KStr <$> before) ++ KOther v' :: after
     ∧ KOther v' ∈ anydict_ops.keys Examples.args_with_y_and_1
     ∧ _validate_customization_args_and_values Examples.normalize_int
         Examples.new_key_last "interaction" "TextInput"
         (ArgsDict Examples.args_with_y_and_1) [Examples.spec_x]
       = ((λ arg_name,
             Warning "%s %s does not support customization arg %s."
                     [ArgStr (str_capitalize "interaction");
                      ArgStr "TextInput"; ArgStr arg_name])
            <$> filter (λ k, k ∉ ca_name <$> [Examples.spec_x]) before,
          ArgsDict (_get_full_customization_args Examples.new_key_last
                      Examples.args_with_y_and_1 [Examples.spec_x]),
          Raise (ValidationError "Invalid customization arg name: %s"
                   [ArgVal v'])))
  ∧ _validate_customization_args_and_values Examples.normalize_int
      Examples.new_key_last "interaction" "TextInput"
      (ArgsDict Examples.args_with_y_and_1) [Examples.spec_x]
    = ([Warning "%s %s does not support customization arg %s."
                [ArgStr "Interaction"; ArgStr "TextInput"; ArgStr "y"]],
       ArgsDict [(KStr "y", PDict [("value", PInt 1)]);
                 (KOther (PInt 1), PDict [("value", PInt 2)]);
                 (KStr "x", PDict [("value", PInt 5)])],
       Raise (ValidationError "Invalid customization arg name: %s"
                [ArgVal (PInt 1)])).
Proof.
  split; [|vm_compute; reflexivity].
  destruct (X24_validate_customization_args_raises_for_bad_keys_only
              Examples.normalize_int Examples.new_key_last
              "interaction" "TextInput" [Examples.spec_x])
    as (_ & _ & _ & Hother).
  - intros d. split; [reflexivity|intros k; reflexivity].
  - apply (Hother Examples.args_with_y_and_1 (PInt 1)).
    right. left.
Defined.

(** * The two graph validators end on every exploration *)

(** X25.  [_verify_all_states_reachable] ends on every exploration, well
    formed or not (dangling destinations and unknown interaction ids
    included): its loop takes at most one round per state and one more. *)
Theorem X25_verify_all_states_reachable_terminates
    (get_interaction_by_id : string → option BaseInteraction)
    (list_of_set : gset string → list string) (self : Exploration) :
  ∃ r, Exploration._verify_all_states_reachable get_interaction_by_id
         list_of_set self = Some r
       ∧ ∃ processed,
           Exploration.reachable_loop get_interaction_by_id
             (S (size (states self))) (states self) [] [init_state_name self]
           = Some processed.
Proof.
  destruct (reachable_loop_total get_interaction_by_id (states self)
              (S (size (states self))) [] [init_state_name self])
    as [p Hp].
  - simpl. apply NoDup_singleton.
  - intros s Hs. inversion Hs.
  - simpl. lia.
  - unfold Exploration._verify_all_states_reachable. rewrite Hp. simpl.
    eexists. split; [reflexivity|]. by eexists.
Qed.

(** X26.  [_verify_no_dead_ends] ends on every exploration as well: it
    raises the exception of the first unknown interaction id it meets
    while it collects the terminal states, or else its loop takes at most
    one round per state and one more. *)
Theorem X26_verify_no_dead_ends_terminates
    (get_interaction_by_id : string → option BaseInteraction)
    (dict_items : ∀ V, gmap string V → list (string * V))
    (list_of_set : gset string → list string) (self : Exploration) :
  (∀ V (m : gmap string V), dict_items V m ≡ₚ map_to_list m) →
  ∃ r, Exploration._verify_no_dead_ends get_interaction_by_id dict_items
         list_of_set self = Some r
       ∧ ((∃ e, Exploration.terminal_state_names get_interaction_by_id
                  (dict_items State (states self)) = Raise e
                ∧ r = Raise e)
          ∨ ∃ terminal processed,
              Exploration.terminal_state_names get_interaction_by_id
                (dict_items State (states self)) = Ok terminal
              ∧ Exploration.dead_end_loop (S (size (states self)))
                  (dict_items State (states self)) [] terminal
                = Some processed).
Proof.
  intros Hperm. unfold Exploration._verify_no_dead_ends.
  set (items := dict_items State (states self)).
  assert (∀ n st, (n, st) ∈ items → is_Some (states self !! n)) as Hitems.
  { intros n st. unfold items. rewrite Hperm, elem_of_map_to_list. eauto. }
  assert (NoDup items.*1) as Hkeys.
  { unfold items. rewrite Hperm. apply NoDup_fst_map_to_list. }
  destruct (Exploration.terminal_state_names _ items) as [T|e] eqn:HT.
  2: { eexists. split; [reflexivity|]. left. by exists e. }
  destruct (terminal_state_names_keys _ _ _ HT Hkeys) as [HndT HsubT].
  destruct (dead_end_loop_total get_interaction_by_id (states self) items
              (S (size (states self))) [] T Hitems) as [p Hp].
  - done.
  - intros s Hs. simpl in Hs. apply HsubT in Hs.
    apply list_elem_of_fmap in Hs as ([n st] & -> & Hin). by eapply Hitems.
  - simpl. lia.
  - rewrite Hp. simpl. eexists. split; [reflexivity|]. right. by exists T, p.
Qed.

(** X26 at the cycle [A -> B, B -> A]. *)
Lemma X26_witness :
  ∃ r, Exploration._verify_no_dead_ends Examples.registry
         Examples.items_in_map_order Examples.py27_list_of_set
         Examples.exploration_AB_cycle = Some r
       ∧ ((∃ e, Exploration.terminal_state_names Examples.registry
                  (Examples.items_in_map_order State
                     (states Examples.exploration_AB_cycle)) = Raise e
                ∧ r = Raise e)
          ∨ ∃ terminal processed,
              Exploration.terminal_state_names Examples.registry
                (Examples.items_in_map_order State
                   (states Examples.exploration_AB_cycle)) = Ok terminal
              ∧ Exploration.dead_end_loop
                  (S (size (states Examples.exploration_AB_cycle)))
                  (Examples.items_in_map_order State
                     (states Examples.exploration_AB_cycle)) [] terminal
                = Some processed).
Proof.
  apply (X26_verify_no_dead_ends_terminates Examples.registry
           Examples.items_in_map_order Examples.py27_list_of_set
           Examples.exploration_AB_cycle).
  intros V m. reflexivity.
Defined.

(** * Change dicts *)

Section exploration_change_facts.
Import pydict_ops.

Lemma getitem_Ok k d v : getitem k d = Ok v ↔ get k d = Some v.
Proof.
  unfold getitem. destruct (get k d); simpl; split; congruence.
Qed.

Lemma in_properties_true v properties :
  ExplorationChange.in_properties v properties = true
  ↔ ∃ p, v = PStr p ∧ p ∈ properties.
Proof.
  destruct v as [| | |s| |]; simpl;
    try (split; [done|by intros (? & ? & _)]).
  rewrite bool_decide_eq_true. split; [by exists s|].
  by intros (p & [= <-] & Hp).
Qed.

(** The steps of [__init__] that have succeeded, one by one. *)
Ltac change_steps H :=
  repeat first
    [ apply bind_Ok_inv in H as (? & ?Hitem & H)
    | match type of H with
      | context [negb (ExplorationChange.in_properties ?v ?ps)] =>
          destruct (ExplorationChange.in_properties v ps) eqn:?Hprop;
          cbn [negb] in H; [|discriminate H]
      end ];
  repeat match goal with
         | Hitem : pydict_ops.getitem _ _ = Ok _ |- _ =>
             apply getitem_Ok in Hitem
         end.

Lemma init_well_formed change_dict c :
  ExplorationChange.init change_dict = Ok c →
  change_dict_well_formed change_dict.
Proof.
  unfold ExplorationChange.init, ExplorationChange.invalid. intros H.
  destruct (contains "cmd" change_dict) eqn:Hc; [|done]. cbn [negb] in H.
  apply bind_Ok_inv in H as (cmd & Hcmd & H). apply getitem_Ok in Hcmd.
  destruct cmd as [| | |cmd| |]; try done.
  unfold change_dict_well_formed.
  repeat case_decide; subst; try done; change_steps H;
    eexists _, _; (split; [exact Hcmd|]); (split; [reflexivity|]);
    (split; [repeat (apply List.Forall_cons; [by eexists|]);
             apply List.Forall_nil|]).
  all: split; [|try (intros [=])].
  all: try (intros properties [=]).
  all: try (subst properties;
            apply in_properties_true in Hprop as (p & -> & Hp); by exists p).
  match goal with
  | Hd : get "gadget_dict" change_dict = Some ?g,
    Hn : py_getitem "gadget_name" ?g = Ok _ |- _ =>
      destruct g; try done; apply getitem_Ok in Hn;
      eexists; split; [exact Hd|by eexists]
  end.
Qed.

Lemma well_formed_init change_dict :
  change_dict_well_formed change_dict →
  is_Ok (ExplorationChange.init change_dict).
Proof.
  intros (cmd & keys & Hcmd & Hkeys & Hall & Hprops & Hgadget).
  unfold ExplorationChange.init.
  assert (contains "cmd" change_dict = true) as ->.
  { apply contains_spec. by eexists. }
  cbv beta zeta. cbn [negb]. unfold getitem. rewrite Hcmd. simpl.
  unfold change_keys in Hkeys. unfold change_properties in Hprops.
  repeat case_decide; subst; try done; injection Hkeys as <-;
    repeat match goal with
           | Hf : Forall _ (_ :: _) |- _ =>
               apply Forall_cons in Hf as [[? ?Hk] Hf]
           end;
    try (destruct (Hprops _ eq_refl) as (p & Hp & Hin));
    try (destruct (Hgadget eq_refl) as (g & Hg & [? Hname]));
    unfold getitem;
    repeat match goal with
           | Hk : get ?k change_dict = Some _ |- context [get ?k change_dict] =>
               rewrite Hk
           end;
    simpl.
  all: try done.
  all: try (rewrite bool_decide_eq_true_2 by done; simpl).
  all: try done.
  all: try (unfold getitem; rewrite Hname; done).
Qed.

(** X27.  [ExplorationChange.__init__] accepts exactly the change dicts of
    its docstring: a known command with the keys of that command, for the
    three edit commands a property name of the right kind, and for
    [add_gadget] a gadget dict that has a name.  A dict without ['cmd'], or
    with a command that is not one of the ten, raises the plain
    [Exception] with the text [Invalid change_dict]. *)
Theorem X27_exploration_change_accepts_documented_dicts change_dict :
  (is_Ok (ExplorationChange.init change_dict)
   ↔ change_dict_well_formed change_dict)
  ∧ (get "cmd" change_dict = None
     ∨ (∃ cmd, get "cmd" change_dict = Some cmd
               ∧ ∀ name, cmd = PStr name → change_keys name = None) →
     ExplorationChange.init change_dict
     = Raise (Exception_ "Invalid change_dict: %s" [ArgVal (PDict change_dict)])).
Proof.
  split.
  - split; [|apply well_formed_init].
    destruct (ExplorationChange.init change_dict) as [c|e] eqn:H; [|done].
    intros _. by eapply init_well_formed.
  - unfold ExplorationChange.init, ExplorationChange.invalid.
    intros [Hnone|(cmd & Hcmd & Hunknown)].
    + apply contains_false in Hnone. by rewrite Hnone.
    + assert (contains "cmd" change_dict = true) as ->.
      { apply contains_spec. by eexists. }
      cbv beta zeta. cbn [negb]. unfold getitem. rewrite Hcmd. simpl.
      destruct cmd as [| | |name| |]; try done.
      specialize (Hunknown name eq_refl). unfold change_keys in Hunknown.
      repeat case_decide; done.
Qed.

End exploration_change_facts.

(** * The conversion of the states from version 1 to version 2 *)

Section states_v1_to_v2_facts.
Import Exploration pydict_ops.

Lemma is_old_end_dest_true v :
  is_old_end_dest v = true ↔ v = PStr old_end_dest.
Proof.
  destruct v; simpl; try (split; done).
  rewrite bool_decide_eq_true. split; congruence.
Qed.

Lemma scan_rule_specs_true rule_list b :
  scan_rule_specs rule_list = Ok b →
  b = true
  ↔ ∃ rule_spec, rule_spec ∈ rule_list
                 ∧ py_getitem "dest" rule_spec = Ok (PStr old_end_dest).
Proof.
  revert b. induction rule_list as [|r l IH]; intros b H; simpl in H.
  - injection H as <-. split; [done|]. intros (? & Hin & _).
    by apply elem_of_nil in Hin.
  - apply bind_Ok_inv in H as (d & Hd & H).
    destruct (is_old_end_dest d) eqn:Hend.
    + injection H as <-. apply is_old_end_dest_true in Hend. subst d.
      split; [|done]. intros _. exists r. split; [left|done].
    + rewrite (IH _ H). split.
      * intros (r' & Hin & Hr'). exists r'. split; [by right|done].
      * intros (r' & [->|Hin]%elem_of_cons & Hr'); [|by exists r'].
        rewrite Hd in Hr'. injection Hr' as ->.
        by rewrite (proj2 (is_old_end_dest_true _) eq_refl) in Hend.
Qed.

(** Some rule of the handler leads to ['END']. *)
Local Abbreviation handler_targets handler :=
  (∃ rule_specs rule_list rule_spec,
     py_getitem "rule_specs" handler = Ok rule_specs
     ∧ py_iter rule_specs = Ok rule_list
     ∧ rule_spec ∈ rule_list
     ∧ py_getitem "dest" rule_spec = Ok (PStr old_end_dest)).

Lemma scan_handlers_true targets_end_state handler_list b :
  scan_handlers targets_end_state handler_list = Ok b →
  b = true
  ↔ targets_end_state = true
    ∨ ∃ handler, handler ∈ handler_list ∧ handler_targets handler.
Proof.
  revert targets_end_state b.
  induction handler_list as [|h l IH]; intros t b H; simpl in H.
  - injection H as <-. split; [by left|]. intros [?|(? & Hin & _)]; [done|].
    by apply elem_of_nil in Hin.
  - apply bind_Ok_inv in H as (rs & Hrs & H).
    apply bind_Ok_inv in H as (rl & Hrl & H).
    apply bind_Ok_inv in H as (found & Hfound & H).
    rewrite (IH _ _ H). rewrite orb_true_iff.
    rewrite (scan_rule_specs_true _ _ Hfound). split.
    + intros [[?|(r & Hin & Hr)]|(h' & Hin & Hh')].
      * by left.
      * right. exists h. split; [left|]. by exists rs, rl, r.
      * right. exists h'. split; [by right|done].
    + intros [?|(h' & [->|Hin]%elem_of_cons & Hh')].
      * left. by left.
      * left. right. destruct Hh' as (rs' & rl' & r & Hrs' & Hrl' & Hin & Hr).
        rewrite Hrs in Hrs'. injection Hrs' as <-.
        rewrite Hrl in Hrl'. injection Hrl' as <-. by exists r.
      * right. by exists h'.
Qed.

Lemma scan_states_targeted has_end_state items t' h' :
  scan_states true has_end_state items = Ok (t', h') → t' = true.
Proof.
  revert has_end_state. induction items as [|[n sd] l IH]; intros h H;
    simpl in H.
  - by injection H as <- _.
  - by eapply IH.
Qed.

Lemma scan_states_spec targets_end_state has_end_state items t' h' :
  scan_states targets_end_state has_end_state items = Ok (t', h') →
  (h' = true ↔ has_end_state = true ∨ old_end_dest ∈ keys items)
  ∧ (t' = true
     ↔ targets_end_state = true
       ∨ ∃ state_name sdict, (state_name, sdict) ∈ items
                             ∧ targets_old_end sdict).
Proof.
  revert targets_end_state has_end_state.
  induction items as [|[n sd] l IH]; intros t h H; simpl in H.
  - injection H as <- <-. split.
    + split; [by left|]. intros [?|Hin]; [done|]. by apply elem_of_nil in Hin.
    + split; [by left|]. intros [?|(? & ? & Hin & _)]; [done|].
      by apply elem_of_nil in Hin.
  - assert (h || bool_decide (n = old_end_dest) = true
            ↔ h = true ∨ n = old_end_dest) as Hh.
    { rewrite orb_true_iff, bool_decide_eq_true. done. }
    unfold keys. rewrite fmap_cons. simpl.
    destruct t.
    + split.
      * destruct (IH _ _ H) as [-> _]. rewrite Hh, elem_of_cons.
        unfold keys. intuition congruence.
      * split; [by left|]. intros _. by eapply scan_states_targeted.
    + apply bind_Ok_inv in H as (i & Hi & H).
      apply bind_Ok_inv in H as (hs & Hhs & H).
      apply bind_Ok_inv in H as (hl & Hhl & H).
      apply bind_Ok_inv in H as (t1 & Ht1 & H).
      destruct (IH _ _ H) as [-> ->]. split.
      * rewrite Hh, elem_of_cons. unfold keys. intuition congruence.
      * rewrite (scan_handlers_true _ _ _ Ht1). split.
        -- intros [[?|(handler & Hin & rs & rl & r & Hrs & Hrl & Hr & Hd)]
                  |(n' & sd' & Hin & Ht)]; [done| |].
           ++ right. exists n, sd. split; [left|].
              by exists i, hs, hl, handler, rs, rl, r.
           ++ right. exists n', sd'. split; [by right|done].
        -- intros [?|(n' & sd' & [[= -> ->]|Hin]%elem_of_cons & Ht)]; [done| |].
           ++ left. right.
              destruct Ht as (i' & hs' & hl' & handler & rs & rl & r
                              & Hi' & Hhs' & Hhl' & Hin & Hrest).
              rewrite Hi in Hi'. injection Hi' as <-.
              rewrite Hhs in Hhs'. injection Hhs' as <-.
              rewrite Hhl in Hhl'. injection Hhl' as <-.
              exists handler. split; [done|]. by exists rs, rl, r.
           ++ right. by exists n', sd'.
Qed.

Lemma scan_states_app targets_end_state has_end_state items1 items2 :
  scan_states targets_end_state has_end_state (items1 ++ items2)
  = (flags ← scan_states targets_end_state has_end_state items1;
     scan_states flags.1 flags.2 items2).
Proof.
  revert targets_end_state has_end_state.
  induction items1 as [|[n sd] l IH]; intros t h; simpl; [done|].
  destruct t; [apply IH|].
  destruct (py_getitem "interaction" sd) as [i|]; simpl; [|done].
  destruct (py_getitem "handlers" i) as [hs|]; simpl; [|done].
  destruct (py_iter hs) as [hl|]; simpl; [|done].
  destruct (scan_handlers false hl) as [t1|]; simpl; [|done].
  apply IH.
Qed.

(** The scan returns when each state can be read on its own, in whatever
    order the states come. *)
Lemma scan_states_readable items :
  (∀ n sd, (n, sd) ∈ items → is_Ok (scan_states false false [(n, sd)])) →
  ∀ t h, is_Ok (scan_states t h items).
Proof.
  induction items as [|[n sd] l IH]; intros Hread t h; simpl; [done|].
  assert (∀ t h, is_Ok (scan_states t h l)) as Hl.
  { apply IH. intros n' sd' Hin. apply Hread. by right. }
  destruct t; [apply Hl|].
  specialize (Hread n sd (list_elem_of_here _ _)). simpl in Hread.
  destruct (py_getitem "interaction" sd) as [i|]; simpl in *; [|done].
  destruct (py_getitem "handlers" i) as [hs|]; simpl in *; [|done].
  destruct (py_iter hs) as [hl|]; simpl in *; [|done].
  destruct (scan_handlers false hl) as [t1|]; simpl in *; [|done].
  apply Hl.
Qed.

(** A dict that has ['END'] is returned as it is, when the conversion
    returns. *)
Lemma convert_states_with_end rehash states_dict states_dict' :
  is_Some (get old_end_dest states_dict) →
  _convert_states_v1_dict_to_v2_dict rehash states_dict = Ok states_dict' →
  states_dict' = states_dict.
Proof.
  unfold _convert_states_v1_dict_to_v2_dict. intros Hend H.
  apply bind_Ok_inv in H as ([t h] & Hscan & H).
  destruct (scan_states_spec _ _ _ _ _ Hscan) as [Hh _].
  assert (h = true) as ->.
  { apply Hh. right. by apply get_is_Some_keys. }
  rewrite andb_false_r in H. by injection H as <-.
Qed.

Lemma convert_states_readable rehash states_dict :
  (∀ n sd, (n, sd) ∈ states_dict → is_Ok (scan_states false false [(n, sd)])) →
  is_Ok (_convert_states_v1_dict_to_v2_dict rehash states_dict).
Proof.
  intros Hread. unfold _convert_states_v1_dict_to_v2_dict.
  pose proof (scan_states_readable _ Hread false false) as Hscan.
  destruct (scan_states false false states_dict) as [[t h]|]; [|done].
  simpl. by destruct (t && negb h).
Qed.

(** X28.  When the conversion of the states from version 1 to version 2
    returns, every state of the input is in the result, unchanged; the
    result has a state ['END'] exactly when the input had one or some rule
    of some handler of some state leads to ['END'], so that afterwards no
    rule leads to a missing ['END']; the only change ever made is the
    explicit ['END'] state that is inserted, after which Python 2 may walk
    the dict in another order; a second conversion of the result never
    changes it again; and the second conversion returns when every state of
    the input can be read on its own.  (It can raise otherwise: in the new
    order it may come to a state that the first conversion did not read.) *)
Theorem X28_convert_states_v1_to_v2_adds_end_state rehash
    states_dict states_dict' :
  reorders rehash →
  _convert_states_v1_dict_to_v2_dict rehash states_dict = Ok states_dict' →
  (∀ k v, get k states_dict = Some v → get k states_dict' = Some v)
  ∧ (is_Some (get old_end_dest states_dict')
     ↔ is_Some (get old_end_dest states_dict)
       ∨ ∃ state_name sdict, (state_name, sdict) ∈ states_dict
                             ∧ targets_old_end sdict)
  ∧ (states_dict' = states_dict
     ∨ get old_end_dest states_dict = None
       ∧ states_dict' ≡ₚ states_dict ++ [(old_end_dest, explicit_end_state)]
       ∧ get old_end_dest states_dict' = Some explicit_end_state)
  ∧ (∀ states_dict'',
       _convert_states_v1_dict_to_v2_dict rehash states_dict'
       = Ok states_dict'' →
       states_dict'' = states_dict')
  ∧ ((∀ n sd, (n, sd) ∈ states_dict →
              is_Ok (scan_states false false [(n, sd)])) →
     _convert_states_v1_dict_to_v2_dict rehash states_dict' = Ok states_dict').
Proof.
  intros Hrehash H.
  assert ((∀ k v, get k states_dict = Some v → get k states_dict' = Some v)
          ∧ (is_Some (get old_end_dest states_dict')
             ↔ is_Some (get old_end_dest states_dict)
               ∨ ∃ state_name sdict, (state_name, sdict) ∈ states_dict
                                     ∧ targets_old_end sdict)
          ∧ (states_dict' = states_dict
             ∨ get old_end_dest states_dict = None
               ∧ states_dict'
                 ≡ₚ states_dict ++ [(old_end_dest, explicit_end_state)]
               ∧ get old_end_dest states_dict' = Some explicit_end_state))
    as (Hkeep & Hend & Hchange).
  { revert H. unfold _convert_states_v1_dict_to_v2_dict. intros H.
    apply bind_Ok_inv in H as ([t h] & Hscan & H).
    destruct (scan_states_spec _ _ _ _ _ Hscan) as [Hh Ht].
    assert (h = true ↔ is_Some (get old_end_dest states_dict)) as Hh'.
    { rewrite Hh, get_is_Some_keys. intuition congruence. }
    assert (t = true ↔ ∃ state_name sdict, (state_name, sdict) ∈ states_dict
                                           ∧ targets_old_end sdict) as Ht'.
    { rewrite Ht. intuition congruence. }
    destruct (t && negb h) eqn:Hadd; injection H as <-.
    - apply andb_true_iff in Hadd as [-> Hnot%negb_true_iff]. subst h.
      assert (get old_end_dest states_dict = None) as Hnone.
      { apply eq_None_not_Some. intros Hsome. apply Hh' in Hsome. done. }
      split; [|split].
      + intros k v Hk. rewrite get_set by done.
        case_decide; [congruence|done].
      + rewrite get_set, decide_True by done.
        split; [|by eexists]. intros _. right. by apply Ht'.
      + right. split; [done|]. split.
        * rewrite (set_absent _ _ _ _ Hnone). apply Hrehash.
        * by rewrite get_set, decide_True.
    - split; [done|]. split; [|by left].
      rewrite <- Hh', <- Ht'.
      destruct t, h; simpl in Hadd; try done; intuition congruence. }
  split; [done|]. split; [done|]. split; [done|].
  assert (∀ states_dict'',
            _convert_states_v1_dict_to_v2_dict rehash states_dict'
            = Ok states_dict'' →
            states_dict'' = states_dict') as Hagain.
  { intros states_dict'' H'.
    destruct Hchange as [->|(_ & _ & Hnew)]; [congruence|].
    eapply convert_states_with_end; [|exact H']. by eexists. }
  split; [done|]. intros Hread.
  assert (is_Ok (_convert_states_v1_dict_to_v2_dict rehash states_dict'))
    as Hok.
  { apply convert_states_readable. intros n sd Hin.
    destruct Hchange as [->|(_ & Hperm & _)]; [by apply Hread|].
    rewrite Hperm in Hin. apply elem_of_app in Hin as [Hin|Hin].
    - by apply Hread.
    - apply list_elem_of_singleton in Hin. injection Hin as -> ->.
      vm_compute. exact I. }
  destruct (_convert_states_v1_dict_to_v2_dict rehash states_dict')
    as [states_dict''|] eqn:H'; [|done].
  by rewrite (Hagain _ eq_refl).
Qed.

Lemma first_key_last_reorders : reorders Examples.first_key_last.
Proof.
  intros [|[k v] d]; [done|]. simpl. case_bool_decide as Hk; [done|].
  split; [symmetry; apply Permutation_cons_append|].
  intros k0. rewrite get_app_absent.
  destruct (decide (k = k0)) as [<-|Hne]; [|by destruct (get k0 d)].
  assert (get k d = None) as ->; [|done].
  apply eq_None_not_Some. by rewrite get_is_Some_keys.
Qed.

(** The second conversion can raise where the first one returned: the
    first stops reading at the state that leads to ['END'] and never comes
    to the state without an interaction; after the insertion of ['END']
    that state is walked first. *)
Lemma convert_states_v1_to_v2_twice_can_raise :
  ∃ states_dict',
    _convert_states_v1_dict_to_v2_dict Examples.first_key_last
      Examples.states_v1_with_stub = Ok states_dict'
    ∧ _convert_states_v1_dict_to_v2_dict Examples.first_key_last states_dict'
      = Raise (KeyError "interaction").
Proof. eexists. split; vm_compute; reflexivity. Qed.

End states_v1_to_v2_facts.

(** X28 at one version-1 state whose default rule leads to ['END'], in a
    table where the new key lands behind the others. *)
Lemma X28_witness :
  (∀ k v, pydict_ops.get k Examples.states_v1_to_END = Some v →
          pydict_ops.get k
            (Examples.states_v1_to_END
             ++ [(Exploration.old_end_dest, Exploration.explicit_end_state)])
          = Some v)
  ∧ Exploration._convert_states_v1_dict_to_v2_dict Examples.new_key_last
      (Examples.states_v1_to_END
       ++ [(Exploration.old_end_dest, Exploration.explicit_end_state)])
    = Ok (Examples.states_v1_to_END
          ++ [(Exploration.old_end_dest, Exploration.explicit_end_state)]).
Proof.
  destruct (X28_convert_states_v1_to_v2_adds_end_state
              Examples.new_key_last
              Examples.states_v1_to_END
              (Examples.states_v1_to_END
               ++ [(Exploration.old_end_dest, Exploration.explicit_end_state)]))
    as (Hkeep & _ & _ & _ & Hagain).
  - intros d. split; [reflexivity|intros k; reflexivity].
  - vm_compute. reflexivity.
  - split; [exact Hkeep|]. apply Hagain. intros n sd Hin.
    apply list_elem_of_singleton in Hin. injection Hin as -> ->.
    vm_compute. exact I.
Defined.

(** * Gadgets that fit their panel *)

Section gadget_panel_facts.

Variable PANELS_PROPERTIES : gmap string PanelSpec.
Variable GADGET_PANEL_AXIS_HORIZONTAL : string.
Variable get_gadget_by_type : string → option GadgetSpec.
Variable dict_items : ∀ V, gmap string V → list (string * V).
Variable list_of_set : gset string → list string.

Hypothesis dict_items_perm :
  ∀ V (m : gmap string V), dict_items V m ≡ₚ map_to_list m.
Hypothesis list_of_set_perm : ∀ X, list_of_set X ≡ₚ elements X.

Lemma lookup_append_visible g (m : gmap string (list GadgetInstance))
    state_names s :
  NoDup state_names →
  foldl (SkinInstance.append_visible g) m state_names !! s
  = if decide (s ∈ state_names) then Some (default [] (m !! s) ++ [g])
    else m !! s.
Proof.
  intros Hnd. revert m. induction Hnd as [|n l Hn Hnd IH]; intros m; simpl.
  - done.
  - rewrite IH. unfold SkinInstance.append_visible.
    destruct (decide (s ∈ l)) as [Hin|Hin].
    + rewrite decide_True by (by right).
      rewrite lookup_insert_ne; [done|]. by intros ->.
    + destruct (decide (s = n)) as [->|Hne].
      * rewrite lookup_insert_eq. rewrite decide_True by left. done.
      * rewrite lookup_insert_ne by done. rewrite decide_False; [done|].
        by intros [?|?]%elem_of_cons.
Qed.

Lemma lookup_gadget_visibility_map_from (m : gmap string (list GadgetInstance))
    gadget_list s :
  foldl (λ m g, foldl (SkinInstance.append_visible g) m
                  (list_of_set (list_to_set (visible_in_states g))))
        m gadget_list !! s
  = match visible_gadgets s gadget_list with
    | [] => m !! s
    | v => Some (default [] (m !! s) ++ v)
    end.
Proof.
  revert m. induction gadget_list as [|g l IH]; intros m; simpl; [done|].
  rewrite IH. rewrite lookup_append_visible.
  2: { rewrite list_of_set_perm. apply NoDup_elements. }
  unfold visible_gadgets. rewrite filter_cons.
  assert (s ∈ list_of_set (list_to_set (visible_in_states g))
          ↔ s ∈ visible_in_states g) as Hiff.
  { by rewrite list_of_set_perm, elem_of_elements, elem_of_list_to_set. }
  destruct (decide (s ∈ visible_in_states g)) as [Hin|Hin].
  - rewrite decide_True by (by apply Hiff). simpl.
    destruct (filter _ l); [done|]. by rewrite <- app_assoc.
  - rewrite decide_False by (by rewrite Hiff). done.
Qed.

(** The map holds, for each state, the gadgets visible in it, in the order
    of the panel; a state with no gadget has no entry. *)
Lemma lookup_gadget_visibility_map gadget_list s :
  SkinInstance.gadget_visibility_map list_of_set gadget_list !! s
  = match visible_gadgets s gadget_list with
    | [] => None
    | v => Some v
    end.
Proof.
  unfold SkinInstance.gadget_visibility_map.
  rewrite lookup_gadget_visibility_map_from, lookup_empty. done.
Qed.

Lemma mapM_width_Ok gs widths :
  mapM_result (SkinInstance.width get_gadget_by_type) gs = Ok widths →
  Forall (λ g, is_Some (get_gadget_by_type (gadget_type g))) gs
  ∧ widths = registered_width get_gadget_by_type <$> gs.
Proof.
  revert widths. induction gs as [|g gs IH]; intros widths H; simpl in H.
  - injection H as <-. split; [constructor|done].
  - apply bind_Ok_inv in H as (w & Hw & H).
    apply bind_Ok_inv in H as (ws & Hws & H). injection H as <-.
    destruct (IH _ Hws) as [Hall ->].
    unfold SkinInstance.width in Hw.
    destruct (get_gadget_by_type (gadget_type g)) as [spec|] eqn:Hspec; [|done].
    injection Hw as <-. split.
    + constructor; [|done]. rewrite Hspec. by eexists.
    + rewrite fmap_cons. f_equal. unfold registered_width. by rewrite Hspec.
Qed.

Lemma mapM_height_Ok gs heights :
  mapM_result (SkinInstance.height get_gadget_by_type) gs = Ok heights →
  heights = registered_height get_gadget_by_type <$> gs.
Proof.
  revert heights. induction gs as [|g gs IH]; intros heights H; simpl in H.
  - by injection H as <-.
  - apply bind_Ok_inv in H as (h & Hh & H).
    apply bind_Ok_inv in H as (hs & Hhs & H). injection H as <-.
    rewrite (IH _ Hhs).
    unfold SkinInstance.height in Hh.
    destruct (get_gadget_by_type (gadget_type g)) as [spec|] eqn:Hspec; [|done].
    injection Hh as <-. rewrite fmap_cons. f_equal.
    unfold registered_height. by rewrite Hspec.
Qed.

Lemma foldl_max_ge (x : Z) l :
  (x ≤ foldl Z.max x l)%Z ∧ Forall (λ y, (y ≤ foldl Z.max x l)%Z) l.
Proof.
  revert x. induction l as [|y l IH]; intros x; simpl.
  - split; [lia|constructor].
  - destruct (IH (Z.max x y)) as [Hx Hall]. split; [lia|].
    constructor; [lia|done].
Qed.

Lemma py_max_Ok l m : py_max l = Ok m → Forall (λ y, (y ≤ m)%Z) l.
Proof.
  destruct l as [|x l]; [done|]. simpl. intros [= <-].
  destruct (foldl_max_ge x l) as [Hx Hall]. by constructor.
Qed.

(** X29.  When [validate_gadget_panel] accepts a panel that is not empty,
    the panel is one of [feconf.PANELS_PROPERTIES] and, in every state in
    which some gadget of the panel is visible, the gadgets visible there
    are no more than [max_gadgets], are all of registered types, are laid
    out on the horizontal axis, and fit: their widths and the gaps between
    them add up to no more than the width of the panel, and none is higher
    than the panel. *)
Theorem X29_validate_gadget_panel_sound panel_name gadget_list :
  gadget_list ≠ [] →
  SkinInstance.validate_gadget_panel PANELS_PROPERTIES
    GADGET_PANEL_AXIS_HORIZONTAL get_gadget_by_type dict_items list_of_set
    panel_name gadget_list = Ok () →
  ∃ panel_spec,
    PANELS_PROPERTIES !! panel_name = Some panel_spec
    ∧ ∀ state_name,
        let visible := visible_gadgets state_name gadget_list in
        visible ≠ [] →
        (Z.of_nat (length visible) ≤ max_gadgets panel_spec)%Z
        ∧ stackable_axis panel_spec = GADGET_PANEL_AXIS_HORIZONTAL
        ∧ Forall (λ g, is_Some (get_gadget_by_type (gadget_type g))) visible
        ∧ (pixels_between_gadgets panel_spec
           * (Z.of_nat (length visible) - 1)
           + py_sum (registered_width get_gadget_by_type <$> visible)
           ≤ panel_width panel_spec)%Z
        ∧ Forall (λ g, (registered_height get_gadget_by_type g
                        ≤ panel_height panel_spec)%Z) visible.
Proof.
  intros Hne H. unfold SkinInstance.validate_gadget_panel in H.
  destruct gadget_list as [|g0 gl]; [done|].
  set (gadget_list := g0 :: gl) in *.
  destruct (PANELS_PROPERTIES !! panel_name) as [panel_spec|]; [|done].
  simpl in H. exists panel_spec. split; [done|].
  intros s visible Hvis.
  rewrite forM__Ok, Forall_forall in H.
  assert (SkinInstance.validate_fit GADGET_PANEL_AXIS_HORIZONTAL
            get_gadget_by_type panel_name panel_spec (s, visible) = Ok ())
    as Hfit.
  { apply H. rewrite dict_items_perm. apply elem_of_map_to_list.
    rewrite lookup_gadget_visibility_map. fold visible.
    by destruct visible. }
  unfold SkinInstance.validate_fit in Hfit.
  destruct (decide (max_gadgets panel_spec < _)%Z) as [?|Hmax]; [done|].
  destruct (decide (stackable_axis panel_spec = _)) as [Haxis|?]; [|done].
  apply bind_Ok_inv in Hfit as (widths & Hwidths & Hfit).
  apply bind_Ok_inv in Hfit as (heights & Hheights & Hfit).
  apply bind_Ok_inv in Hfit as (total_height & Hmaxh & Hfit).
  destruct (decide (panel_height panel_spec < total_height)%Z) as [?|Hh];
    [done|].
  destruct (decide (panel_width panel_spec < _)%Z) as [?|Hw]; [done|].
  apply mapM_width_Ok in Hwidths as [Hreg ->].
  apply mapM_height_Ok in Hheights as ->.
  apply py_max_Ok in Hmaxh.
  split; [lia|]. split; [done|]. split; [done|]. split; [lia|].
  rewrite Forall_fmap in Hmaxh. eapply Forall_impl; [exact Hmaxh|].
  intros g Hg. simpl in Hg. lia.
Qed.

End gadget_panel_facts.

(** X29 at the panel ["bottom"] with one gadget that is visible in ["A"]. *)
Lemma X29_witness :
  ∃ panel_spec,
    Examples.panels_properties !! "bottom" = Some panel_spec
    ∧ ∀ state_name,
        let visible :=
          visible_gadgets state_name [Examples.gadget_in ["A"]] in
        visible ≠ [] →
        (Z.of_nat (length visible) ≤ max_gadgets panel_spec)%Z
        ∧ stackable_axis panel_spec = "horizontal"
        ∧ Forall (λ g, is_Some (Examples.gadget_registry (gadget_type g)))
                 visible
        ∧ (pixels_between_gadgets panel_spec
           * (Z.of_nat (length visible) - 1)
           + py_sum (registered_width Examples.gadget_registry <$> visible)
           ≤ panel_width panel_spec)%Z
        ∧ Forall (λ g, (registered_height Examples.gadget_registry g
                        ≤ panel_height panel_spec)%Z) visible.
Proof.
  apply (X29_validate_gadget_panel_sound Examples.panels_properties
           "horizontal" Examples.gadget_registry Examples.items_in_map_order
           Examples.elements_in_order).
  - intros V m. reflexivity.
  - intros X. reflexivity.
  - discriminate.
  - vm_compute. reflexivity.
Defined.

(** * The default outcome of a state *)

Section default_outcome_facts.

Variable clean : string → string.

Lemma mapM_clean_item items cleaned :
  mapM_result (Outcome.clean_item clean) items = Ok cleaned →
  Forall (λ f, ∃ raw, f = clean raw) cleaned.
Proof.
  revert cleaned. induction items as [|v l IH]; intros cleaned H; simpl in H.
  - injection H as <-. constructor.
  - apply bind_Ok_inv in H as (f & Hf & H).
    apply bind_Ok_inv in H as (fs & Hfs & H). injection H as <-.
    constructor; [|by apply IH].
    destruct v; simpl in Hf; try done. injection Hf as <-. by eexists.
Qed.

(** The feedback of an outcome built by [Outcome.from_dict] is clean. *)
Lemma from_dict_feedback_cleaned outcome_dict o :
  Outcome.from_dict clean outcome_dict = Ok o →
  Forall (λ f, ∃ raw, f = clean raw) (feedback o).
Proof.
  unfold Outcome.from_dict. intros H.
  repeat (apply bind_Ok_inv in H as (? & _ & H)).
  destruct x; try done. unfold Outcome.init in H.
  apply bind_Ok_inv in H as (items & _ & H).
  apply bind_Ok_inv in H as (fb & Hfb & H). injection H as <-. simpl.
  by eapply mapM_clean_item.
Qed.

(** X30.  [update_interaction_default_outcome] removes the default outcome
    for every falsy argument, the empty dict included; it raises the plain
    [Exception] for a truthy argument that is not a dict, and [KeyError]
    for a dict that lacks ['dest'], ['feedback'] or ['param_changes'] (the
    first of them, in this order), in both cases without touching the
    state; and for a dict that [Outcome.from_dict] reads it stores the
    outcome with its feedback cleaned a second time, which is the outcome of
    [Outcome.from_dict] itself whenever cleaning clean text changes
    nothing. *)
Theorem X30_update_interaction_default_outcome outcome_dict self :
  let r := State.update_interaction_default_outcome clean outcome_dict self in
  let stored o :=
    State.with_interaction self
      (InteractionInstance.with_default_outcome (interaction self) o) in
  (py_truthy outcome_dict = false → r = (stored None, Ok ()))
  ∧ (py_truthy outcome_dict = true → (∀ d, outcome_dict ≠ PDict d) →
     r = (self,
          Raise (Exception_
                   "Expected default_outcome_dict to be a dict, received %s"
                   [ArgVal outcome_dict])))
  ∧ (∀ d, outcome_dict = PDict d → d ≠ [] →
       (∀ o, Outcome.from_dict clean outcome_dict = Ok o →
             r = (stored (Some {| dest := dest o;
                                  feedback := clean <$> feedback o;
                                  outcome_param_changes :=
                                    outcome_param_changes o |}),
                  Ok ())
             ∧ ((∀ text, clean (clean text) = clean text) →
                r = (stored (Some o), Ok ())))
       ∧ (pydict_ops.get "dest" d = None →
          r = (self, Raise (KeyError "dest")))
       ∧ (is_Some (pydict_ops.get "dest" d) →
          pydict_ops.get "feedback" d = None →
          r = (self, Raise (KeyError "feedback")))
       ∧ (is_Some (pydict_ops.get "dest" d) →
          is_Some (pydict_ops.get "feedback" d) →
          pydict_ops.get "param_changes" d = None →
          r = (self, Raise (KeyError "param_changes")))).
Proof.
  intros r stored. unfold r, stored, State.update_interaction_default_outcome.
  split; [|split].
  - intros ->. reflexivity.
  - intros -> Hnot. destruct outcome_dict as [| | | | |d]; try reflexivity.
    by destruct (Hnot d).
  - intros d -> Hne. cbn [py_truthy]. rewrite bool_decide_eq_true_2 by done.
    unfold mbind, stateful_bind, lift, assign.
    split; [|split; [|split]].
    + intros o Ho. rewrite Ho. simpl. split; [done|]. intros Hidem.
      apply from_dict_feedback_cleaned in Ho.
      destruct o as [d' fb pcs]. simpl in *.
      assert (clean <$> fb = fb) as ->; [|done].
      rewrite <- (list_fmap_id fb) at 2. apply list_fmap_ext.
      intros i f Hf. rewrite Forall_forall in Ho.
      destruct (Ho f) as [raw ->]; [by eapply list_elem_of_lookup_2|].
      apply Hidem.
    + intros Hdest. unfold Outcome.from_dict, py_getitem, pydict_ops.getitem.
      by rewrite Hdest.
    + intros [v Hdest] Hfeedback.
      unfold Outcome.from_dict, py_getitem, pydict_ops.getitem.
      by rewrite Hdest, Hfeedback.
    + intros [v Hdest] [fb Hfeedback] Hparams.
      unfold Outcome.from_dict, py_getitem, pydict_ops.getitem.
      by rewrite Hdest, Hfeedback, Hparams.
Qed.

End default_outcome_facts.
